(** * Lightnet bounding-box decoding: a shallow embedding of [lightnet/bbox.py]

    The Python module decodes the raw output of a grid-and-anchor detection
    network ([BBoxConverter._get_region_boxes_nms]), suppresses overlapping
    candidates greedily, and maps the survivors to image pixels
    ([BBoxToBrambox]); [bbox_iou] is the overlap measure shared by both.

    Numbers.  The program computes on IEEE floating-point values.  They are
    idealised here as real numbers: [+], [-], [*], [/], [exp] are the exact
    operations of [R], comparisons are the order of [R].  Rounding, overflow,
    infinities and NaN are outside that model.  Python raises
    [ZeroDivisionError] on a float division by zero; that is kept.  Where a
    result hinges on rounding (an exact constant, a float turned into an
    integer) the code is transcribed a second time on binary64 numbers,
    and the statements about such results are made there.

    Arrays.  A tensor is a shape over a flat storage, with the device the
    storage lives on.  Views share the storage: the in-place operations of
    the decode stage and, where the score array is a view, the sentinel
    writes of the suppression loop reach the caller's array. *)

From Stdlib Require Import Reals Lra Lia List Arith Bool.
From Stdlib Require Import Permutation Sorted ZArith.
From Stdlib Require String.
From Stdlib Require Import Floats.
Import ListNotations.

Open Scope R_scope.

(** ** Exceptions *)

Inductive PyError : Type :=
| ZeroDivisionError   (* float division by zero *)
| IndexError          (* index out of range for a dimension; [torch.max]
                         along a dimension without elements *)
| ShapeError          (* [view]: the requested shape does not fit the data *)
| TypeError           (* a list indexed by a float *)
| ValueError          (* [int] of a NaN *)
| OverflowError.      (* [int] of an infinity *)

Inductive result (A : Type) : Type :=
| Ok (a : A)
| Raise (e : PyError).
Arguments Ok {A} a.
Arguments Raise {A} e.

Definition bind {A B : Type} (m : result A) (f : A -> result B) : result B :=
  match m with
  | Ok a => f a
  | Raise e => Raise e
  end.

Notation "x <- m ;; k" := (bind m (fun x => k))
  (at level 61, m at next level, right associativity).

(** ** Comparisons of reals as booleans *)

Definition Rltb (x y : R) : bool := if Rlt_dec x y then true else false.
Definition Rleb (x y : R) : bool := if Rle_dec x y then true else false.
Definition Rgtb (x y : R) : bool := Rltb y x.
Definition Rgeb (x y : R) : bool := Rleb y x.
Definition Reqb (x y : R) : bool := if Req_dec_T x y then true else false.

(** Python's float division. *)
Definition pydiv (x y : R) : result R :=
  if Reqb y 0 then Raise ZeroDivisionError else Ok (x / y).

(** ** Boxes and [bbox_iou]

    A box is the sequence [[xc, yc, w, h]]; [bbox_iou] reads items 0..3. *)

Record Box : Type := mkBox { xc : R; yc : R; bw : R; bh : R }.

Definition bbox_iou (box1 box2 : Box) : result R :=
  let mx := Rmin (xc box1 - bw box1 / 2) (xc box2 - bw box2 / 2) in
  let Mx := Rmax (xc box1 + bw box1 / 2) (xc box2 + bw box2 / 2) in
  let my := Rmin (yc box1 - bh box1 / 2) (yc box2 - bh box2 / 2) in
  let My := Rmax (yc box1 + bh box1 / 2) (yc box2 + bh box2 / 2) in
  let w1 := bw box1 in
  let h1 := bh box1 in
  let w2 := bw box2 in
  let h2 := bh box2 in
  let uw := Mx - mx in
  let uh := My - my in
  let iw := w1 + w2 - uw in
  let ih := h1 + h2 - uh in
  if Rleb iw 0 || Rleb ih 0 then Ok 0
  else
    let area1 := w1 * h1 in
    let area2 := w2 * h2 in
    let iarea := iw * ih in
    let uarea := area1 + area2 - iarea in
    pydiv iarea uarea.

(** The two intersection dimensions of the shortcut formula. *)
Definition inter_w (box1 box2 : Box) : R :=
  bw box1 + bw box2
  - (Rmax (xc box1 + bw box1 / 2) (xc box2 + bw box2 / 2)
     - Rmin (xc box1 - bw box1 / 2) (xc box2 - bw box2 / 2)).

Definition inter_h (box1 box2 : Box) : R :=
  bh box1 + bh box2
  - (Rmax (yc box1 + bh box1 / 2) (yc box2 + bh box2 / 2)
     - Rmin (yc box1 - bh box1 / 2) (yc box2 - bh box2 / 2)).


(** ** Tensors

    A tensor is its shape and its storage in row-major order.  [view] and
    slicing share the storage, so the in-place operations of the decoder
    write the caller's array. *)

Record Tensor : Type := mkTensor {
  dims : list nat;
  data : list R;
  is_cuda : bool    (* whether the storage lives on an accelerator *)
}.

Definition numel (t : Tensor) : nat := fold_right Nat.mul 1%nat (dims t).

Definition wf_tensor (t : Tensor) : Prop := length (data t) = numel t.

(** [t.size(d)] *)
Definition size (t : Tensor) (d : nat) : result nat :=
  match nth_error (dims t) d with
  | Some n => Ok n
  | None => Raise IndexError
  end.

(** [t.unsqueeze_(0)] *)
Definition unsqueeze0 (t : Tensor) : Tensor :=
  mkTensor (1%nat :: dims t) (data t) (is_cuda t).

Fixpoint mapi_from {A B : Type} (f : nat -> A -> B) (i : nat) (l : list A)
  : list B :=
  match l with
  | [] => []
  | x :: l' => f i x :: mapi_from f (S i) l'
  end.

Definition mapi {A B : Type} (f : nat -> A -> B) (l : list A) : list B :=
  mapi_from f 0 l.

(** *** The shape [(batch, num_anchors, k, h*w)] over the flat storage *)

Definition flat_index (A k hw : nat) (b a ch cell : nat) : nat :=
  (((b * A + a) * k + ch) * hw + cell)%nat.

Definition cell_of (hw i : nat) : nat := (i mod hw)%nat.
Definition chan_of (k hw i : nat) : nat := ((i / hw) mod k)%nat.
Definition anchor_of (A k hw i : nat) : nat := ((i / (hw * k)) mod A)%nat.

(** [output[b,a,ch,cell]] *)
Definition get4 (A k hw : nat) (d : list R) (b a ch cell : nat) : R :=
  nth (flat_index A k hw b a ch cell) d 0.

(** [output.view(batch, num_anchors, -1, h*w)]: the third size is inferred;
    it exists when the known sizes are non-zero and divide the number of
    elements. *)
Definition view_infer (t : Tensor) (batch A hw : nat) : result nat :=
  let known := (batch * A * hw)%nat in
  if (known =? 0)%nat then Raise ShapeError
  else if (numel t mod known =? 0)%nat then Ok (numel t / known)%nat
  else Raise ShapeError.

(** ** Network and converter *)


Record BBoxConverter : Type := mkBBoxConverter {
  conf_thresh : R;
  nms_thresh : R;
  anchors : list R;
  num_classes : nat;
  num_anchors : nat
}.


(** [anchors[::2]] and [anchors[1::2]] *)
Fixpoint evens (l : list R) : list R :=
  match l with
  | [] => []
  | x :: l' => x :: match l' with [] => [] | _ :: l'' => evens l'' end
  end.

Definition odds (l : list R) : list R :=
  match l with
  | [] => []
  | _ :: l' => evens l'
  end.

(** [torch.Tensor(l).view(1, n, 1)] *)
Definition view_1n1 (l : list R) (n : nat) : result (list R) :=
  if (length l =? n)%nat then Ok l else Raise ShapeError.

(** [torch.linspace(0, n-1, n)] *)
Definition linspace0 (n : nat) : list R := map INR (seq 0 n).

(** [torch.linspace(0, w-1, w).repeat(h,1).view(h*w)] *)
Definition make_lin_x (h w : nat) : list R :=
  concat (repeat (linspace0 w) h).

(** [torch.linspace(0, h-1, h).repeat(w,1).t().contiguous().view(h*w)] *)
Definition make_lin_y (h w : nat) : list R :=
  flat_map (fun y => repeat y w) (linspace0 h).

Definition sigmoid (x : R) : R := 1 / (1 + exp (- x)).

(** ** The decode stage, in place

    A computation reads and writes the caller's tensor and may raise; the
    tensor keeps what was written before the exception. *)

Definition M (A : Type) : Type := Tensor -> result A * Tensor.

Definition ret {A : Type} (a : A) : M A := fun t => (Ok a, t).

Definition raise {A : Type} (e : PyError) : M A := fun t => (Raise e, t).

Definition bindM {A B : Type} (m : M A) (f : A -> M B) : M B :=
  fun t =>
    match m t with
    | (Ok a, t') => f a t'
    | (Raise e, t') => (Raise e, t')
    end.

Definition lift {A : Type} (f : Tensor -> result A) : M A :=
  fun t => (f t, t).

Definition modify (f : Tensor -> Tensor) : M unit :=
  fun t => (Ok tt, f t).

Notation "'do' x <- m ; k" := (bindM m (fun x => k))
  (at level 10, x name, m at level 100, k at level 200).
Notation "'do_' m ; k" := (bindM m (fun _ => k))
  (at level 10, m at level 100, k at level 200).

(** [output[:,:,c,:].op_()]: selecting channel [c] needs [c < k]; the
    operation [f a cell] then replaces every element of that channel. *)
Definition inplace_channel (A k hw c : nat) (f : nat -> nat -> R -> R)
  : M unit :=
  if (c <? k)%nat then
    modify (fun t =>
      mkTensor (dims t)
        (mapi (fun i v =>
                 if (chan_of k hw i =? c)%nat
                 then f (anchor_of A k hw i) (cell_of hw i) v
                 else v)
              (data t))
        (is_cuda t))
  else raise IndexError.

(** The tensor after the rank check of lines 41-42. *)
Definition batched (t : Tensor) : Tensor :=
  if (length (dims t) =? 3)%nat then unsqueeze0 t else t.

(** What the decode stage leaves for the suppression stage. *)
Record Grid : Type := mkGrid {
  g_batch : nat;
  g_h : nat;
  g_w : nat;
  g_k : nat    (* channels per anchor, inferred by [view] *)
}.

(** Lines 40-66 of [_get_region_boxes_nms]. *)
Definition decode_stage (self : BBoxConverter) : M Grid :=
  do rank <- lift (fun t => Ok (length (dims t))) ;
  do_ (if (rank =? 3)%nat then modify unsqueeze0 else ret tt) ;
  do batch <- lift (fun t => size t 0) ;
  do h <- lift (fun t => size t 2) ;
  do w <- lift (fun t => size t 3) ;
  let lin_x := make_lin_x h w in
  let lin_y := make_lin_y h w in
  do anchor_w <- lift (fun _ => view_1n1 (evens (anchors self)) (num_anchors self)) ;
  do anchor_h <- lift (fun _ => view_1n1 (odds (anchors self)) (num_anchors self)) ;
  let A := num_anchors self in
  let hw := (h * w)%nat in
  do k <- lift (fun t => view_infer t batch A hw) ;
  do_ inplace_channel A k hw 0
        (fun a cell v => (sigmoid v + nth cell lin_x 0) / INR w) ;
  do_ inplace_channel A k hw 1
        (fun a cell v => (sigmoid v + nth cell lin_y 0) / INR h) ;
  do_ inplace_channel A k hw 2
        (fun a cell v => exp v * nth a anchor_w 0 / INR w) ;
  do_ inplace_channel A k hw 3
        (fun a cell v => exp v * nth a anchor_h 0 / INR h) ;
  do_ inplace_channel A k hw 4
        (fun a cell v => sigmoid v) ;
  ret (mkGrid batch h w k).

(** [anchor_w] and [anchor_h] of the decoder. *)
Definition anchor_w (self : BBoxConverter) : list R := evens (anchors self).
Definition anchor_h (self : BBoxConverter) : list R := odds (anchors self).

(** The five in-place operations as one function of the position in the
    storage and of the raw value found there. *)
Definition decode_elem (self : BBoxConverter) (g : Grid) (i : nat) (v : R)
  : R :=
  let A := num_anchors self in
  let hw := (g_h g * g_w g)%nat in
  let k := g_k g in
  let a := anchor_of A k hw i in
  let cell := cell_of hw i in
  match chan_of k hw i with
  | 0%nat => (sigmoid v + nth cell (make_lin_x (g_h g) (g_w g)) 0) / INR (g_w g)
  | 1%nat => (sigmoid v + nth cell (make_lin_y (g_h g) (g_w g)) 0) / INR (g_h g)
  | 2%nat => exp v * nth a (anchor_w self) 0 / INR (g_w g)
  | 3%nat => exp v * nth a (anchor_h self) 0 / INR (g_h g)
  | 4%nat => sigmoid v
  | _ => v
  end.

(** ** Class scores (lines 68-75) *)

(** [torch.max] over a non-empty list. *)
Fixpoint Rmax_list (l : list R) : R :=
  match l with
  | [] => 0
  | [x] => x
  | x :: l' => Rmax x (Rmax_list l')
  end.

(** Position of the first maximal element. *)
Fixpoint index_of (m : R) (l : list R) : nat :=
  match l with
  | [] => 0%nat
  | x :: l' => if Reqb x m then 0%nat else S (index_of m l')
  end.

Definition argmax (l : list R) : nat := index_of (Rmax_list l) l.

Definition Rsum (l : list R) : R := fold_right Rplus 0 l.

(** The numerically stable softmax: the maximum is subtracted first. *)
Definition softmax (l : list R) : list R :=
  let m := Rmax_list l in
  let e := map (fun x => exp (x - m)) l in
  let s := Rsum e in
  map (fun x => x / s) e.

(** An element of [cls_max_idx], item 5 of a returned box.  With several
    classes it is an index that [torch.max] returned, a Python int; with
    one class it comes from [torch.zeros_like(cls_max)] (line 75), a
    float. *)
Inductive ClassIdx : Type :=
| IntIdx (n : nat)
| FloatIdx (x : R).

Section Scores.
Variables (self : BBoxConverter) (g : Grid) (d : list R) (b : nat).

Let A := num_anchors self.
Let hw := (g_h g * g_w g)%nat.
Let k := g_k g.

(** [output[b,a,5:,cell]] *)
Definition class_logits (a cell : nat) : list R :=
  map (fun c => get4 A k hw d b a (5 + c) cell) (seq 0 (k - 5)).

(** [cls_max[b,idx]] and [cls_max_idx[b,idx]] before suppression. *)
Definition score_at (idx : nat) : R * ClassIdx :=
  let a := (idx / hw)%nat in
  let cell := (idx mod hw)%nat in
  let obj := get4 A k hw d b a 4 cell in
  if (1 <? num_classes self)%nat then
    let probs := softmax (class_logits a cell) in
    (Rmax_list probs * obj, IntIdx (argmax probs))
  else (obj, FloatIdx 0).

Definition cls_scores : list (R * ClassIdx) := map score_at (seq 0 (A * hw)).

(** [output[b,a,0:4,hw]] with [a = idx // (h*w)], [hw = idx % (h*w)] *)
Definition box_at (idx : nat) : Box :=
  let a := (idx / hw)%nat in
  let cell := (idx mod hw)%nat in
  mkBox (get4 A k hw d b a 0 cell) (get4 A k hw d b a 1 cell)
        (get4 A k hw d b a 2 cell) (get4 A k hw d b a 3 cell).
End Scores.

(** ** Ranking (lines 77-78)

    Modelled from the spec: [torch.sort] is library code.  The ranking is
    the one the spec describes, descending by score with ties kept in the
    order of the original linear index. *)

Fixpoint insert_desc (s : nat -> R) (x : nat) (l : list nat) : list nat :=
  match l with
  | [] => [x]
  | y :: l' => if Rltb (s x) (s y) then y :: insert_desc s x l' else x :: l
  end.

Definition torch_sort_desc (v : list R) : list nat :=
  fold_right (insert_desc (fun i => nth i v 0)) [] (seq 0 (length v)).

(** ** Greedy suppression (lines 85-115) *)

(** [l[i] = v] *)
Fixpoint set_nth (i : nat) (v : R) (l : list R) : list R :=
  match l, i with
  | [], _ => []
  | _ :: l', O => v :: l'
  | x :: l', S i' => x :: set_nth i' v l'
  end.

Section Suppress.
Variables (conf nms : R) (box_of : nat -> Box).

(** The inner loop, over the ranked candidates after the emitted one. *)
Fixpoint suppress_from (box : Box) (rest : list nat) (cls_max : list R)
  : result (list R) :=
  match rest with
  | [] => Ok cls_max
  | idx2 :: rest' =>
      let s := nth idx2 cls_max 0 in
      if Rgeb s 0 && Rltb s conf then Ok cls_max
      else if Rgeb s 0 then
        iou <- bbox_iou box (box_of idx2) ;;
        if Rgtb iou nms
        then suppress_from box rest' (set_nth idx2 (-1) cls_max)
        else suppress_from box rest' cls_max
      else suppress_from box rest' cls_max
  end.

(** The outer loop.  It yields, in the order of emission, the linear
    index of every emitted candidate with the score read at emission. *)
Fixpoint nms_loop (order : list nat) (cls_max : list R)
  : result (list (nat * R)) :=
  match order with
  | [] => Ok []
  | idx :: rest =>
      let s := nth idx cls_max 0 in
      if Rltb s 0 then nms_loop rest cls_max
      else if Rltb s conf then Ok []
      else
        cls_max' <- suppress_from (box_of idx) rest cls_max ;;
        kept <- nms_loop rest cls_max' ;;
        Ok ((idx, s) :: kept)
  end.

(** The score array that the outer loop leaves behind: the same walk,
    keeping [cls_max] instead of [box_batch]. *)
Fixpoint nms_scores (order : list nat) (cls_max : list R)
  : result (list R) :=
  match order with
  | [] => Ok cls_max
  | idx :: rest =>
      let s := nth idx cls_max 0 in
      if Rltb s 0 then nms_scores rest cls_max
      else if Rltb s conf then Ok cls_max
      else
        cls_max' <- suppress_from (box_of idx) rest cls_max ;;
        nms_scores rest cls_max'
  end.
End Suppress.

(** A detection [[xc, yc, w, h, score, class]]. *)
Record Det : Type := mkDet { d_box : Box; d_score : R; d_class : ClassIdx }.

Fixpoint mapM {A B : Type} (f : A -> result B) (l : list A)
  : result (list B) :=
  match l with
  | [] => Ok []
  | x :: l' => y <- f x ;; ys <- mapM f l' ;; Ok (y :: ys)
  end.

(** [cls_max[b,:]] and [cls_max_sort_id[b,:]]: the combined scores of
    image [b] and their ranking. *)
Definition cls_max_of (self : BBoxConverter) (g : Grid) (d : list R)
    (b : nat) : list R :=
  map fst (cls_scores self g d b).

Definition ranked_of (self : BBoxConverter) (g : Grid) (d : list R)
    (b : nat) : list nat :=
  torch_sort_desc (cls_max_of self g d b).

(** The candidates of image [b] that survive, with their linear indices. *)
Definition survivors (self : BBoxConverter) (g : Grid) (d : list R) (b : nat)
  : result (list (nat * R)) :=
  nms_loop (conf_thresh self) (nms_thresh self) (box_at self g d b)
           (ranked_of self g d b) (cls_max_of self g d b).

Definition image_boxes (self : BBoxConverter) (g : Grid) (d : list R) (b : nat)
  : result (list Det) :=
  kept <- survivors self g d b ;;
  Ok (map (fun e => mkDet (box_at self g d b (fst e)) (snd e)
                          (snd (score_at self g d b (fst e))))
          kept).

(** The score array of image [b] after its suppression loops. *)
Definition final_scores (self : BBoxConverter) (g : Grid) (d : list R)
    (b : nat) : result (list R) :=
  nms_scores (conf_thresh self) (nms_thresh self) (box_at self g d b)
             (ranked_of self g d b) (cls_max_of self g d b).

(** Whether [cls_max] shares the storage of [output].  With one class,
    line 74 takes [output[:,:,4,:].contiguous().view(batch, -1)];
    [contiguous] returns the slice itself when it is contiguous, which
    it is for one image and one anchor only, and [cpu] (lines 81-82)
    returns its argument when the storage is not on an accelerator.  With
    several classes [mul] (line 72) makes a new array. *)
Definition aliases (self : BBoxConverter) (g : Grid) (output : Tensor)
  : bool :=
  negb (1 <? num_classes self)%nat && (g_batch g =? 1)%nat
  && (num_anchors self =? 1)%nat && negb (is_cuda output).

(** [cls_max] written through to channel 4 of the storage it shares
    (one image, one anchor). *)
Definition write_scores (g : Grid) (cls_max : list R) (output : Tensor)
  : Tensor :=
  mkTensor (dims output)
    (mapi (fun i v =>
             if (chan_of (g_k g) (g_h g * g_w g) i =? 4)%nat
             then nth (cell_of (g_h g * g_w g) i) cls_max v
             else v)
          (data output))
    (is_cuda output).

(** Lines 68-117, on the decoded array.  With several classes and no
    class channel [torch.max] has nothing to reduce.  The boxes of every
    image are collected; the sentinel writes of line 113 reach the
    caller's storage when [cls_max] shares it.  Inside the loops only
    [bbox_iou] can raise; the array is left as decoded in that case. *)
Definition suppress_stage (self : BBoxConverter) (g : Grid)
  : M (list (list Det)) :=
  fun output =>
    if (1 <? num_classes self)%nat && (g_k g <=? 5)%nat
    then (Raise IndexError, output)
    else
      match mapM (image_boxes self g (data output)) (seq 0 (g_batch g)) with
      | Ok boxes =>
          (Ok boxes,
           if aliases self g output then
             match final_scores self g (data output) 0 with
             | Ok cls_max => write_scores g cls_max output
             | Raise _ => output
             end
           else output)
      | Raise e => (Raise e, output)
      end.

Definition _get_region_boxes_nms (self : BBoxConverter)
  : M (list (list Det)) :=
  do g <- decode_stage self ;
  suppress_stage self g.


(** ** Mapping to image pixels: [BBoxToBrambox] *)

Inductive ClassLabel : Type :=
| ClassId (n : Z)            (* [int(box[5])] *)
| ClassName (s : String.string).    (* [class_label_map[box[5]]] *)

Record Detection : Type := mkDetection {
  x_top_left : R;
  y_top_left : R;
  width : R;
  height : R;
  confidence : R;
  class_label : ClassLabel
}.

(** Modelled from the spec: [Detection.rescale] belongs to the brambox
    library; the box is mapped into image pixels by scaling its position
    and size by the given factor. *)
Definition rescale (value : R) (det : Detection) : Detection :=
  mkDetection (x_top_left det * value) (y_top_left det * value)
              (width det * value) (height det * value)
              (confidence det) (class_label det).

(** Python's [int(x)] on a float: truncation towards zero. *)
Definition py_int (x : R) : Z :=
  if Rleb 0 x then Int_part x else (- Int_part (- x))%Z.

(** Lines 128-142: the scale and the padding of the letterbox. *)
Definition letterbox (net_size : R * R) (img_size : option (R * R))
  : result (R * (Z * Z)) :=
  let (net_w, net_h) := net_size in
  match img_size with
  | Some (im_w, im_h) =>
      scale <- (if Reqb im_w net_w && Reqb im_h net_h then Ok 1
                else
                  rw <- pydiv im_w net_w ;;
                  rh <- pydiv im_h net_h ;;
                  if Rgeb rw rh then pydiv net_w im_w else pydiv net_h im_h) ;;
      Ok (scale, (py_int ((net_w - im_w * scale) / 2),
                  py_int ((net_h - im_h * scale) / 2)))
  | None => Ok (1, (0%Z, 0%Z))
  end.

(** Lines 146-161: one box. *)
Definition to_detection (net_w net_h scale : R) (pad : Z * Z)
    (class_label_map : option (list String.string)) (box : Det) : result Detection :=
  let b := d_box box in
  let x := (xc b - bw b / 2) * net_w in
  let y := (yc b - bh b / 2) * net_h in
  let w := bw b * net_w in
  let h := bh b * net_h in
  let c := d_score box * 100 in
  label <- match class_label_map, d_class box with
           | Some m, IntIdx n =>
               match nth_error m n with
               | Some s => Ok (ClassName s)
               | None => Raise IndexError
               end
           | Some m, FloatIdx _ => Raise TypeError
           | None, IntIdx n => Ok (ClassId (Z.of_nat n))
           | None, FloatIdx x => Ok (ClassId (py_int x))
           end ;;
  let x := x - IZR (fst pad) in
  let y := y - IZR (snd pad) in
  f <- pydiv 1 scale ;;
  Ok (rescale f (mkDetection x y w h c label)).

Definition BBoxToBrambox (boxes : list Det) (net_size : R * R)
    (img_size : option (R * R)) (class_label_map : option (list String.string))
  : result (list Detection) :=
  sp <- letterbox net_size img_size ;;
  mapM (to_detection (fst net_size) (snd net_size) (fst sp) (snd sp)
          class_label_map) boxes.

(** ** The arithmetic of the interpreter, bit for bit

    Where a result hinges on rounding, the real numbers say nothing about
    the program.  [bbox_iou] and the letterbox of [BBoxToBrambox] are
    therefore transcribed a second time on IEEE binary64 numbers, the
    floats of Python, operation by operation. *)

Section Binary64.
Local Open Scope float_scope.







End Binary64.


(** ** The Coordinate Mapper as the specification words it

    These follow the text of the specification, not the code; the theorems
    below compare them with [letterbox] and [BBoxToBrambox]. *)







(** ** The Greedy Suppressor as the specification words it

    The scores are never written; every candidate is [active] until it is
    marked [suppressed] in a separate set.  Candidates are walked in ranked
    order: a suppressed one is skipped, the walk stops at the first score
    below the confidence threshold, every other candidate is emitted and
    the still active candidates after it are scanned. *)

Definition is_suppressed (suppressed : list nat) (idx : nat) : bool :=
  existsb (Nat.eqb idx) suppressed.

Section SuppressSpec.
Variables (conf nms : R) (box_of : nat -> Box) (scores : list R).

Fixpoint spec_scan (box : Box) (rest : list nat) (suppressed : list nat)
  : result (list nat) :=
  match rest with
  | [] => Ok suppressed
  | j :: rest' =>
      if is_suppressed suppressed j then spec_scan box rest' suppressed
      else if Rltb (nth j scores 0) conf then Ok suppressed
      else
        iou <- bbox_iou box (box_of j) ;;
        if Rgtb iou nms
        then spec_scan box rest' (j :: suppressed)
        else spec_scan box rest' suppressed
  end.

Fixpoint spec_suppressor (ranked : list nat) (suppressed : list nat)
  : result (list (nat * R)) :=
  match ranked with
  | [] => Ok []
  | i :: rest =>
      if is_suppressed suppressed i then spec_suppressor rest suppressed
      else if Rltb (nth i scores 0) conf then Ok []
      else
        suppressed' <- spec_scan (box_of i) rest suppressed ;;
        kept <- spec_suppressor rest suppressed' ;;
        Ok ((i, nth i scores 0) :: kept)
  end.
End SuppressSpec.

(** A subsequence keeps the relative order of the elements it retains. *)
Inductive subseq {A : Type} : list A -> list A -> Prop :=
| subseq_nil (l : list A) : subseq [] l
| subseq_skip (x : A) (l1 l2 : list A) : subseq l1 l2 -> subseq l1 (x :: l2)
| subseq_take (x : A) (l1 l2 : list A) :
    subseq l1 l2 -> subseq (x :: l1) (x :: l2).

(** How many candidates of a score list reach the confidence threshold. *)
Definition count_confident (conf : R) (scores : list R) : nat :=
  length (filter (fun idx => Rleb conf (nth idx scores 0))
                 (seq 0 (length scores))).

(** [i] is ranked before [j] under the scores [s]: its score is not
    smaller. *)
Definition before (s : nat -> R) (i j : nat) : Prop := s j <= s i.

(** Every entry of the current score array is the original score or the
    sentinel -1. *)
Definition marked (scores cls_max : list R) : Prop :=
  forall i, nth i cls_max 0 = nth i scores 0 \/ nth i cls_max 0 = -1.

(** ** A small grid for concrete runs

    One image, one anchor, a 1x2 grid and five channels; the array holds
    decoded values: two boxes with scores 9/10 and 3/10. *)
Definition ex_conv : BBoxConverter :=
  mkBBoxConverter (1 / 2) (1 / 2) [1; 1] 1 1.
Definition ex_grid : Grid := mkGrid 1 1 2 5.
Definition ex_data : list R :=
  [1 / 4; 3 / 4; 1 / 2; 1 / 2; 1 / 2; 1 / 2; 1; 1; 9 / 10; 3 / 10].

(** The same grid with two boxes of identical geometry and equal scores. *)
Definition ex_tie_data : list R :=
  [1 / 2; 1 / 2; 1 / 2; 1 / 2; 1 / 2; 1 / 2; 1; 1; 9 / 10; 9 / 10].

(** The score array of the code against the explicit state of the
    specification: a suppressed candidate holds the sentinel, every other
    one its original score. *)
Definition agrees (scores cls_max : list R) (suppressed : list nat) : Prop :=
  length cls_max = length scores /\
  forall i, (i < length scores)%nat ->
    nth i cls_max 0 = if is_suppressed suppressed i then -1
                      else nth i scores 0.

(** Two scans go the same way: both fail alike, or both end in states that
    agree. *)
Definition same_scan (scores : list R) (r1 : result (list R))
    (r2 : result (list nat)) : Prop :=
  match r1, r2 with
  | Ok cls_max, Ok sup => agrees scores cls_max sup
  | Raise e1, Raise e2 => e1 = e2
  | _, _ => False
  end.

(** A 1x1 grid with one anchor of width and height 1, one class: the raw
    array and what the decode stage makes of it. *)
Definition unit_conv : BBoxConverter :=
  mkBBoxConverter (1 / 2) (1 / 2) [1; 1] 1 1.
Definition unit_raw : Tensor :=
  mkTensor [1; 6; 1; 1]%nat [0; 0; 0; 0; 5; 0] false.
Definition unit_grid : Grid := mkGrid 1 1 1 6.
Definition unit_decoded : Tensor :=
  mkTensor [1; 6; 1; 1]%nat [1 / 2; 1 / 2; 1; 1; sigmoid 5; 0] false.




(** One anchor, one class, and five channels where [1 * (5 + 1)] are
    declared. *)
Definition five_raw : Tensor := mkTensor [1; 5; 1; 1]%nat [0; 0; 0; 0; 5] false.





(** A box without a negative size. *)
Definition nonneg_box (b : Box) : Prop := 0 <= bw b /\ 0 <= bh b.
(** ** Further definitions for the properties of the code beyond the
    specification *)

(** A candidate the loop would still emit: its entry in the score array
    is neither negative nor below the confidence threshold. *)
Definition eligible (conf : R) (cls_max : list R) (idx : nat) : Prop :=
  ~ nth idx cls_max 0 < 0 /\ ~ nth idx cls_max 0 < conf.

(** Two candidates overlap by at most [nms], by more than [nms]. *)
Definition overlap_le (box_of : nat -> Box) (nms : R) (i j : nat) : Prop :=
  exists v, bbox_iou (box_of i) (box_of j) = Ok v /\ v <= nms.

Definition overlap_gt (box_of : nat -> Box) (nms : R) (i j : nat) : Prop :=
  exists v, bbox_iou (box_of i) (box_of j) = Ok v /\ nms < v.

(** The small grid of the concrete runs with a confidence threshold that
    both of its candidates reach. *)
Definition ex_low_conv : BBoxConverter :=
  mkBBoxConverter (1 / 5) (1 / 2) [1; 1] 1 1.

(** The score arrays of two runs that differ in the confidence threshold
    only: both derive from the same scores, they have the same length, and
    they agree on every candidate that reaches the higher threshold
    [conf']. *)
Definition in_step (scores : list R) (conf' : R) (cls_max cls_max' : list R)
  : Prop :=
  marked scores cls_max /\ marked scores cls_max' /\
  length cls_max = length cls_max' /\
  forall j, conf' <= nth j scores 0 -> nth j cls_max 0 = nth j cls_max' 0.

(** The converter with another confidence threshold. *)
Definition with_conf (self : BBoxConverter) (conf : R) : BBoxConverter :=
  mkBBoxConverter conf (nms_thresh self) (anchors self) (num_classes self)
                  (num_anchors self).

(** Two batches of two images on the small grid that differ in their
    second image only. *)
Definition ex_batch_grid : Grid := mkGrid 2 1 2 5.
Definition ex_batch_a : list R := ex_data ++ ex_data.
Definition ex_batch_b : list R := ex_data ++ ex_tie_data.

(** ** [lightnet/logger.py] *)

Import String.StringSyntax.
Delimit Scope string_scope with string.

(** [class Loglvl(IntEnum)] *)
Inductive Loglvl : Type := ALL | NONE | DEBUG | WARN | ERROR.

Definition lvl_value (l : Loglvl) : Z :=
  match l with
  | ALL => (-1)%Z
  | NONE => 999%Z
  | DEBUG => 0%Z
  | WARN => 1%Z
  | ERROR => 2%Z
  end.

(** [class ColorCode(Enum)] *)
Inductive ColorCode : Type := RESET | BOLD | RED | GREEN | YELLOW | BLUE | WHITE.

Definition esc (code : String.string) : String.string :=
  String.String (Ascii.ascii_of_nat 27) code.

Definition color_value (c : ColorCode) : String.string :=
  match c with
  | RESET => esc "[00m"%string
  | BOLD => esc "[01m"%string
  | RED => esc "[31m"%string
  | GREEN => esc "[32m"%string
  | YELLOW => esc "[33m"%string
  | BLUE => esc "[34m"%string
  | WHITE => esc "[37m"%string
  end.

Definition colorize (msg : String.string) (color : ColorCode) : String.string :=
  String.append (color_value BOLD)
    (String.append (color_value color)
       (String.append msg (color_value RESET))).

(** [l[i]] for a Python list and an integer: a negative index counts from
    the end. *)
Definition py_index {A : Type} (l : list A) (i : Z) : option A :=
  if (0 <=? i)%Z then nth_error l (Z.to_nat i)
  else if (- Z.of_nat (length l) <=? i)%Z
       then nth_error l (Z.to_nat (Z.of_nat (length l) + i))
       else None.

Record Logger : Type := mkLogger {
  level : Loglvl;
  color : bool;
  lvl_msg : list String.string;
  lvl_col : list ColorCode
}.

(** [Logger.__init__] *)
Definition Logger_init : Logger :=
  mkLogger WARN true ["[DEBUG]"; "[WARN] "; "[ERROR]"]%string
           [WHITE; YELLOW; RED].

(** How a call of the logger ends: it returns, an index into one of its
    tables fails, or it raises the error it was given. *)
Inductive LogOutcome (E : Type) : Type :=
| LogReturned
| LogIndexError
| LogRaised (e : E).
Arguments LogReturned {E}.
Arguments LogIndexError {E}.
Arguments LogRaised {E} e.

(** [Logger.__call__]: the lines printed and the outcome. *)
Definition Logger_call {E : Type} (self : Logger) (lvl : Loglvl)
    (msg : String.string) (error : option E)
  : list String.string * LogOutcome E :=
  let finish (printed : list String.string) :=
    match error with
    | Some e => (printed, LogRaised e)
    | None => (printed, LogReturned)
    end in
  let print (pre_msg : String.string) :=
    finish [String.append pre_msg (String.append " "%string msg)] in
  if (lvl_value lvl >=? lvl_value (level self))%Z then
    if (lvl_value lvl <? Z.of_nat (length (lvl_msg self)))%Z then
      match py_index (lvl_msg self) (lvl_value lvl) with
      | None => ([], LogIndexError)
      | Some pre_msg =>
          if color self then
            match py_index (lvl_col self) (lvl_value lvl) with
            | None => ([], LogIndexError)
            | Some c => print (colorize pre_msg c)
            end
          else print pre_msg
      end
    else print "       "%string
  else finish [].

(** ** [lightnet/weights.py]

    A weight file is its sequence of bytes.  A [float32] is kept as its 32
    bits (a number below 2^32): the loader and the saver only move the
    bits, they never compute with them.  The byte order is the machine's
    in both directions; it is little-endian here.  The calls of [log] are
    kept as the sequence of their levels. *)

Section WeightsModel.
Local Open Scope Z_scope.

(** *** Items and bytes *)

Fixpoint le_encode (n : nat) (v : Z) : list Z :=
  match n with
  | O => []
  | S n' => v mod 256 :: le_encode n' (v / 256)
  end.

Fixpoint le_decode (bytes : list Z) : Z :=
  match bytes with
  | [] => 0
  | b :: bytes' => b + 256 * le_decode bytes'
  end.

(** Two's complement on [bits] bits. *)
Definition to_unsigned (bits : Z) (v : Z) : Z := v mod 2 ^ bits.

Definition to_signed (bits : Z) (u : Z) : Z :=
  if u <? 2 ^ (bits - 1) then u else u - 2 ^ bits.

Inductive dtype : Type := int32 | int64 | float32.

Definition itemsize (t : dtype) : nat :=
  match t with
  | int64 => 8%nat
  | int32 | float32 => 4%nat
  end.

Definition encode_item (t : dtype) (v : Z) : list Z :=
  match t with
  | int32 => le_encode 4 (to_unsigned 32 v)
  | int64 => le_encode 8 (to_unsigned 64 v)
  | float32 => le_encode 4 v
  end.

Definition decode_item (t : dtype) (bytes : list Z) : Z :=
  match t with
  | int32 => to_signed 32 (le_decode bytes)
  | int64 => to_signed 64 (le_decode bytes)
  | float32 => le_decode bytes
  end.

(** [arr.tofile(fp)] *)
Definition tofile (t : dtype) (arr : list Z) : list Z :=
  flat_map (encode_item t) arr.

(** [np.fromfile(fp, count=count, dtype=t)] at a file position: the items
    read and the rest of the file.  Fewer items are returned when the file
    ends early, and the file is then exhausted. *)
Fixpoint fromfile_count (t : dtype) (count : nat) (fp : list Z)
  : list Z * list Z :=
  match count with
  | O => ([], fp)
  | S count' =>
      if (length fp <? itemsize t)%nat then ([], [])
      else
        let (items, rest) :=
          fromfile_count t count' (skipn (itemsize t) fp) in
        (decode_item t (firstn (itemsize t) fp) :: items, rest)
  end.

(** [np.fromfile(fp, dtype=t)]: all the items that are left. *)
Definition fromfile_all (t : dtype) (fp : list Z) : list Z :=
  fst (fromfile_count t (length fp) fp).

(** *** Errors and layers *)

Inductive WeightError : Type :=
| WIndexError            (* an item of a too short array *)
| WAttributeError        (* [numel] or [cpu] of a missing bias *)
| WSizeMismatch          (* [view_as] on another number of elements *)
| WNotImplementedError.  (* a layer of another type *)

Inductive outcome (A : Type) : Type :=
| Done (a : A)
| Failed (e : WeightError).
Arguments Done {A} a.
Arguments Failed {A} e.

(** A parameter tensor is its elements in storage order; its shape is
    never changed by the loader. *)
Definition Param : Type := list Z.

(** The layers told apart by [load_layer] and [save_layer]; a bias that
    was switched off is [None]. *)
Inductive Layer : Type :=
| Conv2d (bias : option Param) (weight : Param)
| Conv2dBatchLeaky (conv_weight : Param)
                   (bn_bias bn_weight running_mean running_var : Param)
| Linear (bias : option Param) (weight : Param)
| OtherLayer.

(** *** [WeightLoader] *)

Record WeightLoader : Type := mkWeightLoader {
  wl_header : list Z;
  wl_seen : Z;
  wl_buf : list Z;
  wl_start : nat;
  wl_size : nat
}.

Definition ver_num_of (header : list Z) : option Z :=
  match header with
  | h0 :: h1 :: h2 :: _ => Some (h0 * 100 + h1 * 10 + h2)
  | _ => None
  end.

(** [WeightLoader.__init__] on the contents of the file: the levels of the
    log calls made, and the loader or the error. *)
Definition WeightLoader_init (file : list Z)
  : list Loglvl * outcome WeightLoader :=
  let (header, fp1) := fromfile_count int32 3 file in
  match ver_num_of header with
  | None => ([], Failed WIndexError)
  | Some ver_num =>
      let (lvl, seen_type) :=
        if ver_num <=? 19 then (WARN, int32)
        else if ver_num <=? 29 then (WARN, int64)
        else (ERROR, int64) in
      let (seen, fp2) := fromfile_count seen_type 1 fp1 in
      match seen with
      | [] => ([DEBUG; lvl], Failed WIndexError)
      | s :: _ =>
          let buf := fromfile_all float32 fp2 in
          ([DEBUG; lvl],
           Done (mkWeightLoader header s buf 0%nat (length buf)))
      end
  end.

(** [target.copy_(torch.from_numpy(self.buf[self.start:self.start+n])
    .view_as(target))] followed by [self.start += n]. *)
Definition load_param (self : WeightLoader) (n : nat) (target : Param)
  : outcome (WeightLoader * Param) :=
  let slice := firstn n (skipn (wl_start self) (wl_buf self)) in
  if (length slice =? length target)%nat
  then Done (mkWeightLoader (wl_header self) (wl_seen self) (wl_buf self)
                            (wl_start self + n)%nat (wl_size self),
             slice)
  else Failed WSizeMismatch.

(** The loaders return the loader and the layer as they are left, and
    whether the call completed. *)
Definition _load_conv (self : WeightLoader) (bias : option Param)
    (weight : Param) : WeightLoader * Layer * outcome unit :=
  match bias with
  | None => (self, Conv2d bias weight, Failed WAttributeError)
  | Some b =>
      match load_param self (length b) b with
      | Failed e => (self, Conv2d bias weight, Failed e)
      | Done (self1, b') =>
          match load_param self1 (length weight) weight with
          | Failed e => (self1, Conv2d (Some b') weight, Failed e)
          | Done (self2, w') => (self2, Conv2d (Some b') w', Done tt)
          end
      end
  end.

Definition _load_convbatch (self : WeightLoader) (conv_weight : Param)
    (bn_bias bn_weight running_mean running_var : Param)
  : WeightLoader * Layer * outcome unit :=
  let num_b := length bn_bias in
  match load_param self num_b bn_bias with
  | Failed e =>
      (self, Conv2dBatchLeaky conv_weight bn_bias bn_weight running_mean
                              running_var, Failed e)
  | Done (s1, b') =>
  match load_param s1 num_b bn_weight with
  | Failed e =>
      (s1, Conv2dBatchLeaky conv_weight b' bn_weight running_mean
                            running_var, Failed e)
  | Done (s2, w') =>
  match load_param s2 num_b running_mean with
  | Failed e =>
      (s2, Conv2dBatchLeaky conv_weight b' w' running_mean running_var,
       Failed e)
  | Done (s3, m') =>
  match load_param s3 num_b running_var with
  | Failed e =>
      (s3, Conv2dBatchLeaky conv_weight b' w' m' running_var, Failed e)
  | Done (s4, v') =>
  match load_param s4 (length conv_weight) conv_weight with
  | Failed e => (s4, Conv2dBatchLeaky conv_weight b' w' m' v', Failed e)
  | Done (s5, c') => (s5, Conv2dBatchLeaky c' b' w' m' v', Done tt)
  end end end end end.

Definition _load_fc (self : WeightLoader) (bias : option Param)
    (weight : Param) : WeightLoader * Layer * outcome unit :=
  match bias with
  | None => (self, Linear bias weight, Failed WAttributeError)
  | Some b =>
      match load_param self (length b) b with
      | Failed e => (self, Linear bias weight, Failed e)
      | Done (self1, b') =>
          match load_param self1 (length weight) weight with
          | Failed e => (self1, Linear (Some b') weight, Failed e)
          | Done (self2, w') => (self2, Linear (Some b') w', Done tt)
          end
      end
  end.

(** [WeightLoader.load_layer] *)
Definition load_layer (self : WeightLoader) (layer : Layer)
  : WeightLoader * Layer * outcome unit :=
  match layer with
  | Conv2d bias weight => _load_conv self bias weight
  | Conv2dBatchLeaky c b w m v => _load_convbatch self c b w m v
  | Linear bias weight => _load_fc self bias weight
  | OtherLayer => (self, layer, Failed WNotImplementedError)
  end.

(** *** [WeightSaver] *)

Record WeightSaver : Type := mkWeightSaver {
  ws_weights : list Param;
  ws_header : list Z;
  ws_seen : Z;
  ws_seen_type : dtype
}.

(** Arithmetic on [numpy.int32] scalars wraps around. *)
Definition wrap32 (v : Z) : Z := to_signed 32 (to_unsigned 32 v).

(** Line 96: the items of [self.header] are [numpy.int32] scalars, and so
    are the products and the sums. *)
Definition ver_num_int32 (header : list Z) : option Z :=
  match header with
  | h0 :: h1 :: h2 :: _ =>
      Some (wrap32 (wrap32 (wrap32 (h0 * 100) + wrap32 (h1 * 10)) + h2))
  | _ => None
  end.

(** [WeightSaver.__init__].  The header and [seen] are taken to fit their
    types. *)
Definition WeightSaver_init (header : list Z) (seen : Z)
  : list Loglvl * outcome WeightSaver :=
  match ver_num_int32 header with
  | None => ([], Failed WIndexError)
  | Some ver_num =>
      if ver_num <=? 19 then ([], Done (mkWeightSaver [] header seen int32))
      else if ver_num <=? 29
           then ([], Done (mkWeightSaver [] header seen int64))
           else ([ERROR], Done (mkWeightSaver [] header seen int64))
  end.

Definition append_weights (self : WeightSaver) (arrs : list Param)
  : WeightSaver :=
  mkWeightSaver (ws_weights self ++ arrs) (ws_header self) (ws_seen self)
                (ws_seen_type self).

(** [WeightSaver.save_layer] with [_save_conv], [_save_convbatch] and
    [_save_fc]: the saver as it is left and whether the call completed. *)
Definition save_layer (self : WeightSaver) (layer : Layer)
  : WeightSaver * outcome unit :=
  match layer with
  | Conv2d (Some bias) weight => (append_weights self [bias; weight], Done tt)
  | Conv2d None _ => (self, Failed WAttributeError)
  | Conv2dBatchLeaky c b w m v =>
      (append_weights self [b; w; m; v; c], Done tt)
  | Linear (Some bias) weight => (append_weights self [bias; weight], Done tt)
  | Linear None _ => (self, Failed WAttributeError)
  | OtherLayer => (self, Failed WNotImplementedError)
  end.

(** [WeightSaver.write_file]: the bytes written. *)
Definition write_file (self : WeightSaver) : list Loglvl * list Z :=
  ([DEBUG; DEBUG],
   tofile int32 (ws_header self)
   ++ tofile (ws_seen_type self) [ws_seen self]
   ++ flat_map (tofile float32) (ws_weights self)).

(** *** Saving and loading a network, layer by layer *)

Fixpoint save_layers (self : WeightSaver) (layers : list Layer)
  : WeightSaver * outcome unit :=
  match layers with
  | [] => (self, Done tt)
  | layer :: layers' =>
      match save_layer self layer with
      | (self', Done _) => save_layers self' layers'
      | (self', Failed e) => (self', Failed e)
      end
  end.

Fixpoint load_layers (self : WeightLoader) (layers : list Layer)
  : WeightLoader * list Layer * outcome unit :=
  match layers with
  | [] => (self, [], Done tt)
  | layer :: layers' =>
      match load_layer self layer with
      | (self', layer', Done _) =>
          match load_layers self' layers' with
          | (self'', loaded, r) => (self'', layer' :: loaded, r)
          end
      | (self', layer', Failed e) => (self', layer' :: layers', Failed e)
      end
  end.

(** *** What the statements below speak of *)

(** The parameters of a layer in the order of the file. *)
Definition layer_params (layer : Layer) : list Param :=
  match layer with
  | Conv2d (Some bias) weight => [bias; weight]
  | Conv2d None weight => [weight]
  | Conv2dBatchLeaky c b w m v => [b; w; m; v; c]
  | Linear (Some bias) weight => [bias; weight]
  | Linear None weight => [weight]
  | OtherLayer => []
  end.

Definition layer_numel (layer : Layer) : nat :=
  length (concat (layer_params layer)).

(** A layer the loader and the saver handle: of a known type, with its
    bias, and with batch-norm tensors of one size. *)
Definition supported (layer : Layer) : Prop :=
  match layer with
  | Conv2d (Some _) _ | Linear (Some _) _ => True
  | Conv2dBatchLeaky _ b w m v =>
      length w = length b /\ length m = length b /\ length v = length b
  | _ => False
  end.

(** Two layers of the same type whose tensors have the same sizes. *)
Definition same_shape (l1 l2 : Layer) : Prop :=
  match l1, l2 with
  | Conv2d (Some b1) w1, Conv2d (Some b2) w2
  | Linear (Some b1) w1, Linear (Some b2) w2 =>
      length b1 = length b2 /\ length w1 = length w2
  | Conv2dBatchLeaky c1 b1 w1 m1 v1, Conv2dBatchLeaky c2 b2 w2 m2 v2 =>
      length c1 = length c2 /\ length b1 = length b2 /\
      length w1 = length w2 /\ length m1 = length m2 /\
      length v1 = length v2
  | _, _ => False
  end.

(** Every element is the bit pattern of a [float32]. *)
Definition is_word32 (w : Z) : Prop := 0 <= w < 2 ^ 32.

Definition float32_layer (layer : Layer) : Prop :=
  Forall (Forall is_word32) (layer_params layer).

Definition fits (t : dtype) (v : Z) : Prop :=
  match t with
  | int32 => - 2 ^ 31 <= v < 2 ^ 31
  | int64 => - 2 ^ 63 <= v < 2 ^ 63
  | float32 => 0 <= v < 2 ^ 32
  end.

(** The type of [seen] in a file of a given version. *)
Definition seen_type_of (ver_num : Z) : dtype :=
  if ver_num <=? 19 then int32 else int64.

(** The loader after [n] more elements were consumed. *)
Definition advance (self : WeightLoader) (n : nat) : WeightLoader :=
  mkWeightLoader (wl_header self) (wl_seen self) (wl_buf self)
                 (wl_start self + n)%nat (wl_size self).

End WeightsModel.

Arguments Done {A} a.
Arguments Failed {A} e.

(** * Lemmas and theorems *)

(** ** Boolean comparisons *)

Lemma Rltb_true x y : Rltb x y = true <-> x < y.
Proof. unfold Rltb; destruct (Rlt_dec x y); split; intros; try easy. Qed.

Lemma Rltb_false x y : Rltb x y = false <-> y <= x.
Proof.
  unfold Rltb; destruct (Rlt_dec x y); split; intros; try easy; lra.
Qed.

Lemma Rleb_true x y : Rleb x y = true <-> x <= y.
Proof. unfold Rleb; destruct (Rle_dec x y); split; intros; try easy. Qed.

Lemma Rleb_false x y : Rleb x y = false <-> y < x.
Proof.
  unfold Rleb; destruct (Rle_dec x y); split; intros; try easy; lra.
Qed.

Lemma Reqb_true x y : Reqb x y = true <-> x = y.
Proof. unfold Reqb; destruct (Req_dec_T x y); split; intros; try easy. Qed.

Lemma Reqb_false x y : Reqb x y = false <-> x <> y.
Proof. unfold Reqb; destruct (Req_dec_T x y); split; intros; try easy. Qed.

(** ** Properties of [bbox_iou] *)



Lemma bbox_iou_disjoint (a b : Box) :
  inter_w a b <= 0 \/ inter_h a b <= 0 -> bbox_iou a b = Ok 0.
Proof.
  intros H. unfold bbox_iou; cbv zeta.
  fold (inter_w a b) (inter_h a b).
  destruct H as [H | H].
  - apply Rleb_true in H. rewrite H. reflexivity.
  - apply Rleb_true in H. rewrite H, orb_true_r. reflexivity.
Qed.




(** Division never fails inside [bbox_iou] when no size is negative. *)
Lemma bbox_iou_total (a b : Box) :
  0 <= bw a -> 0 <= bh a -> 0 <= bw b -> 0 <= bh b ->
  exists v, bbox_iou a b = Ok v /\ 0 <= v <= 1.
Proof.
  intros Hwa Hha Hwb Hhb. unfold bbox_iou; cbv zeta.
  fold (inter_w a b) (inter_h a b).
  destruct (Rleb (inter_w a b) 0) eqn:Ew.
  { exists 0. split; [reflexivity | lra]. }
  destruct (Rleb (inter_h a b) 0) eqn:Eh.
  { exists 0. split; [reflexivity | lra]. }
  apply Rleb_false in Ew. apply Rleb_false in Eh. cbn [orb].
  assert (Hiw : inter_w a b <= bw a /\ inter_w a b <= bw b).
  { unfold inter_w.
    pose proof (Rmax_l (xc a + bw a / 2) (xc b + bw b / 2)).
    pose proof (Rmax_r (xc a + bw a / 2) (xc b + bw b / 2)).
    pose proof (Rmin_l (xc a - bw a / 2) (xc b - bw b / 2)).
    pose proof (Rmin_r (xc a - bw a / 2) (xc b - bw b / 2)).
    split; lra. }
  assert (Hih : inter_h a b <= bh a /\ inter_h a b <= bh b).
  { unfold inter_h.
    pose proof (Rmax_l (yc a + bh a / 2) (yc b + bh b / 2)).
    pose proof (Rmax_r (yc a + bh a / 2) (yc b + bh b / 2)).
    pose proof (Rmin_l (yc a - bh a / 2) (yc b - bh b / 2)).
    pose proof (Rmin_r (yc a - bh a / 2) (yc b - bh b / 2)).
    split; lra. }
  destruct Hiw as [Hiwa Hiwb]. destruct Hih as [Hiha Hihb].
  set (iw := inter_w a b) in *. set (ih := inter_h a b) in *.
  assert (Hi : 0 < iw * ih) by (apply Rmult_lt_0_compat; assumption).
  assert (Ha : iw * ih <= bw a * bh a) by (apply Rmult_le_compat; lra).
  assert (Hb : iw * ih <= bw b * bh b) by (apply Rmult_le_compat; lra).
  unfold pydiv.
  destruct (Reqb _ 0) eqn:E; [apply Reqb_true in E; lra |].
  eexists. split; [reflexivity |].
  assert (Hu : 0 < bw a * bh a + bw b * bh b - iw * ih) by lra.
  split.
  - apply Rmult_le_pos; [lra |]. left. apply Rinv_0_lt_compat. exact Hu.
  - apply Rmult_le_reg_r with (bw a * bh a + bw b * bh b - iw * ih); [exact Hu|].
    unfold Rdiv. rewrite Rmult_assoc, Rinv_l by lra. lra.
Qed.

(** Deciding the comparisons of a run on concrete numbers. *)
Ltac decide_cmp :=
  repeat match goal with
    | |- context [Rltb ?a ?b] =>
        first [ rewrite (proj2 (Rltb_true a b)) by lra
              | rewrite (proj2 (Rltb_false a b)) by lra ]
    | |- context [Rleb ?a ?b] =>
        first [ rewrite (proj2 (Rleb_true a b)) by lra
              | rewrite (proj2 (Rleb_false a b)) by lra ]
    | |- context [Reqb ?a ?b] =>
        first [ rewrite (proj2 (Reqb_true a b)) by lra
              | rewrite (proj2 (Reqb_false a b)) by lra ]
    end.

(** ** The coordinate mapper *)

Lemma bind_Ok {A B : Type} (m : result A) (f : A -> result B) (a : A) :
  m = Ok a -> bind m f = f a.
Proof. intros ->. reflexivity. Qed.

Lemma pydiv_Ok (x y : R) : y <> 0 -> pydiv x y = Ok (x / y).
Proof.
  intros H. unfold pydiv. apply Reqb_false in H. rewrite H. reflexivity.
Qed.

















(** ** Index arithmetic of the view [(batch, A, k, h*w)] *)

Lemma flat_index_cell (A k hw b a ch cell : nat) :
  (cell < hw)%nat -> cell_of hw (flat_index A k hw b a ch cell) = cell.
Proof.
  intros H. unfold cell_of, flat_index.
  rewrite Nat.add_comm, Nat.Div0.mod_add. apply Nat.mod_small. exact H.
Qed.

Lemma flat_index_div (A k hw b a ch cell : nat) :
  (cell < hw)%nat ->
  (flat_index A k hw b a ch cell / hw = (b * A + a) * k + ch)%nat.
Proof.
  intros H. unfold flat_index.
  rewrite Nat.div_add_l by lia. rewrite Nat.div_small by exact H. lia.
Qed.

Lemma flat_index_chan (A k hw b a ch cell : nat) :
  (cell < hw)%nat -> (ch < k)%nat ->
  chan_of k hw (flat_index A k hw b a ch cell) = ch.
Proof.
  intros H Hc. unfold chan_of. rewrite flat_index_div by exact H.
  rewrite Nat.add_comm, Nat.Div0.mod_add. apply Nat.mod_small. exact Hc.
Qed.

Lemma flat_index_anchor (A k hw b a ch cell : nat) :
  (cell < hw)%nat -> (ch < k)%nat -> (a < A)%nat ->
  anchor_of A k hw (flat_index A k hw b a ch cell) = a.
Proof.
  intros H Hc Ha. unfold anchor_of.
  rewrite <- Nat.Div0.div_div, flat_index_div by exact H.
  rewrite Nat.div_add_l by lia. rewrite (Nat.div_small ch k) by exact Hc.
  rewrite Nat.add_0_r, Nat.add_comm, Nat.Div0.mod_add.
  apply Nat.mod_small. exact Ha.
Qed.

Lemma flat_index_bound (batch A k hw b a ch cell : nat) :
  (b < batch)%nat -> (a < A)%nat -> (ch < k)%nat -> (cell < hw)%nat ->
  (flat_index A k hw b a ch cell < batch * A * k * hw)%nat.
Proof.
  intros Hb Ha Hc Hcell. unfold flat_index.
  assert (H1 : (b * A + a + 1 <= batch * A)%nat) by nia.
  assert (H2 : ((b * A + a) * k + ch + 1 <= batch * A * k)%nat) by nia.
  nia.
Qed.

(** ** [mapi] *)

Lemma mapi_from_length {A B : Type} (f : nat -> A -> B) (l : list A) (i : nat) :
  length (mapi_from f i l) = length l.
Proof.
  revert i. induction l as [| x l IH]; intros i; cbn; [reflexivity |].
  rewrite IH. reflexivity.
Qed.

Lemma mapi_length {A B : Type} (f : nat -> A -> B) (l : list A) :
  length (mapi f l) = length l.
Proof. apply mapi_from_length. Qed.

Lemma mapi_from_nth {A B : Type} (f : nat -> A -> B) (l : list A)
    (i n : nat) (da : A) (db : B) :
  (n < length l)%nat ->
  nth n (mapi_from f i l) db = f (i + n)%nat (nth n l da).
Proof.
  revert i n. induction l as [| x l IH]; intros i n H; cbn in H; [lia |].
  destruct n as [| n]; cbn.
  - rewrite Nat.add_0_r. reflexivity.
  - rewrite IH by lia. f_equal. lia.
Qed.

Lemma mapi_nth {A B : Type} (f : nat -> A -> B) (l : list A)
    (n : nat) (da : A) (db : B) :
  (n < length l)%nat -> nth n (mapi f l) db = f n (nth n l da).
Proof. intros H. unfold mapi. rewrite (mapi_from_nth f l 0 n da db H). reflexivity. Qed.

Lemma mapi_from_mapi_from {A B C : Type} (f : nat -> B -> C)
    (h : nat -> A -> B) (l : list A) (i : nat) :
  mapi_from f i (mapi_from h i l) = mapi_from (fun j v => f j (h j v)) i l.
Proof.
  revert i. induction l as [| x l IH]; intros i; cbn; [reflexivity |].
  rewrite IH. reflexivity.
Qed.

Lemma mapi_from_ext {A B : Type} (f h : nat -> A -> B) (l : list A) (i : nat) :
  (forall j v, f j v = h j v) -> mapi_from f i l = mapi_from h i l.
Proof.
  intros H. revert i. induction l as [| x l IH]; intros i; cbn; [reflexivity |].
  rewrite H, IH. reflexivity.
Qed.

(** ** The linear grids *)

Lemma linspace0_nth (n c : nat) :
  (c < n)%nat -> nth c (linspace0 n) 0 = INR c.
Proof.
  intros H. unfold linspace0.
  change 0 with (INR 0). rewrite map_nth, seq_nth by exact H. reflexivity.
Qed.

Lemma linspace0_length (n : nat) : length (linspace0 n) = n.
Proof. unfold linspace0. rewrite length_map, length_seq. reflexivity. Qed.

Lemma make_lin_x_nth (h w r c : nat) :
  (r < h)%nat -> (c < w)%nat -> nth (r * w + c) (make_lin_x h w) 0 = INR c.
Proof.
  unfold make_lin_x. revert r. induction h as [| h IH]; intros r Hr Hc; [lia |].
  cbn [repeat concat].
  destruct r as [| r].
  - cbn [Nat.mul Nat.add]. rewrite app_nth1 by (rewrite linspace0_length; exact Hc).
    apply linspace0_nth. exact Hc.
  - rewrite app_nth2 by (rewrite linspace0_length; lia).
    rewrite linspace0_length.
    replace (S r * w + c - w)%nat with (r * w + c)%nat by lia.
    apply IH; lia.
Qed.

Lemma flat_map_repeat_nth (w : nat) (l : list R) (r c : nat) :
  (r < length l)%nat -> (c < w)%nat ->
  nth (r * w + c) (flat_map (fun y => repeat y w) l) 0 = nth r l 0.
Proof.
  revert r. induction l as [| y l IH]; intros r Hr Hc; cbn in Hr; [lia |].
  cbn [flat_map].
  destruct r as [| r].
  - cbn [Nat.mul Nat.add nth].
    rewrite app_nth1 by (rewrite repeat_length; exact Hc).
    apply nth_repeat_lt. exact Hc.
  - rewrite app_nth2 by (rewrite repeat_length; lia).
    rewrite repeat_length.
    replace (S r * w + c - w)%nat with (r * w + c)%nat by lia.
    cbn [nth]. apply IH; lia.
Qed.

Lemma make_lin_y_nth (h w r c : nat) :
  (r < h)%nat -> (c < w)%nat -> nth (r * w + c) (make_lin_y h w) 0 = INR r.
Proof.
  intros Hr Hc. unfold make_lin_y.
  rewrite flat_map_repeat_nth by (rewrite ?linspace0_length; assumption).
  apply linspace0_nth. exact Hr.
Qed.

(** ** The decode stage *)

Lemma batched_data (t : Tensor) : data (batched t) = data t.
Proof. unfold batched. destruct (_ =? _)%nat; reflexivity. Qed.

Lemma batched_numel (t : Tensor) : numel (batched t) = numel t.
Proof.
  unfold batched. destruct (_ =? _)%nat; [| reflexivity].
  unfold numel, unsqueeze0. cbn. lia.
Qed.

Lemma decode_ops_compose (self : BBoxConverter) (g : Grid) (j : nat) (v : R) :
  let A := num_anchors self in
  let hw := (g_h g * g_w g)%nat in
  let k := g_k g in
  let c := chan_of k hw j in
  let a := anchor_of A k hw j in
  let cell := cell_of hw j in
  (if (c =? 4)%nat then sigmoid else fun x => x)
    ((if (c =? 3)%nat
      then fun x => exp x * nth a (anchor_h self) 0 / INR (g_h g)
      else fun x => x)
       ((if (c =? 2)%nat
         then fun x => exp x * nth a (anchor_w self) 0 / INR (g_w g)
         else fun x => x)
          ((if (c =? 1)%nat
            then fun x =>
                   (sigmoid x + nth cell (make_lin_y (g_h g) (g_w g)) 0)
                   / INR (g_h g)
            else fun x => x)
             ((if (c =? 0)%nat
               then fun x =>
                      (sigmoid x + nth cell (make_lin_x (g_h g) (g_w g)) 0)
                      / INR (g_w g)
               else fun x => x) v))))
  = decode_elem self g j v.
Proof.
  intros A hw k c a cell. unfold decode_elem.
  fold A hw k. fold c a cell.
  destruct c as [| [| [| [| [| c]]]]]; reflexivity.
Qed.

Lemma decode_stage_success (self : BBoxConverter) (t : Tensor)
    (batch h w k : nat) :
  size (batched t) 0 = Ok batch ->
  size (batched t) 2 = Ok h ->
  size (batched t) 3 = Ok w ->
  length (anchor_w self) = num_anchors self ->
  length (anchor_h self) = num_anchors self ->
  view_infer (batched t) batch (num_anchors self) (h * w) = Ok k ->
  (5 <= k)%nat ->
  decode_stage self t
  = (Ok (mkGrid batch h w k),
     mkTensor (dims (batched t))
              (mapi (decode_elem self (mkGrid batch h w k)) (data t))
              (is_cuda t)).
Proof.
  intros Hb Hh Hw Haw Hah Hv Hk.
  unfold decode_stage, bindM, lift, ret.
  assert (Hst :
    (if (length (dims t) =? 3)%nat then modify unsqueeze0 else ret tt) t
    = (Ok tt, batched t)).
  { unfold batched, modify, ret. destruct (_ =? _)%nat; reflexivity. }
  unfold ret in Hst. rewrite Hst, Hb, Hh, Hw.
  unfold view_1n1. fold (anchor_w self) (anchor_h self).
  rewrite Haw, Hah, Nat.eqb_refl, Hv.
  unfold inplace_channel, modify.
  replace (0 <? k)%nat with true by (symmetry; apply Nat.ltb_lt; lia).
  replace (1 <? k)%nat with true by (symmetry; apply Nat.ltb_lt; lia).
  replace (2 <? k)%nat with true by (symmetry; apply Nat.ltb_lt; lia).
  replace (3 <? k)%nat with true by (symmetry; apply Nat.ltb_lt; lia).
  replace (4 <? k)%nat with true by (symmetry; apply Nat.ltb_lt; lia).
  cbn [dims data is_cuda]. f_equal.
  replace (is_cuda (batched t)) with (is_cuda t)
    by (unfold batched; destruct (_ =? _)%nat; reflexivity).
  f_equal.
  rewrite batched_data. unfold mapi.
  rewrite !mapi_from_mapi_from.
  apply mapi_from_ext. intros j v.
  rewrite <- (decode_ops_compose self (mkGrid batch h w k) j v).
  cbn [g_h g_w g_k].
  destruct (chan_of k (h * w) j) as [| [| [| [| [| c]]]]]; reflexivity.
Qed.

Lemma decode_stage_inv (self : BBoxConverter) (t : Tensor) (g : Grid)
    (t' : Tensor) :
  decode_stage self t = (Ok g, t') ->
  size (batched t) 0 = Ok (g_batch g) /\
  size (batched t) 2 = Ok (g_h g) /\
  size (batched t) 3 = Ok (g_w g) /\
  length (anchor_w self) = num_anchors self /\
  length (anchor_h self) = num_anchors self /\
  view_infer (batched t) (g_batch g) (num_anchors self) (g_h g * g_w g)
  = Ok (g_k g) /\
  (5 <= g_k g)%nat /\
  t' = mkTensor (dims (batched t)) (mapi (decode_elem self g) (data t))
                (is_cuda t).
Proof.
  intros H. pose proof H as H0.
  unfold decode_stage, bindM, lift, ret in H.
  assert (Hst :
    (if (length (dims t) =? 3)%nat then modify unsqueeze0 else ret tt) t
    = (Ok tt, batched t)).
  { unfold batched, modify, ret. destruct (_ =? _)%nat; reflexivity. }
  unfold ret in Hst. rewrite Hst in H.
  destruct (size (batched t) 0) as [batch | e] eqn:Hb; [| discriminate].
  destruct (size (batched t) 2) as [h | e] eqn:Hh; [| discriminate].
  destruct (size (batched t) 3) as [w | e] eqn:Hw; [| discriminate].
  unfold view_1n1 in H. fold (anchor_w self) (anchor_h self) in H.
  destruct (length (anchor_w self) =? num_anchors self)%nat eqn:Haw;
    [| discriminate].
  destruct (length (anchor_h self) =? num_anchors self)%nat eqn:Hah;
    [| discriminate].
  apply Nat.eqb_eq in Haw. apply Nat.eqb_eq in Hah.
  destruct (view_infer (batched t) batch (num_anchors self) (h * w))
    as [k | e] eqn:Hv; [| discriminate].
  unfold inplace_channel, modify, raise in H.
  destruct (0 <? k)%nat; [| discriminate].
  destruct (1 <? k)%nat; [| discriminate].
  destruct (2 <? k)%nat; [| discriminate].
  destruct (3 <? k)%nat; [| discriminate].
  destruct (4 <? k)%nat eqn:E4; [| discriminate].
  apply Nat.ltb_lt in E4.
  rewrite (decode_stage_success self t batch h w k) in H0
    by (assumption || lia).
  injection H0 as Hg Ht. subst g. cbn [g_batch g_h g_w g_k].
  repeat split; try assumption; try lia. symmetry. exact Ht.
Qed.

(** A successful [view] fixes the number of elements. *)
Lemma view_infer_numel (t : Tensor) (batch A hw k : nat) :
  view_infer t batch A hw = Ok k ->
  (batch * A * hw <> 0)%nat /\ numel t = (batch * A * k * hw)%nat.
Proof.
  unfold view_infer. intros H.
  destruct (batch * A * hw =? 0)%nat eqn:E0; [discriminate |].
  apply Nat.eqb_neq in E0.
  destruct (numel t mod (batch * A * hw) =? 0)%nat eqn:Em; [| discriminate].
  apply Nat.eqb_eq in Em. injection H as <-.
  split; [exact E0 |].
  pose proof (Nat.div_mod_eq (numel t) (batch * A * hw)) as Hd.
  rewrite Em in Hd. nia.
Qed.

(** The decoded value at a position of the view. *)
Lemma decode_stage_get4 (self : BBoxConverter) (t : Tensor) (g : Grid)
    (t' : Tensor) (b a ch cell : nat) :
  wf_tensor t ->
  decode_stage self t = (Ok g, t') ->
  (b < g_batch g)%nat -> (a < num_anchors self)%nat ->
  (ch < g_k g)%nat -> (cell < g_h g * g_w g)%nat ->
  get4 (num_anchors self) (g_k g) (g_h g * g_w g) (data t') b a ch cell
  = decode_elem self g
      (flat_index (num_anchors self) (g_k g) (g_h g * g_w g) b a ch cell)
      (get4 (num_anchors self) (g_k g) (g_h g * g_w g) (data t) b a ch cell).
Proof.
  intros Hwf H Hb Ha Hch Hcell.
  apply decode_stage_inv in H.
  destruct H as (_ & _ & _ & _ & _ & Hv & _ & ->).
  apply view_infer_numel in Hv. destruct Hv as [_ Hn].
  rewrite batched_numel in Hn.
  unfold get4. cbn [data]. apply mapi_nth.
  unfold wf_tensor in Hwf. rewrite Hwf, Hn.
  apply flat_index_bound; assumption.
Qed.

(** ** [sigmoid] and [softmax] *)

Lemma sigmoid_range (x : R) : 0 < sigmoid x < 1.
Proof.
  unfold sigmoid. pose proof (exp_pos (- x)) as He.
  split.
  - apply Rdiv_lt_0_compat; lra.
  - apply Rmult_lt_reg_r with (1 + exp (- x)); [lra |].
    unfold Rdiv. rewrite Rmult_assoc, Rinv_l by lra. lra.
Qed.

Lemma sigmoid_0 : sigmoid 0 = 1 / 2.
Proof. unfold sigmoid. rewrite Ropp_0, exp_0. lra. Qed.

Lemma sigmoid_large (eps : R) :
  0 < eps -> forall x, 1 / eps <= x -> 1 - eps < sigmoid x.
Proof.
  intros Heps x Hx.
  assert (Hinv : 0 < 1 / eps) by (apply Rdiv_lt_0_compat; lra).
  assert (Hx0 : 0 < x) by lra.
  pose proof (exp_ineq1_le x) as He.
  pose proof (exp_pos x) as Hp.
  unfold sigmoid. rewrite exp_Ropp.
  assert (Hs : / exp x < eps).
  { apply Rmult_lt_reg_r with (exp x); [exact Hp |].
    rewrite Rinv_l by lra.
    assert (1 <= eps * x).
    { apply Rmult_le_compat_l with (r := eps) in Hx; [| lra].
      replace (eps * (1 / eps)) with 1 in Hx by (field; lra). exact Hx. }
    nra. }
  assert (Hi : 0 < / exp x) by (apply Rinv_0_lt_compat; exact Hp).
  apply Rmult_lt_reg_r with (1 + / exp x); [lra |].
  unfold Rdiv. rewrite Rmult_assoc, Rinv_l by lra. nra.
Qed.

Lemma Rmax_list_cons (x y : R) (l : list R) :
  Rmax_list (x :: y :: l) = Rmax x (Rmax_list (y :: l)).
Proof. reflexivity. Qed.

Lemma Rmax_list_in (l : list R) : l <> [] -> In (Rmax_list l) l.
Proof.
  induction l as [| x l IH]; intros H; [congruence |].
  destruct l as [| y l]; [left; reflexivity |].
  rewrite Rmax_list_cons.
  destruct (Rmax_case x (Rmax_list (y :: l)) (fun m => m = x \/ m = Rmax_list (y :: l)))
    as [E | E]; try (left; reflexivity); try (right; reflexivity).
  - rewrite E. left. reflexivity.
  - rewrite E. right. apply IH. discriminate.
Qed.

Lemma Rmax_list_ge (l : list R) (x : R) : In x l -> x <= Rmax_list l.
Proof.
  induction l as [| y l IH]; intros H; [contradiction |].
  destruct l as [| z l].
  - destruct H as [-> | []]. cbn. lra.
  - rewrite Rmax_list_cons. destruct H as [-> | H].
    + apply Rmax_l.
    + eapply Rle_trans; [apply IH; exact H | apply Rmax_r].
Qed.

Lemma Rsum_pos (l : list R) :
  l <> [] -> (forall x, In x l -> 0 < x) -> 0 < Rsum l.
Proof.
  induction l as [| x l IH]; intros Hne Hp; [congruence |].
  cbn [Rsum fold_right]. fold (Rsum l).
  assert (Hx : 0 < x) by (apply Hp; left; reflexivity).
  destruct l as [| y l]; [cbn; lra |].
  assert (0 < Rsum (y :: l)); [| lra].
  apply IH; [discriminate |]. intros z Hz. apply Hp. right. exact Hz.
Qed.

Lemma Rsum_ge_in (l : list R) (x : R) :
  (forall y, In y l -> 0 <= y) -> In x l -> x <= Rsum l.
Proof.
  induction l as [| y l IH]; intros Hp Hin; [contradiction |].
  cbn [Rsum fold_right]. fold (Rsum l).
  assert (Hl : 0 <= Rsum l).
  { clear IH Hin. induction l as [| z l IHl]; [cbn; lra |].
    cbn [Rsum fold_right]. fold (Rsum l).
    assert (0 <= z) by (apply Hp; right; left; reflexivity).
    assert (0 <= Rsum l); [| lra].
    apply IHl. intros w [-> | Hw]; apply Hp; [left | right; right]; auto. }
  destruct Hin as [-> | Hin].
  - lra.
  - assert (0 <= y) by (apply Hp; left; reflexivity).
    assert (x <= Rsum l); [| lra].
    apply IH; [| exact Hin]. intros w Hw. apply Hp. right. exact Hw.
Qed.

(** Every softmax probability lies in (0,1]. *)
Lemma softmax_range (l : list R) (p : R) :
  In p (softmax l) -> 0 < p <= 1.
Proof.
  unfold softmax. set (m := Rmax_list l).
  set (e := map (fun x => exp (x - m)) l).
  intros Hin. apply in_map_iff in Hin. destruct Hin as (y & <- & Hy).
  assert (Hpos : forall z, In z e -> 0 < z).
  { intros z Hz. apply in_map_iff in Hz. destruct Hz as (u & <- & _).
    apply exp_pos. }
  assert (Hne : e <> []) by (intros E; rewrite E in Hy; contradiction).
  pose proof (Rsum_pos e Hne Hpos) as Hs.
  assert (Hle : y <= Rsum e).
  { apply Rsum_ge_in; [| exact Hy]. intros z Hz. left. apply Hpos. exact Hz. }
  split.
  - apply Rdiv_lt_0_compat; [apply Hpos; exact Hy | exact Hs].
  - apply Rmult_le_reg_r with (Rsum e); [exact Hs |].
    unfold Rdiv. rewrite Rmult_assoc, Rinv_l by lra. lra.
Qed.

Lemma softmax_length (l : list R) : length (softmax l) = length l.
Proof. unfold softmax. rewrite !length_map. reflexivity. Qed.

Lemma softmax_max_range (l : list R) :
  l <> [] -> 0 < Rmax_list (softmax l) <= 1.
Proof.
  intros H. apply softmax_range with (l := l). apply Rmax_list_in.
  intros E. apply (f_equal (@length R)) in E. rewrite softmax_length in E.
  destruct l; [congruence | discriminate].
Qed.

(** ** The decoded candidates *)

Lemma split_index (hw a cell : nat) :
  (cell < hw)%nat ->
  ((a * hw + cell) / hw = a)%nat /\ ((a * hw + cell) mod hw = cell)%nat.
Proof.
  intros H. split.
  - rewrite Nat.div_add_l by lia. rewrite Nat.div_small by exact H. lia.
  - rewrite Nat.add_comm, Nat.Div0.mod_add. apply Nat.mod_small. exact H.
Qed.

Lemma decode_elem_chan (self : BBoxConverter) (g : Grid)
    (b a ch cell : nat) (v : R) :
  (a < num_anchors self)%nat -> (ch < g_k g)%nat ->
  (cell < g_h g * g_w g)%nat ->
  decode_elem self g
    (flat_index (num_anchors self) (g_k g) (g_h g * g_w g) b a ch cell) v
  = match ch with
    | 0%nat => (sigmoid v + nth cell (make_lin_x (g_h g) (g_w g)) 0) / INR (g_w g)
    | 1%nat => (sigmoid v + nth cell (make_lin_y (g_h g) (g_w g)) 0) / INR (g_h g)
    | 2%nat => exp v * nth a (anchor_w self) 0 / INR (g_w g)
    | 3%nat => exp v * nth a (anchor_h self) 0 / INR (g_h g)
    | 4%nat => sigmoid v
    | _ => v
    end.
Proof.
  intros Ha Hch Hcell. unfold decode_elem.
  rewrite flat_index_chan, flat_index_anchor, flat_index_cell by assumption.
  reflexivity.
Qed.

(** The class logits are not touched by the decode stage. *)
Lemma decode_stage_class_logits (self : BBoxConverter) (t : Tensor)
    (g : Grid) (t' : Tensor) (b a cell : nat) :
  wf_tensor t ->
  decode_stage self t = (Ok g, t') ->
  (b < g_batch g)%nat -> (a < num_anchors self)%nat ->
  (cell < g_h g * g_w g)%nat ->
  class_logits self g (data t') b a cell
  = class_logits self g (data t) b a cell.
Proof.
  intros Hwf H Hb Ha Hcell. unfold class_logits.
  apply map_ext_in. intros c Hc. apply in_seq in Hc.
  rewrite (decode_stage_get4 self t g t') by (assumption || lia).
  rewrite decode_elem_chan by (assumption || lia).
  reflexivity.
Qed.

Section Decoded.
Variables (self : BBoxConverter) (t : Tensor) (g : Grid) (t' : Tensor).
Hypothesis Hwf : wf_tensor t.
Hypothesis Hdec : decode_stage self t = (Ok g, t').
Variables (b a r c : nat).
Hypothesis Hb : (b < g_batch g)%nat.
Hypothesis Ha : (a < num_anchors self)%nat.
Hypothesis Hr : (r < g_h g)%nat.
Hypothesis Hc : (c < g_w g)%nat.

Let A := num_anchors self.
Let hw := (g_h g * g_w g)%nat.
Let k := g_k g.
Let cell := (r * g_w g + c)%nat.
Let raw (ch : nat) : R := get4 A k hw (data t) b a ch cell.
Let dec (ch : nat) : R := get4 A k hw (data t') b a ch cell.

Lemma cell_in_grid : (cell < hw)%nat.
Proof. unfold cell, hw. nia. Qed.

Lemma decoded_channel (ch : nat) :
  (ch < 5)%nat ->
  dec ch
  = match ch with
    | 0%nat => (sigmoid (raw 0%nat) + INR c) / INR (g_w g)
    | 1%nat => (sigmoid (raw 1%nat) + INR r) / INR (g_h g)
    | 2%nat => exp (raw 2%nat) * nth a (anchor_w self) 0 / INR (g_w g)
    | 3%nat => exp (raw 3%nat) * nth a (anchor_h self) 0 / INR (g_h g)
    | _ => sigmoid (raw 4%nat)
    end.
Proof.
  intros Hch. pose proof cell_in_grid as Hcell.
  pose proof (decode_stage_inv self t g t' Hdec) as (_ & _ & _ & _ & _ & _ & Hk & _).
  unfold dec, raw, A, k, hw.
  rewrite (decode_stage_get4 self t g t') by (assumption || lia).
  rewrite decode_elem_chan by (assumption || lia).
  fold cell.
  destruct ch as [| [| [| [| [| ch]]]]]; try lia; try reflexivity.
  - unfold cell. rewrite make_lin_x_nth by assumption. reflexivity.
  - unfold cell. rewrite make_lin_y_nth by assumption. reflexivity.
Qed.

Lemma decoded_score :
  fst (score_at self g (data t') b (a * hw + cell))
  = if (1 <? num_classes self)%nat
    then Rmax_list (softmax (map (fun c' => raw (5 + c')%nat) (seq 0 (k - 5))))
         * sigmoid (raw 4%nat)
    else sigmoid (raw 4%nat).
Proof.
  pose proof cell_in_grid as Hcell.
  unfold score_at. fold hw A k.
  destruct (split_index hw a cell Hcell) as [-> ->].
  pose proof (decoded_channel 4) as H4. unfold dec in H4.
  rewrite H4 by lia.
  destruct (1 <? num_classes self)%nat; [| reflexivity].
  cbn [fst]. f_equal. f_equal. f_equal.
  apply (decode_stage_class_logits self t g t' b a cell); assumption.
Qed.
End Decoded.

(** The 1x1 grid with one anchor of width and height 1. *)
Lemma decode_unit_grid (conf nms : R) (nc : nat) (raw_obj l : R)
    (cuda : bool) :
  decode_stage (mkBBoxConverter conf nms [1; 1] nc 1)
               (mkTensor [1; 6; 1; 1]%nat [0; 0; 0; 0; raw_obj; l] cuda)
  = (Ok (mkGrid 1 1 1 6),
     mkTensor [1; 6; 1; 1]%nat [1 / 2; 1 / 2; 1; 1; sigmoid raw_obj; l] cuda).
Proof.
  rewrite (decode_stage_success _ _ 1 1 1 6); try reflexivity; try lia.
  f_equal. unfold batched. cbn [dims length Nat.eqb data]. f_equal.
  unfold mapi. cbn [mapi_from]. unfold decode_elem.
  cbn [g_h g_w g_k num_anchors Nat.mul Nat.add].
  unfold chan_of, anchor_of, cell_of, anchor_w, anchor_h.
  cbn [Nat.div Nat.modulo Nat.divmod fst snd Nat.sub Nat.mul Nat.add
       anchors evens odds nth make_lin_x make_lin_y linspace0 seq map
       repeat concat flat_map app INR].
  rewrite sigmoid_0, exp_0.
  repeat (f_equal; try lra).
Qed.

(** C1.  For every grid cell (row [r], column [c]) and anchor [a] the
    decoder produces [center_x = (sigmoid raw_x + c) / W],
    [center_y = (sigmoid raw_y + r) / H],
    [width = exp raw_w * anchor_w[a] / W],
    [height = exp raw_h * anchor_h[a] / H] and
    [objectness = sigmoid raw_obj]; with more than one class the combined
    score is the objectness times the softmax maximum over the class
    logits.  On a 1x1 grid with one anchor of width and height 1 and
    [raw_x = raw_y = raw_w = raw_h = 0] the decoded centre is (1/2, 1/2),
    the size is (1, 1), and the objectness tends to 1 as [raw_obj] grows. *)
Theorem decoder_correct :
  (forall (self : BBoxConverter) (t : Tensor) (g : Grid) (t' : Tensor)
          (b a r c : nat),
      wf_tensor t ->
      decode_stage self t = (Ok g, t') ->
      (b < g_batch g)%nat -> (a < num_anchors self)%nat ->
      (r < g_h g)%nat -> (c < g_w g)%nat ->
      let A := num_anchors self in
      let hw := (g_h g * g_w g)%nat in
      let k := g_k g in
      let cell := (r * g_w g + c)%nat in
      let raw := fun ch => get4 A k hw (data t) b a ch cell in
      let dec := fun ch => get4 A k hw (data t') b a ch cell in
      dec 0%nat = (sigmoid (raw 0%nat) + INR c) / INR (g_w g) /\
      dec 1%nat = (sigmoid (raw 1%nat) + INR r) / INR (g_h g) /\
      dec 2%nat = exp (raw 2%nat) * nth a (anchor_w self) 0 / INR (g_w g) /\
      dec 3%nat = exp (raw 3%nat) * nth a (anchor_h self) 0 / INR (g_h g) /\
      dec 4%nat = sigmoid (raw 4%nat) /\
      fst (score_at self g (data t') b (a * hw + cell))
      = if (1 <? num_classes self)%nat
        then sigmoid (raw 4%nat)
             * Rmax_list (softmax (map (fun c' => raw (5 + c')%nat)
                                       (seq 0 (k - 5))))
        else sigmoid (raw 4%nat)) /\
  (forall (conf nms : R) (nc : nat) (raw_obj l : R) (cuda : bool),
      decode_stage (mkBBoxConverter conf nms [1; 1] nc 1)
                   (mkTensor [1; 6; 1; 1]%nat [0; 0; 0; 0; raw_obj; l] cuda)
      = (Ok (mkGrid 1 1 1 6),
         mkTensor [1; 6; 1; 1]%nat
                  [1 / 2; 1 / 2; 1; 1; sigmoid raw_obj; l] cuda)) /\
  (forall eps : R, 0 < eps ->
      forall raw_obj : R, 1 / eps <= raw_obj ->
        1 - eps < sigmoid raw_obj < 1).
Proof.
  split; [| split].
  - intros self t g t' b a r c Hwf Hdec Hb Ha Hr Hc A hw k cell raw dec.
    pose proof (decoded_channel self t g t' Hwf Hdec b a r c Hb Ha Hr Hc)
      as Hch.
    repeat split.
    + apply (Hch 0%nat). lia.
    + apply (Hch 1%nat). lia.
    + apply (Hch 2%nat). lia.
    + apply (Hch 3%nat). lia.
    + apply (Hch 4%nat). lia.
    + unfold hw, cell.
      rewrite (decoded_score self t g t' Hwf Hdec b a r c Hb Ha Hr Hc).
      destruct (1 <? num_classes self)%nat; [apply Rmult_comm | reflexivity].
  - exact decode_unit_grid.
  - intros eps Heps raw_obj Hraw. split.
    + apply sigmoid_large; assumption.
    + apply sigmoid_range.
Qed.

Lemma decoder_correct_witness :
  get4 1 6 1 [1 / 2; 1 / 2; 1; 1; sigmoid 5; 0] 0 0 0 0
  = (sigmoid (get4 1 6 1 [0; 0; 0; 0; 5; 0] 0 0 0 0) + INR 0) / INR 1 /\
  1 - 1 / 2 < sigmoid 5 < 1.
Proof.
  destruct decoder_correct as (Hgen & Hunit & Hobj).
  split.
  - assert (Hwf : wf_tensor (mkTensor [1; 6; 1; 1]%nat [0; 0; 0; 0; 5; 0] false))
      by reflexivity.
    assert (H0 : (0 < 1)%nat) by lia.
    exact (proj1 (Hgen (mkBBoxConverter (1 / 2) (1 / 2) [1; 1] 1 1)
                       (mkTensor [1; 6; 1; 1]%nat [0; 0; 0; 0; 5; 0] false)
                       (mkGrid 1 1 1 6)
                       (mkTensor [1; 6; 1; 1]%nat
                                 [1 / 2; 1 / 2; 1; 1; sigmoid 5; 0] false)
                       0%nat 0%nat 0%nat 0%nat Hwf
                       (Hunit (1 / 2) (1 / 2) 1%nat 5 0 false) H0 H0 H0 H0)).
  - apply (Hobj (1 / 2)); lra.
Defined.

(** ** The ranking *)

Section Ranking.
Variable s : nat -> R.

Lemma insert_desc_perm (x : nat) (l : list nat) :
  Permutation (x :: l) (insert_desc s x l).
Proof.
  induction l as [| y l IH]; cbn [insert_desc]; [reflexivity |].
  destruct (Rltb (s x) (s y)); [| reflexivity].
  rewrite perm_swap. apply perm_skip. exact IH.
Qed.

Lemma insert_desc_sorted (x : nat) (l : list nat) :
  StronglySorted (before s) l -> StronglySorted (before s) (insert_desc s x l).
Proof.
  induction l as [| y l IH]; intros Hs; cbn [insert_desc].
  - constructor; constructor.
  - inversion Hs as [| y' l' Hl Hy]; subst.
    destruct (Rltb (s x) (s y)) eqn:E.
    + apply Rltb_true in E. constructor; [apply IH; exact Hl |].
      rewrite Forall_forall in *. intros z Hz.
      apply (Permutation_in _ (Permutation_sym (insert_desc_perm x l))) in Hz.
      destruct Hz as [<- | Hz]; [unfold before; lra | apply Hy; exact Hz].
    + apply Rltb_false in E. constructor; [exact Hs |].
      constructor; [exact E |].
      rewrite Forall_forall in *. intros z Hz. unfold before in *.
      specialize (Hy z Hz). lra.
Qed.

Lemma sort_fold_perm (l : list nat) :
  Permutation l (fold_right (insert_desc s) [] l).
Proof.
  induction l as [| x l IH]; cbn [fold_right]; [reflexivity |].
  rewrite <- insert_desc_perm. apply perm_skip. exact IH.
Qed.

Lemma sort_fold_sorted (l : list nat) :
  StronglySorted (before s) (fold_right (insert_desc s) [] l).
Proof.
  induction l as [| x l IH]; cbn [fold_right]; [constructor |].
  apply insert_desc_sorted. exact IH.
Qed.
End Ranking.

Lemma torch_sort_desc_perm (v : list R) :
  Permutation (seq 0 (length v)) (torch_sort_desc v).
Proof. apply sort_fold_perm. Qed.

Lemma torch_sort_desc_sorted (v : list R) :
  StronglySorted (before (fun i => nth i v 0)) (torch_sort_desc v).
Proof. apply sort_fold_sorted. Qed.

Lemma torch_sort_desc_NoDup (v : list R) : NoDup (torch_sort_desc v).
Proof.
  eapply Permutation_NoDup; [apply torch_sort_desc_perm | apply seq_NoDup].
Qed.

Lemma torch_sort_desc_bound (v : list R) (i : nat) :
  In i (torch_sort_desc v) -> (i < length v)%nat.
Proof.
  intros H.
  apply (Permutation_in _ (Permutation_sym (torch_sort_desc_perm v))) in H.
  apply in_seq in H. lia.
Qed.

(** ** Subsequences *)

Lemma subseq_incl {A : Type} (l1 l2 : list A) : subseq l1 l2 -> incl l1 l2.
Proof.
  induction 1 as [l | x l1 l2 _ IH | x l1 l2 _ IH]; intros y Hy.
  - contradiction.
  - right. apply IH. exact Hy.
  - destruct Hy as [<- | Hy]; [left; reflexivity | right; apply IH; exact Hy].
Qed.

Lemma subseq_NoDup {A : Type} (l1 l2 : list A) :
  subseq l1 l2 -> NoDup l2 -> NoDup l1.
Proof.
  induction 1 as [l | x l1 l2 _ IH | x l1 l2 Hs IH]; intros Hn.
  - constructor.
  - inversion Hn; subst. apply IH. assumption.
  - inversion Hn as [| x' l' Hx Hl]; subst. constructor; [| apply IH; exact Hl].
    intros Hin. apply Hx. eapply subseq_incl; eassumption.
Qed.

Lemma subseq_sorted {A : Type} (R0 : A -> A -> Prop) (l1 l2 : list A) :
  subseq l1 l2 -> StronglySorted R0 l2 -> StronglySorted R0 l1.
Proof.
  induction 1 as [l | x l1 l2 _ IH | x l1 l2 Hs IH]; intros Hn.
  - constructor.
  - inversion Hn; subst. apply IH. assumption.
  - inversion Hn as [| x' l' Hl Hx]; subst. constructor; [apply IH; exact Hl |].
    rewrite Forall_forall in *. intros y Hy. apply Hx.
    eapply subseq_incl; eassumption.
Qed.

(** ** The suppression loop and its score array *)

Lemma set_nth_length (i : nat) (v : R) (l : list R) :
  length (set_nth i v l) = length l.
Proof.
  revert i. induction l as [| x l IH]; intros [| i]; cbn; try reflexivity.
  rewrite IH. reflexivity.
Qed.

Lemma set_nth_same (i : nat) (v : R) (l : list R) :
  (i < length l)%nat -> nth i (set_nth i v l) 0 = v.
Proof.
  revert i. induction l as [| x l IH]; intros [| i] H; cbn in *; try lia.
  - reflexivity.
  - apply IH. lia.
Qed.

Lemma set_nth_other (i j : nat) (v : R) (l : list R) :
  i <> j -> nth j (set_nth i v l) 0 = nth j l 0.
Proof.
  revert i j. induction l as [| x l IH]; intros [| i] [| j] H; cbn;
    try reflexivity; try congruence.
  apply IH. congruence.
Qed.

Lemma set_nth_beyond (i : nat) (v : R) (l : list R) :
  (length l <= i)%nat -> set_nth i v l = l.
Proof.
  revert i. induction l as [| x l IH]; intros [| i] H; cbn in *;
    try reflexivity; try lia.
  rewrite IH by lia. reflexivity.
Qed.

Lemma marked_refl (scores : list R) : marked scores scores.
Proof. intros i. left. reflexivity. Qed.

Lemma marked_set (scores cls_max : list R) (i : nat) :
  marked scores cls_max -> marked scores (set_nth i (-1) cls_max).
Proof.
  intros H j. destruct (Nat.eq_dec i j) as [<- | Hne].
  - destruct (Nat.lt_ge_cases i (length cls_max)) as [Hlt | Hge].
    + right. apply set_nth_same. exact Hlt.
    + rewrite set_nth_beyond by exact Hge. apply H.
  - rewrite set_nth_other by exact Hne. apply H.
Qed.

Section Loop.
Variables (conf nms : R) (box_of : nat -> Box) (scores : list R).

Lemma suppress_from_marked (box : Box) (rest : list nat)
    (cls_max cls_max' : list R) :
  suppress_from conf nms box_of box rest cls_max = Ok cls_max' ->
  marked scores cls_max -> marked scores cls_max'.
Proof.
  revert cls_max. induction rest as [| j rest IH]; intros cls_max H Hm;
    cbn [suppress_from] in H.
  - injection H as <-. exact Hm.
  - destruct (Rgeb (nth j cls_max 0) 0 && Rltb (nth j cls_max 0) conf).
    { injection H as <-. exact Hm. }
    destruct (Rgeb (nth j cls_max 0) 0); [| eapply IH; eassumption].
    destruct (bbox_iou box (box_of j)) as [iou | e]; [| discriminate].
    cbn [bind] in H.
    destruct (Rgtb iou nms); [| eapply IH; eassumption].
    eapply IH; [exact H |]. apply marked_set. exact Hm.
Qed.

(** What the loop emits. *)
Lemma nms_loop_emitted (order : list nat) (cls_max : list R)
    (kept : list (nat * R)) :
  nms_loop conf nms box_of order cls_max = Ok kept ->
  marked scores cls_max ->
  subseq (map fst kept) order /\
  Forall (fun e => snd e = nth (fst e) scores 0 /\
                   0 <= snd e /\ conf <= snd e) kept.
Proof.
  revert cls_max kept.
  induction order as [| idx rest IH]; intros cls_max kept H Hm;
    cbn [nms_loop] in H.
  - injection H as <-. split; constructor.
  - destruct (Rltb (nth idx cls_max 0) 0) eqn:E0.
    { destruct (IH _ _ H Hm) as [Hs Hf]. split; [| exact Hf].
      constructor. exact Hs. }
    destruct (Rltb (nth idx cls_max 0) conf) eqn:Ec.
    { injection H as <-. split; constructor. }
    destruct (suppress_from conf nms box_of (box_of idx) rest cls_max)
      as [cls_max' | e] eqn:Es; [| discriminate].
    cbn [bind] in H.
    destruct (nms_loop conf nms box_of rest cls_max') as [kept' | e] eqn:En;
      [| discriminate].
    cbn [bind] in H. injection H as <-.
    destruct (IH _ _ En (suppress_from_marked _ _ _ _ Es Hm)) as [Hs Hf].
    apply Rltb_false in E0. apply Rltb_false in Ec.
    split; [cbn [map fst]; constructor; exact Hs |].
    constructor; [| exact Hf]. cbn [fst snd].
    destruct (Hm idx) as [Ho | Hsent]; [| lra].
    repeat split; [exact Ho | exact E0 | exact Ec].
Qed.
End Loop.

Lemma cls_max_of_length (self : BBoxConverter) (g : Grid) (d : list R)
    (b : nat) :
  length (cls_max_of self g d b)
  = (num_anchors self * (g_h g * g_w g))%nat.
Proof.
  unfold cls_max_of, cls_scores. rewrite !length_map, length_seq. reflexivity.
Qed.

Lemma cls_max_of_nth (self : BBoxConverter) (g : Grid) (d : list R)
    (b idx : nat) :
  (idx < num_anchors self * (g_h g * g_w g))%nat ->
  nth idx (cls_max_of self g d b) 0 = fst (score_at self g d b idx).
Proof.
  intros H. unfold cls_max_of, cls_scores.
  rewrite nth_indep with (d' := fst (score_at self g d b 0))
    by (rewrite !length_map, length_seq; exact H).
  rewrite map_map.
  rewrite (map_nth (fun x => fst (score_at self g d b x)) _ 0%nat).
  rewrite seq_nth by exact H. reflexivity.
Qed.

Lemma survivors_emitted (self : BBoxConverter) (g : Grid) (d : list R)
    (b : nat) (kept : list (nat * R)) :
  survivors self g d b = Ok kept ->
  subseq (map fst kept) (ranked_of self g d b) /\
  Forall (fun e => snd e = nth (fst e) (cls_max_of self g d b) 0 /\
                   0 <= snd e /\ conf_thresh self <= snd e) kept.
Proof.
  intros H. unfold survivors in H.
  apply (nms_loop_emitted _ _ _ (cls_max_of self g d b)) in H;
    [exact H | apply marked_refl].
Qed.

Lemma mapM_In {A B : Type} (f : A -> result B) (l : list A) (ys : list B)
    (y : B) :
  mapM f l = Ok ys -> In y ys -> exists x, In x l /\ f x = Ok y.
Proof.
  revert ys. induction l as [| x l IH]; intros ys H Hin; cbn [mapM] in H.
  - injection H as <-. contradiction.
  - destruct (f x) as [y0 | e] eqn:Ef; [| discriminate]. cbn [bind] in H.
    destruct (mapM f l) as [ys0 | e] eqn:Em; [| discriminate].
    cbn [bind] in H. injection H as <-.
    destruct Hin as [<- | Hin].
    + exists x. split; [left; reflexivity | exact Ef].
    + destruct (IH ys0 eq_refl Hin) as (x' & Hx' & Hf).
      exists x'. split; [right; exact Hx' | exact Hf].
Qed.

(** [_get_region_boxes_nms] is the decode stage followed by the
    suppression stage on the array that the decode stage left. *)
Lemma get_region_boxes_nms_eq (self : BBoxConverter) (output : Tensor) :
  _get_region_boxes_nms self output
  = match decode_stage self output with
    | (Ok g, output') => suppress_stage self g output'
    | (Raise e, output') => (Raise e, output')
    end.
Proof. reflexivity. Qed.

(** The boxes of the suppression stage do not depend on what it writes. *)
Lemma suppress_stage_boxes (self : BBoxConverter) (g : Grid) (output : Tensor) :
  fst (suppress_stage self g output)
  = if (1 <? num_classes self)%nat && (g_k g <=? 5)%nat
    then Raise IndexError
    else mapM (image_boxes self g (data output)) (seq 0 (g_batch g)).
Proof.
  unfold suppress_stage.
  destruct ((1 <? num_classes self)%nat && (g_k g <=? 5)%nat);
    [reflexivity |].
  destruct (mapM _ _); reflexivity.
Qed.

Lemma get_region_boxes_nms_inv (self : BBoxConverter) (output : Tensor)
    (boxes : list (list Det)) :
  fst (_get_region_boxes_nms self output) = Ok boxes ->
  exists g output',
    decode_stage self output = (Ok g, output') /\
    (1 <? num_classes self)%nat && (g_k g <=? 5)%nat = false /\
    mapM (image_boxes self g (data output')) (seq 0 (g_batch g)) = Ok boxes.
Proof.
  rewrite get_region_boxes_nms_eq.
  destruct (decode_stage self output) as [[g | e] output'];
    [| discriminate].
  rewrite suppress_stage_boxes.
  destruct ((1 <? num_classes self)%nat && (g_k g <=? 5)%nat) eqn:E;
    [discriminate |].
  intros H. exists g, output'. repeat split; assumption.
Qed.


(** C3.  For every input and every confidence threshold (in [0,1] or
    not), no candidate whose combined score is below the threshold appears among
    the survivors of its image: every emitted entry carries the combined
    score of its candidate and that score is not below the threshold, in
    the suppression loop and in the boxes the converter returns. *)
Theorem confidence_filtering (self : BBoxConverter) :
  (forall (g : Grid) (d : list R) (b : nat) (kept : list (nat * R)),
      survivors self g d b = Ok kept ->
      (forall idx score,
          In (idx, score) kept ->
          score = nth idx (cls_max_of self g d b) 0 /\
          ~ score < conf_thresh self) /\
      (forall idx,
          nth idx (cls_max_of self g d b) 0 < conf_thresh self ->
          ~ In idx (map fst kept))) /\
  (forall (output : Tensor) (boxes : list (list Det)),
      fst (_get_region_boxes_nms self output) = Ok boxes ->
      forall image det,
        In image boxes -> In det image -> ~ d_score det < conf_thresh self).
Proof.
  split.
  - intros g d b kept H.
    destruct (survivors_emitted self g d b kept H) as [_ Hf].
    rewrite Forall_forall in Hf. split.
    + intros idx score Hin. destruct (Hf _ Hin) as (Hs & _ & Hc).
      cbn [fst snd] in *. split; [exact Hs | lra].
    + intros idx Hlt Hin. apply in_map_iff in Hin.
      destruct Hin as ([idx' score] & Hfst & Hin). cbn [fst] in Hfst. subst idx'.
      destruct (Hf _ Hin) as (Hs & _ & Hc). cbn [fst snd] in *. lra.
  - intros output boxes H image det Himg Hdet.
    apply get_region_boxes_nms_inv in H.
    destruct H as (g & output' & _ & _ & H).
    destruct (mapM_In _ _ _ _ H Himg) as (b & _ & Hb).
    unfold image_boxes in Hb.
    destruct (survivors self g (data output') b) as [kept | e] eqn:Es;
      [| discriminate].
    cbn [bind] in Hb. injection Hb as <-.
    apply in_map_iff in Hdet. destruct Hdet as (e & <- & He).
    cbn [d_score].
    destruct (survivors_emitted self g (data output') b kept Es) as [_ Hf].
    rewrite Forall_forall in Hf. destruct (Hf _ He) as (_ & _ & Hc). lra.
Qed.

(** A run on two candidates of a 1x2 grid: scores 9/10 and 3/10, threshold
    1/2. *)
Lemma survivors_example :
  survivors ex_conv ex_grid ex_data 0 = Ok [(0%nat, 9 / 10)].
Proof.
  unfold ex_conv, ex_grid, ex_data.
  unfold survivors, ranked_of, cls_max_of, cls_scores, score_at, box_at,
    torch_sort_desc, get4, flat_index.
  cbn [num_anchors num_classes g_h g_w g_k conf_thresh nms_thresh
       Nat.mul Nat.add Nat.ltb Nat.leb seq map fst snd length
       Nat.div Nat.modulo Nat.divmod Nat.sub nth fold_right insert_desc].
  repeat progress
    (cbn [nms_loop suppress_from nth andb bind]; unfold Rgeb, Rgtb;
     decide_cmp).
  reflexivity.
Qed.

Lemma confidence_filtering_witness :
  (forall idx score,
      In (idx, score) [(0%nat, 9 / 10)] ->
      score = nth idx (cls_max_of ex_conv ex_grid ex_data 0) 0 /\
      ~ score < conf_thresh ex_conv) /\
  (forall idx,
      nth idx (cls_max_of ex_conv ex_grid ex_data 0) 0 < conf_thresh ex_conv ->
      ~ In idx (map fst [(0%nat, 9 / 10)])).
Proof.
  exact (proj1 (confidence_filtering ex_conv) ex_grid ex_data 0%nat
               [(0%nat, 9 / 10)] survivors_example).
Defined.

(** ** Order, duplicates and number of the survivors *)

Lemma sorted_scores (f : nat -> R) (kept : list (nat * R)) :
  Forall (fun e => snd e = f (fst e)) kept ->
  StronglySorted (before f) (map fst kept) ->
  StronglySorted (fun x y => y <= x) (map snd kept).
Proof.
  induction kept as [| e kept IH]; intros Hf Hs; cbn [map]; [constructor |].
  inversion Hf as [| e' l' He Hf']; subst.
  cbn [map] in Hs. inversion Hs as [| i l Hs' Hall]; subst.
  constructor; [apply IH; assumption |].
  rewrite Forall_forall in *. intros y Hy.
  apply in_map_iff in Hy. destruct Hy as (e2 & <- & He2).
  rewrite He, (Hf' e2 He2). apply Hall. apply in_map. exact He2.
Qed.

(** C6.  The survivors of an image are a subsequence of its ranked
    candidates, which are in descending order of combined score, so the
    survivors are never reordered relative to score; no candidate is
    emitted twice; and there are at most as many survivors as candidates
    whose score reaches the confidence threshold. *)
Theorem survivors_invariant (self : BBoxConverter) (g : Grid) (d : list R)
    (b : nat) (kept : list (nat * R)) :
  survivors self g d b = Ok kept ->
  StronglySorted (before (fun i => nth i (cls_max_of self g d b) 0))
                 (ranked_of self g d b) /\
  subseq (map fst kept) (ranked_of self g d b) /\
  StronglySorted (fun x y => y <= x) (map snd kept) /\
  NoDup (map fst kept) /\
  (length kept
   <= count_confident (conf_thresh self) (cls_max_of self g d b))%nat.
Proof.
  intros H. destruct (survivors_emitted self g d b kept H) as [Hsub Hf].
  pose proof (torch_sort_desc_sorted (cls_max_of self g d b)) as Hsorted.
  fold (ranked_of self g d b) in Hsorted.
  assert (Hnd : NoDup (map fst kept)).
  { eapply subseq_NoDup; [exact Hsub | apply torch_sort_desc_NoDup]. }
  split; [exact Hsorted |]. split; [exact Hsub |]. split; [| split].
  - apply sorted_scores with (f := fun i => nth i (cls_max_of self g d b) 0).
    + eapply Forall_impl; [| exact Hf]. intros e He. apply He.
    + eapply subseq_sorted; eassumption.
  - exact Hnd.
  - unfold count_confident. rewrite <- (length_map fst kept).
    apply NoDup_incl_length; [exact Hnd |].
    intros idx Hin. apply filter_In. split.
    + apply in_seq. split; [lia |]. cbn [Nat.add].
      apply torch_sort_desc_bound. eapply subseq_incl; eassumption.
    + apply in_map_iff in Hin. destruct Hin as (e & <- & He).
      rewrite Forall_forall in Hf. destruct (Hf e He) as (Hs & _ & Hc).
      apply Rleb_true. rewrite <- Hs. exact Hc.
Qed.

Lemma survivors_invariant_witness :
  StronglySorted (before (fun i => nth i (cls_max_of ex_conv ex_grid ex_data 0) 0))
                 (ranked_of ex_conv ex_grid ex_data 0) /\
  subseq (map fst [(0%nat, 9 / 10)]) (ranked_of ex_conv ex_grid ex_data 0) /\
  StronglySorted (fun x y => y <= x) (map snd [(0%nat, 9 / 10)]) /\
  NoDup (map fst [(0%nat, 9 / 10)]) /\
  (length [(0%nat, 9 / 10)]
   <= count_confident (conf_thresh ex_conv)
                      (cls_max_of ex_conv ex_grid ex_data 0))%nat.
Proof.
  exact (survivors_invariant ex_conv ex_grid ex_data 0%nat
           [(0%nat, 9 / 10)] survivors_example).
Defined.

Ltac ex_eval :=
  unfold ex_conv, ex_grid, ex_data, ex_tie_data, box_at, score_at, get4,
    flat_index;
  cbn [num_anchors num_classes g_h g_w g_k conf_thresh nms_thresh
       Nat.mul Nat.add Nat.ltb Nat.leb fst snd
       Nat.div Nat.modulo Nat.divmod Nat.sub nth bw bh xc yc].

(** ** The sentinel against an explicit suppression state *)

Lemma is_suppressed_cons (sup : list nat) (j i : nat) :
  is_suppressed (j :: sup) i = (i =? j)%nat || is_suppressed sup i.
Proof. reflexivity. Qed.

Lemma agrees_set (scores cls_max : list R) (sup : list nat) (j : nat) :
  (j < length scores)%nat ->
  agrees scores cls_max sup ->
  agrees scores (set_nth j (-1) cls_max) (j :: sup).
Proof.
  intros Hj [Hlen Hag]. split; [rewrite set_nth_length; exact Hlen |].
  intros i Hi. rewrite is_suppressed_cons.
  destruct (i =? j)%nat eqn:E.
  - apply Nat.eqb_eq in E. subst i. cbn [orb].
    apply set_nth_same. lia.
  - apply Nat.eqb_neq in E. cbn [orb].
    rewrite set_nth_other by congruence. apply Hag. exact Hi.
Qed.

Section Refinement.
Variables (conf nms : R) (box_of : nat -> Box) (scores : list R).
Hypothesis scores_nonneg : Forall (fun s => 0 <= s) scores.

Lemma score_nonneg (i : nat) : 0 <= nth i scores 0.
Proof.
  destruct (Nat.lt_ge_cases i (length scores)) as [H | H].
  - rewrite Forall_forall in scores_nonneg. apply scores_nonneg.
    apply nth_In. exact H.
  - rewrite nth_overflow by exact H. lra.
Qed.

(** The test [cls_max[idx] < 0] is the test "marked suppressed". *)
Lemma skip_test (cls_max : list R) (sup : list nat) (i : nat) :
  (i < length scores)%nat ->
  agrees scores cls_max sup ->
  Rltb (nth i cls_max 0) 0 = is_suppressed sup i /\
  Rgeb (nth i cls_max 0) 0 = negb (is_suppressed sup i) /\
  (is_suppressed sup i = false -> nth i cls_max 0 = nth i scores 0).
Proof.
  intros Hi [_ Hag]. specialize (Hag i Hi). pose proof (score_nonneg i) as Hs.
  unfold Rgeb. destruct (is_suppressed sup i); rewrite Hag.
  - split; [apply Rltb_true; lra |].
    split; [apply Rleb_false; lra | discriminate].
  - split; [apply Rltb_false; lra |].
    split; [apply Rleb_true; lra | reflexivity].
Qed.

Lemma suppress_from_refines (box : Box) (rest : list nat)
    (cls_max : list R) (sup : list nat) :
  Forall (fun i => (i < length scores)%nat) rest ->
  agrees scores cls_max sup ->
  same_scan scores (suppress_from conf nms box_of box rest cls_max)
            (spec_scan conf nms box_of scores box rest sup).
Proof.
  revert cls_max sup. induction rest as [| j rest IH];
    intros cls_max sup Hr Hag; cbn [suppress_from spec_scan].
  - exact Hag.
  - inversion Hr as [| j' l' Hj Hr']; subst.
    destruct (skip_test cls_max sup j Hj Hag) as (_ & Hge & Hval).
    rewrite Hge.
    destruct (is_suppressed sup j) eqn:Es; cbn [negb andb].
    + apply IH; assumption.
    + rewrite (Hval eq_refl).
      destruct (Rltb (nth j scores 0) conf); [exact Hag |].
      destruct (bbox_iou box (box_of j)) as [iou | e]; cbn [bind];
        [| reflexivity].
      destruct (Rgtb iou nms).
      * apply IH; [assumption | apply agrees_set; assumption].
      * apply IH; assumption.
Qed.

Lemma nms_loop_refines (order : list nat) (cls_max : list R)
    (sup : list nat) :
  Forall (fun i => (i < length scores)%nat) order ->
  agrees scores cls_max sup ->
  nms_loop conf nms box_of order cls_max
  = spec_suppressor conf nms box_of scores order sup.
Proof.
  revert cls_max sup. induction order as [| i rest IH];
    intros cls_max sup Hr Hag; cbn [nms_loop spec_suppressor];
    [reflexivity |].
  inversion Hr as [| i' l' Hi Hr']; subst.
  destruct (skip_test cls_max sup i Hi Hag) as (Hlt & _ & Hval).
  rewrite Hlt.
  destruct (is_suppressed sup i) eqn:Es; [apply IH; assumption |].
  rewrite (Hval eq_refl).
  destruct (Rltb (nth i scores 0) conf); [reflexivity |].
  pose proof (suppress_from_refines (box_of i) rest cls_max sup Hr' Hag)
    as Hscan.
  unfold same_scan in Hscan.
  destruct (suppress_from conf nms box_of (box_of i) rest cls_max)
    as [cls_max' | e1];
    destruct (spec_scan conf nms box_of scores (box_of i) rest sup)
      as [sup' | e2]; try contradiction; cbn [bind].
  - rewrite (IH cls_max' sup' Hr' Hscan). reflexivity.
  - rewrite Hscan. reflexivity.
Qed.
End Refinement.

Lemma agrees_initial (scores : list R) : agrees scores scores [].
Proof. split; [reflexivity |]. intros i _. reflexivity. Qed.

(** ** The range of the decoded scores *)

Lemma decoded_score_range (self : BBoxConverter) (t : Tensor) (g : Grid)
    (t' : Tensor) (b idx : nat) :
  wf_tensor t ->
  decode_stage self t = (Ok g, t') ->
  (b < g_batch g)%nat ->
  (idx < num_anchors self * (g_h g * g_w g))%nat ->
  0 <= fst (score_at self g (data t') b idx) <= 1.
Proof.
  intros Hwf Hdec Hb Hidx.
  pose proof (decode_stage_inv self t g t' Hdec)
    as (_ & _ & _ & _ & _ & _ & Hk & _).
  set (hw := (g_h g * g_w g)%nat) in *.
  assert (Hhw : (0 < hw)%nat) by nia.
  assert (Ha : (idx / hw < num_anchors self)%nat).
  { apply Nat.Div0.div_lt_upper_bound. nia. }
  assert (Hcell : (idx mod hw < hw)%nat) by (apply Nat.mod_upper_bound; lia).
  unfold score_at. fold hw.
  rewrite (decode_stage_get4 self t g t') by (assumption || lia).
  rewrite decode_elem_chan by (assumption || lia).
  match goal with
  | |- context [sigmoid ?x] =>
      pose proof (sigmoid_range x) as Hobj; set (obj := sigmoid x) in *
  end.
  destruct (1 <? num_classes self)%nat; cbn [fst]; [| lra].
  set (logits := class_logits self g (data t') b (idx / hw) (idx mod hw)).
  destruct logits as [| x l] eqn:El.
  - cbn. lra.
  - assert (Hm : 0 < Rmax_list (softmax (x :: l)) <= 1)
      by (apply softmax_max_range; discriminate).
    split; [nra | nra].
Qed.

Lemma decoded_scores_nonneg (self : BBoxConverter) (t : Tensor) (g : Grid)
    (t' : Tensor) (b : nat) :
  wf_tensor t ->
  decode_stage self t = (Ok g, t') ->
  (b < g_batch g)%nat ->
  Forall (fun s => 0 <= s) (cls_max_of self g (data t') b).
Proof.
  intros Hwf Hdec Hb. apply Forall_forall. intros s Hs.
  apply In_nth with (d := 0) in Hs. destruct Hs as (i & Hi & <-).
  rewrite cls_max_of_length in Hi.
  rewrite cls_max_of_nth by exact Hi.
  apply (decoded_score_range self t g t' b i); assumption.
Qed.

(** C10.  Every combined score computed by the decoder lies in [0,1], so
    it is never the sentinel -1 that marks a suppressed candidate; and the
    suppression loop, whose skip test is [score < 0], runs exactly as the
    suppressor that keeps the scores untouched and records the suppressed
    candidates in a set of their own. *)
Theorem sentinel_sound (self : BBoxConverter) (t : Tensor) (g : Grid)
    (t' : Tensor) (b : nat) :
  wf_tensor t ->
  decode_stage self t = (Ok g, t') ->
  (b < g_batch g)%nat ->
  (forall idx, (idx < num_anchors self * (g_h g * g_w g))%nat ->
     0 <= fst (score_at self g (data t') b idx) <= 1 /\
     fst (score_at self g (data t') b idx) <> -1) /\
  (forall order cls_max suppressed,
     Forall (fun i => (i < length (cls_max_of self g (data t') b))%nat)
            order ->
     agrees (cls_max_of self g (data t') b) cls_max suppressed ->
     forall i, In i order ->
       Rltb (nth i cls_max 0) 0 = is_suppressed suppressed i) /\
  survivors self g (data t') b
  = spec_suppressor (conf_thresh self) (nms_thresh self)
      (box_at self g (data t') b) (cls_max_of self g (data t') b)
      (ranked_of self g (data t') b) [].
Proof.
  intros Hwf Hdec Hb.
  pose proof (decoded_scores_nonneg self t g t' b Hwf Hdec Hb) as Hnn.
  split; [| split].
  - intros idx Hidx.
    pose proof (decoded_score_range self t g t' b idx Hwf Hdec Hb Hidx).
    split; [assumption | lra].
  - intros order cls_max suppressed Hord Hag i Hi.
    rewrite Forall_forall in Hord.
    apply (skip_test _ Hnn cls_max suppressed i (Hord i Hi) Hag).
  - unfold survivors. apply nms_loop_refines.
    + exact Hnn.
    + apply Forall_forall. intros i Hi. apply torch_sort_desc_bound. exact Hi.
    + apply agrees_initial.
Qed.

Lemma decode_unit_raw : decode_stage unit_conv unit_raw = (Ok unit_grid, unit_decoded).
Proof. apply decode_unit_grid. Qed.

Lemma sentinel_sound_witness :
  survivors unit_conv unit_grid (data unit_decoded) 0
  = spec_suppressor (conf_thresh unit_conv) (nms_thresh unit_conv)
      (box_at unit_conv unit_grid (data unit_decoded) 0)
      (cls_max_of unit_conv unit_grid (data unit_decoded) 0)
      (ranked_of unit_conv unit_grid (data unit_decoded) 0) [].
Proof.
  assert (Hwf : wf_tensor unit_raw) by reflexivity.
  assert (Hb : (0 < g_batch unit_grid)%nat) by (cbn; lia).
  exact (proj2 (proj2 (sentinel_sound unit_conv unit_raw unit_grid
                         unit_decoded 0%nat Hwf decode_unit_raw Hb))).
Defined.

(** ** The suppression stage returns

    No division fails when no box has a negative size, which is the case
    of decoded boxes when no anchor is negative. *)

Section Total.
Variables (conf nms : R) (box_of : nat -> Box).

Lemma suppress_from_total (box : Box) (rest : list nat) (cls_max : list R) :
  nonneg_box box ->
  Forall (fun i => nonneg_box (box_of i)) rest ->
  exists cls_max', suppress_from conf nms box_of box rest cls_max = Ok cls_max'.
Proof.
  intros [Hw Hh]. revert cls_max.
  induction rest as [| j rest IH]; intros cls_max Hr; cbn [suppress_from].
  - eexists. reflexivity.
  - inversion Hr as [| j' l' [Hjw Hjh] Hr']; subst.
    destruct (Rgeb (nth j cls_max 0) 0 && Rltb (nth j cls_max 0) conf);
      [eexists; reflexivity |].
    destruct (Rgeb (nth j cls_max 0) 0); [| apply IH; exact Hr'].
    destruct (bbox_iou_total box (box_of j) Hw Hh Hjw Hjh) as (v & -> & _).
    cbn [bind]. destruct (Rgtb v nms); apply IH; exact Hr'.
Qed.

Lemma nms_loop_total (order : list nat) (cls_max : list R) :
  Forall (fun i => nonneg_box (box_of i)) order ->
  exists kept, nms_loop conf nms box_of order cls_max = Ok kept.
Proof.
  revert cls_max. induction order as [| i rest IH]; intros cls_max Hr;
    cbn [nms_loop].
  - eexists. reflexivity.
  - inversion Hr as [| i' l' Hi Hr']; subst.
    destruct (Rltb (nth i cls_max 0) 0); [apply IH; exact Hr' |].
    destruct (Rltb (nth i cls_max 0) conf); [eexists; reflexivity |].
    destruct (suppress_from_total (box_of i) rest cls_max Hi Hr')
      as (cls_max' & ->).
    cbn [bind]. destruct (IH cls_max' Hr') as (kept & ->).
    cbn [bind]. eexists. reflexivity.
Qed.
End Total.

Lemma evens_In (l : list R) (x : R) : In x (evens l) -> In x l.
Proof.
  remember (length l) as n eqn:Hn. revert l Hn.
  induction n as [n IH] using lt_wf_ind. intros l Hn Hin.
  destruct l as [| y [| z l]]; cbn [evens] in Hin.
  - contradiction.
  - exact Hin.
  - destruct Hin as [<- | Hin]; [left; reflexivity |].
    right. right. apply (IH (length l)); [cbn in Hn; lia | reflexivity | exact Hin].
Qed.

Lemma odds_In (l : list R) (x : R) : In x (odds l) -> In x l.
Proof.
  destruct l as [| y l]; cbn [odds]; [contradiction |].
  intros H. right. apply evens_In. exact H.
Qed.

Lemma nth_nonneg (l : list R) (i : nat) :
  Forall (fun x => 0 <= x) l -> 0 <= nth i l 0.
Proof.
  intros H. destruct (Nat.lt_ge_cases i (length l)) as [Hi | Hi].
  - rewrite Forall_forall in H. apply H. apply nth_In. exact Hi.
  - rewrite nth_overflow by exact Hi. lra.
Qed.

Lemma decoded_box_nonneg (self : BBoxConverter) (t : Tensor) (g : Grid)
    (t' : Tensor) (b idx : nat) :
  wf_tensor t ->
  decode_stage self t = (Ok g, t') ->
  Forall (fun x => 0 <= x) (anchors self) ->
  (b < g_batch g)%nat ->
  (idx < num_anchors self * (g_h g * g_w g))%nat ->
  nonneg_box (box_at self g (data t') b idx).
Proof.
  intros Hwf Hdec Hanch Hb Hidx.
  pose proof (decode_stage_inv self t g t' Hdec)
    as (_ & _ & _ & _ & _ & _ & Hk & _).
  set (hw := (g_h g * g_w g)%nat) in *.
  assert (Hhw : (0 < hw)%nat) by nia.
  assert (Ha : (idx / hw < num_anchors self)%nat).
  { apply Nat.Div0.div_lt_upper_bound. nia. }
  assert (Hcell : (idx mod hw < hw)%nat) by (apply Nat.mod_upper_bound; lia).
  assert (Haw : Forall (fun x => 0 <= x) (anchor_w self)).
  { rewrite Forall_forall in *. intros x Hx. apply Hanch, evens_In, Hx. }
  assert (Hah : Forall (fun x => 0 <= x) (anchor_h self)).
  { rewrite Forall_forall in *. intros x Hx. apply Hanch, odds_In, Hx. }
  assert (HW : 0 < INR (g_w g)) by (apply lt_0_INR; unfold hw in Hhw; nia).
  assert (HH : 0 < INR (g_h g)) by (apply lt_0_INR; unfold hw in Hhw; nia).
  unfold nonneg_box, box_at. fold hw. cbn [bw bh].
  rewrite !(decode_stage_get4 self t g t') by (assumption || lia).
  rewrite !decode_elem_chan by (assumption || lia).
  split.
  - apply Rmult_le_pos; [| left; apply Rinv_0_lt_compat; exact HW].
    apply Rmult_le_pos; [left; apply exp_pos | apply nth_nonneg; exact Haw].
  - apply Rmult_le_pos; [| left; apply Rinv_0_lt_compat; exact HH].
    apply Rmult_le_pos; [left; apply exp_pos | apply nth_nonneg; exact Hah].
Qed.

(** On a decoded array with no negative anchor the suppression of every
    image returns. *)
Lemma survivors_total (self : BBoxConverter) (t : Tensor) (g : Grid)
    (t' : Tensor) (b : nat) :
  wf_tensor t ->
  decode_stage self t = (Ok g, t') ->
  Forall (fun x => 0 <= x) (anchors self) ->
  (b < g_batch g)%nat ->
  exists kept, survivors self g (data t') b = Ok kept.
Proof.
  intros Hwf Hdec Hanch Hb. unfold survivors. apply nms_loop_total.
  apply Forall_forall. intros i Hi.
  apply torch_sort_desc_bound in Hi. rewrite cls_max_of_length in Hi.
  apply (decoded_box_nonneg self t g t' b i); assumption.
Qed.

Lemma mapi_id_outside {A : Type} (f : nat -> A -> A) (l : list A) (d : A)
    (i : nat) :
  (length l <= i)%nat -> nth i (mapi f l) d = nth i l d.
Proof.
  intros H. rewrite !nth_overflow; [reflexivity | exact H |].
  rewrite mapi_length. exact H.
Qed.

(** ** The shape of the input *)

Lemma decode_five_raw :
  decode_stage unit_conv five_raw
  = (Ok (mkGrid 1 1 1 5),
     mkTensor [1; 5; 1; 1]%nat [1 / 2; 1 / 2; 1; 1; sigmoid 5] false).
Proof.
  unfold unit_conv, five_raw.
  rewrite (decode_stage_success _ _ 1 1 1 5); try reflexivity; try lia.
  f_equal. unfold batched. cbn [dims length Nat.eqb data]. f_equal.
  unfold mapi. cbn [mapi_from]. unfold decode_elem.
  cbn [g_h g_w g_k num_anchors Nat.mul Nat.add].
  unfold chan_of, anchor_of, cell_of, anchor_w, anchor_h.
  cbn [Nat.div Nat.modulo Nat.divmod fst snd Nat.sub Nat.mul Nat.add
       anchors evens odds nth make_lin_x make_lin_y linspace0 seq map
       repeat concat flat_map app INR].
  rewrite sigmoid_0, exp_0.
  repeat (f_equal; try lra).
Qed.

(** C9, as stated, fails: with one anchor and one class, five channels are
    not [num_anchors * (5 + num_classes)], and the call returns a box. *)
Lemma five_channels_accepted :
  nth 1 (dims five_raw) 0%nat
  <> (num_anchors unit_conv * (5 + num_classes unit_conv))%nat /\
  fst (_get_region_boxes_nms unit_conv five_raw)
  = Ok [[mkDet (mkBox (1 / 2) (1 / 2) 1 1) (sigmoid 5) (FloatIdx 0)]].
Proof.
  split; [cbn; lia |].
  rewrite get_region_boxes_nms_eq, decode_five_raw, suppress_stage_boxes.
  unfold unit_conv.
  unfold image_boxes, survivors, ranked_of, cls_max_of,
    cls_scores, score_at, box_at, torch_sort_desc, get4, flat_index.
  cbn [num_anchors num_classes g_h g_w g_k g_batch conf_thresh nms_thresh
       Nat.mul Nat.add Nat.ltb Nat.leb seq map fst snd length data
       Nat.div Nat.modulo Nat.divmod Nat.sub nth fold_right insert_desc
       andb mapM nms_loop suppress_from].
  pose proof (sigmoid_range 5) as Hs.
  assert (Hl : 1 - 1 / 2 < sigmoid 5) by (apply sigmoid_large; lra).
  rewrite (proj2 (Rltb_false (sigmoid 5) 0)) by lra.
  rewrite (proj2 (Rltb_false (sigmoid 5) (1 / 2))) by lra.
  reflexivity.
Qed.

Lemma decode_stage_rank3 (self : BBoxConverter) (t : Tensor) :
  length (dims t) = 3%nat ->
  decode_stage self t = decode_stage self (unsqueeze0 t).
Proof.
  intros H. unfold decode_stage, bindM, lift.
  cbn [unsqueeze0 dims length]. rewrite H. reflexivity.
Qed.

Lemma numel_4 (batch C h w : nat) (d : list R) (cuda : bool) :
  numel (mkTensor [batch; C; h; w] d cuda) = (batch * h * w * C)%nat.
Proof. unfold numel. cbn [dims fold_right]. lia. Qed.

Lemma view_infer_4 (batch C h w A : nat) (d : list R) (cuda : bool) :
  (0 < batch)%nat -> (0 < h)%nat -> (0 < w)%nat ->
  view_infer (mkTensor [batch; C; h; w] d cuda) batch A (h * w)
  = if (A =? 0)%nat then Raise ShapeError
    else if (C mod A =? 0)%nat then Ok (C / A)%nat
    else Raise ShapeError.
Proof.
  intros Hb Hh Hw. unfold view_infer. rewrite numel_4.
  replace (batch * A * (h * w))%nat with (batch * h * w * A)%nat by lia.
  assert (Hp : (batch * h * w <> 0)%nat) by nia.
  destruct (A =? 0)%nat eqn:EA.
  - apply Nat.eqb_eq in EA. subst A. rewrite Nat.mul_0_r. reflexivity.
  - apply Nat.eqb_neq in EA.
    replace (batch * h * w * A =? 0)%nat with false
      by (symmetry; apply Nat.eqb_neq; nia).
    rewrite Nat.Div0.mul_mod_distr_l.
    rewrite Nat.Div0.div_mul_cancel_l by exact Hp.
    destruct (C mod A =? 0)%nat eqn:EC.
    + apply Nat.eqb_eq in EC. rewrite EC, Nat.mul_0_r. reflexivity.
    + apply Nat.eqb_neq in EC.
      replace (batch * h * w * (C mod A) =? 0)%nat with false
        by (symmetry; apply Nat.eqb_neq; nia).
      reflexivity.
Qed.

Lemma decode_stage_shape_error (self : BBoxConverter) (batch C h w : nat)
    (d : list R) (cuda : bool) :
  (0 < batch)%nat -> (0 < h)%nat -> (0 < w)%nat ->
  num_anchors self = 0%nat \/ (C mod num_anchors self <> 0)%nat ->
  fst (decode_stage self (mkTensor [batch; C; h; w] d cuda)) = Raise ShapeError.
Proof.
  intros Hb Hh Hw HA.
  unfold decode_stage, bindM, lift, ret, size.
  cbn [dims length Nat.eqb nth_error].
  unfold view_1n1.
  destruct (length (evens (anchors self)) =? num_anchors self)%nat;
    [| reflexivity].
  destruct (length (odds (anchors self)) =? num_anchors self)%nat;
    [| reflexivity].
  rewrite view_infer_4 by assumption.
  destruct (num_anchors self =? 0)%nat eqn:EA; [reflexivity |].
  apply Nat.eqb_neq in EA.
  destruct HA as [HA | HA]; [contradiction |].
  apply Nat.eqb_neq in HA. rewrite HA. reflexivity.
Qed.

Lemma decode_stage_index_error (self : BBoxConverter) (batch C h w : nat)
    (d : list R) (cuda : bool) :
  (0 < batch)%nat -> (0 < h)%nat -> (0 < w)%nat ->
  length (anchor_w self) = num_anchors self ->
  length (anchor_h self) = num_anchors self ->
  num_anchors self <> 0%nat ->
  (C mod num_anchors self = 0)%nat ->
  (C / num_anchors self < 5)%nat ->
  fst (decode_stage self (mkTensor [batch; C; h; w] d cuda)) = Raise IndexError.
Proof.
  intros Hb Hh Hw Haw Hah HA Hm Hk.
  unfold decode_stage, bindM, lift, ret, size.
  cbn [dims length Nat.eqb nth_error].
  unfold view_1n1. fold (anchor_w self) (anchor_h self).
  rewrite Haw, Hah, Nat.eqb_refl.
  rewrite view_infer_4 by assumption.
  apply Nat.eqb_neq in HA. rewrite HA.
  apply Nat.eqb_eq in Hm. rewrite Hm.
  unfold inplace_channel, modify, raise.
  set (k := (C / num_anchors self)%nat) in *.
  destruct (0 <? k)%nat eqn:E0; [| reflexivity].
  destruct (1 <? k)%nat eqn:E1; [| reflexivity].
  destruct (2 <? k)%nat eqn:E2; [| reflexivity].
  destruct (3 <? k)%nat eqn:E3; [| reflexivity].
  destruct (4 <? k)%nat eqn:E4; [| reflexivity].
  apply Nat.ltb_lt in E4. lia.
Qed.

Lemma decode_stage_accepts (self : BBoxConverter) (batch C h w : nat)
    (d : list R) (cuda : bool) :
  (0 < batch)%nat -> (0 < h)%nat -> (0 < w)%nat ->
  length (anchor_w self) = num_anchors self ->
  length (anchor_h self) = num_anchors self ->
  num_anchors self <> 0%nat ->
  (C mod num_anchors self = 0)%nat ->
  (5 <= C / num_anchors self)%nat ->
  fst (decode_stage self (mkTensor [batch; C; h; w] d cuda))
  = Ok (mkGrid batch h w (C / num_anchors self)).
Proof.
  intros Hb Hh Hw Haw Hah HA Hm Hk.
  rewrite (decode_stage_success self _ batch h w (C / num_anchors self));
    try reflexivity; try assumption.
  unfold batched. cbn [dims length Nat.eqb].
  rewrite view_infer_4 by assumption.
  apply Nat.eqb_neq in HA. rewrite HA.
  apply Nat.eqb_eq in Hm. rewrite Hm. reflexivity.
Qed.

(** C9, amended.  A rank-3 input array is treated as a batch of size 1.
    The number of channels per anchor is not compared with
    [5 + num_classes]; it is inferred by [view].  An input whose channel
    count is not a multiple of [num_anchors] fails with a shape-mismatch
    error, one with fewer than five channels per anchor fails with an
    index error, and every other channel count is accepted by the decode
    stage, whatever [num_classes]. *)
Theorem shape_contract (self : BBoxConverter) :
  (forall t, length (dims t) = 3%nat ->
     _get_region_boxes_nms self t = _get_region_boxes_nms self (unsqueeze0 t)
     /\ nth_error (dims (unsqueeze0 t)) 0 = Some 1%nat) /\
  (forall (batch C h w : nat) (d : list R) (cuda : bool),
     (0 < batch)%nat -> (0 < h)%nat -> (0 < w)%nat ->
     (num_anchors self = 0%nat \/ (C mod num_anchors self <> 0)%nat ->
      fst (_get_region_boxes_nms self (mkTensor [batch; C; h; w] d cuda))
      = Raise ShapeError) /\
     (length (anchor_w self) = num_anchors self ->
      length (anchor_h self) = num_anchors self ->
      num_anchors self <> 0%nat ->
      (C mod num_anchors self = 0)%nat ->
      ((C / num_anchors self < 5)%nat ->
       fst (_get_region_boxes_nms self (mkTensor [batch; C; h; w] d cuda))
       = Raise IndexError) /\
      ((5 <= C / num_anchors self)%nat ->
       fst (decode_stage self (mkTensor [batch; C; h; w] d cuda))
       = Ok (mkGrid batch h w (C / num_anchors self))))).
Proof.
  split.
  - intros t H. split; [| reflexivity].
    rewrite !get_region_boxes_nms_eq, (decode_stage_rank3 self t H).
    reflexivity.
  - intros batch C h w d cuda Hb Hh Hw. split.
    + intros HA.
      pose proof (decode_stage_shape_error self batch C h w d cuda Hb Hh Hw
                    HA) as He.
      rewrite get_region_boxes_nms_eq.
      destruct (decode_stage self (mkTensor [batch; C; h; w] d cuda)) as [r t'].
      cbn [fst] in He. rewrite He. reflexivity.
    + intros Haw Hah HA Hm. split.
      * intros Hk.
        pose proof (decode_stage_index_error self batch C h w d cuda Hb Hh Hw
                      Haw Hah HA Hm Hk) as He.
        rewrite get_region_boxes_nms_eq.
        destruct (decode_stage self (mkTensor [batch; C; h; w] d cuda)) as [r t'].
        cbn [fst] in He. rewrite He. reflexivity.
      * intros Hk. apply decode_stage_accepts; assumption.
Qed.

Lemma shape_contract_witness :
  _get_region_boxes_nms unit_conv (mkTensor [6; 1; 1]%nat [0; 0; 0; 0; 5; 0] false)
  = _get_region_boxes_nms unit_conv unit_raw /\
  fst (_get_region_boxes_nms
         (mkBBoxConverter (1 / 2) (1 / 2) [1; 1; 1; 1] 1 2)
         (mkTensor [1; 5; 1; 1]%nat [0; 0; 0; 0; 5] false))
  = Raise ShapeError /\
  fst (_get_region_boxes_nms unit_conv
         (mkTensor [1; 4; 1; 1]%nat [0; 0; 0; 0] false))
  = Raise IndexError /\
  fst (decode_stage unit_conv five_raw) = Ok (mkGrid 1 1 1 5).
Proof.
  assert (H1 : (0 < 1)%nat) by lia.
  split; [| split; [| split]].
  - exact (proj1 (proj1 (shape_contract unit_conv)
                    (mkTensor [6; 1; 1]%nat [0; 0; 0; 0; 5; 0] false) eq_refl)).
  - apply (proj2 (shape_contract
                    (mkBBoxConverter (1 / 2) (1 / 2) [1; 1; 1; 1] 1 2))
             1%nat 5%nat 1%nat 1%nat _ false H1 H1 H1).
    right. cbn. lia.
  - apply (proj2 (shape_contract unit_conv)
             1%nat 4%nat 1%nat 1%nat _ false H1 H1 H1);
      try reflexivity; cbn; lia.
  - apply (proj2 (shape_contract unit_conv)
             1%nat 5%nat 1%nat 1%nat _ false H1 H1 H1);
      try reflexivity; cbn; lia.
Defined.

(** * Further properties of the code *)

(** ** [bbox_iou] on arbitrary boxes *)

Lemma inter_w_le (a b : Box) : inter_w a b <= bw a /\ inter_w a b <= bw b.
Proof.
  unfold inter_w.
  pose proof (Rmax_l (xc a + bw a / 2) (xc b + bw b / 2)).
  pose proof (Rmax_r (xc a + bw a / 2) (xc b + bw b / 2)).
  pose proof (Rmin_l (xc a - bw a / 2) (xc b - bw b / 2)).
  pose proof (Rmin_r (xc a - bw a / 2) (xc b - bw b / 2)).
  split; lra.
Qed.

Lemma inter_h_le (a b : Box) : inter_h a b <= bh a /\ inter_h a b <= bh b.
Proof.
  unfold inter_h.
  pose proof (Rmax_l (yc a + bh a / 2) (yc b + bh b / 2)).
  pose proof (Rmax_r (yc a + bh a / 2) (yc b + bh b / 2)).
  pose proof (Rmin_l (yc a - bh a / 2) (yc b - bh b / 2)).
  pose proof (Rmin_r (yc a - bh a / 2) (yc b - bh b / 2)).
  split; lra.
Qed.

(** The division of [bbox_iou] is reached only with a positive
    denominator. *)
Lemma bbox_iou_range (a b : Box) :
  exists v, bbox_iou a b = Ok v /\ 0 <= v <= 1.
Proof.
  unfold bbox_iou; cbv zeta. fold (inter_w a b) (inter_h a b).
  destruct (Rleb (inter_w a b) 0) eqn:Ew.
  { exists 0. split; [reflexivity | lra]. }
  destruct (Rleb (inter_h a b) 0) eqn:Eh.
  { exists 0. split; [reflexivity | lra]. }
  apply Rleb_false in Ew. apply Rleb_false in Eh. cbn [orb].
  destruct (inter_w_le a b) as [Hiwa Hiwb].
  destruct (inter_h_le a b) as [Hiha Hihb].
  set (iw := inter_w a b) in *. set (ih := inter_h a b) in *.
  assert (Hi : 0 < iw * ih) by (apply Rmult_lt_0_compat; assumption).
  assert (Ha : iw * ih <= bw a * bh a) by (apply Rmult_le_compat; lra).
  assert (Hb : iw * ih <= bw b * bh b) by (apply Rmult_le_compat; lra).
  unfold pydiv.
  destruct (Reqb _ 0) eqn:E; [apply Reqb_true in E; lra |].
  eexists. split; [reflexivity |].
  assert (Hu : 0 < bw a * bh a + bw b * bh b - iw * ih) by lra.
  split.
  - apply Rmult_le_pos; [lra |]. left. apply Rinv_0_lt_compat. exact Hu.
  - apply Rmult_le_reg_r with (bw a * bh a + bw b * bh b - iw * ih);
      [exact Hu |].
    unfold Rdiv. rewrite Rmult_assoc, Rinv_l by lra. lra.
Qed.

(** ** The suppression loop: what survives and what does not *)

Lemma suppress_from_length (conf nms : R) (box_of : nat -> Box) (box : Box)
    (rest : list nat) (cls_max cls_max' : list R) :
  suppress_from conf nms box_of box rest cls_max = Ok cls_max' ->
  length cls_max' = length cls_max.
Proof.
  revert cls_max. induction rest as [| j rest IH]; intros cls_max H;
    cbn [suppress_from] in H.
  - injection H as <-. reflexivity.
  - destruct (Rgeb (nth j cls_max 0) 0 && Rltb (nth j cls_max 0) conf).
    { injection H as <-. reflexivity. }
    destruct (Rgeb (nth j cls_max 0) 0); [| apply IH; exact H].
    destruct (bbox_iou box (box_of j)) as [iou | e]; [| discriminate].
    cbn [bind] in H.
    destruct (Rgtb iou nms); [| apply IH; exact H].
    rewrite (IH _ H). apply set_nth_length.
Qed.

Lemma marked_eligible (conf : R) (cls_max cls_max' : list R) (j : nat) :
  marked cls_max cls_max' ->
  eligible conf cls_max' j ->
  nth j cls_max' 0 = nth j cls_max 0 /\ eligible conf cls_max j.
Proof.
  intros Hm [H0 Hc]. destruct (Hm j) as [E | E].
  - split; [exact E |]. unfold eligible. rewrite <- E. split; assumption.
  - rewrite E in H0. lra.
Qed.

Section Survival.
Variables (conf nms : R) (box_of : nat -> Box) (scores : list R).

Let score (i : nat) : R := nth i scores 0.

(** An entry changed by a scan belongs to a candidate that overlaps the
    scanning box by more than the threshold. *)
Lemma suppress_from_changes (box : Box) (rest : list nat)
    (cls_max cls_max' : list R) (j : nat) :
  suppress_from conf nms box_of box rest cls_max = Ok cls_max' ->
  nth j cls_max' 0 <> nth j cls_max 0 ->
  exists v, bbox_iou box (box_of j) = Ok v /\ nms < v.
Proof.
  revert cls_max. induction rest as [| j0 rest IH]; intros cls_max H Hne;
    cbn [suppress_from] in H.
  - injection H as <-. congruence.
  - destruct (Rgeb (nth j0 cls_max 0) 0 && Rltb (nth j0 cls_max 0) conf).
    { injection H as <-. congruence. }
    destruct (Rgeb (nth j0 cls_max 0) 0); [| eapply IH; eassumption].
    destruct (bbox_iou box (box_of j0)) as [iou | e] eqn:Ei; [| discriminate].
    cbn [bind] in H.
    destruct (Rgtb iou nms) eqn:Eg; [| eapply IH; eassumption].
    destruct (Req_dec_T (nth j cls_max' 0)
                        (nth j (set_nth j0 (-1) cls_max) 0)) as [E | E].
    + destruct (Nat.eq_dec j0 j) as [<- | Hj].
      * exists iou. split; [exact Ei | apply Rltb_true; exact Eg].
      * rewrite set_nth_other in E by exact Hj. congruence.
    + eapply IH; eassumption.
Qed.

(** A candidate that is still eligible after a scan was compared with the
    scanning box and overlaps it by at most the threshold. *)
Lemma suppress_from_scanned (box : Box) (rest : list nat)
    (cls_max cls_max' : list R) (j : nat) :
  Forall (fun i => (i < length cls_max)%nat) rest ->
  StronglySorted (before score) rest ->
  marked scores cls_max ->
  suppress_from conf nms box_of box rest cls_max = Ok cls_max' ->
  In j rest -> eligible conf cls_max' j ->
  exists v, bbox_iou box (box_of j) = Ok v /\ v <= nms.
Proof.
  revert cls_max. induction rest as [| j0 rest IH];
    intros cls_max Hr Hs Hm H Hin Hel; [contradiction |].
  cbn [suppress_from] in H.
  inversion Hr as [| j0' l' Hj0 Hr']; subst.
  inversion Hs as [| j0' l' Hs' Hall]; subst.
  destruct (Rgeb (nth j0 cls_max 0) 0) eqn:E0.
  - apply Rleb_true in E0.
    destruct (Rltb (nth j0 cls_max 0) conf) eqn:Ec; cbn [andb] in H.
    + (* break: nothing after [j0] reaches the threshold *)
      injection H as <-. apply Rltb_true in Ec.
      assert (Hj0s : nth j0 cls_max 0 = score j0).
      { destruct (Hm j0) as [E | E]; [exact E | lra]. }
      destruct Hel as [Hel0 Helc].
      destruct Hin as [<- | Hin]; [lra |].
      rewrite Forall_forall in Hall. specialize (Hall j Hin).
      unfold before in Hall.
      destruct (Hm j) as [E | E]; [| lra].
      fold (score j) in E. lra.
    + destruct (bbox_iou box (box_of j0)) as [iou | e] eqn:Ei;
        [| discriminate].
      cbn [bind] in H.
      destruct (Rgtb iou nms) eqn:Eg.
      * destruct Hin as [<- | Hin].
        -- (* [j0] was marked: it is not eligible any more *)
           pose proof (suppress_from_marked conf nms box_of
                         (set_nth j0 (-1) cls_max) box rest
                         (set_nth j0 (-1) cls_max) cls_max' H
                         (marked_refl _) j0) as Hv.
           rewrite set_nth_same in Hv by exact Hj0.
           destruct Hel as [Hel0 _].
           destruct Hv as [Hv | Hv]; rewrite Hv in Hel0; lra.
        -- apply (IH (set_nth j0 (-1) cls_max)); try assumption.
           ++ rewrite set_nth_length. exact Hr'.
           ++ apply marked_set. exact Hm.
      * destruct Hin as [<- | Hin].
        -- exists iou. split; [exact Ei |].
           apply Rltb_false in Eg. exact Eg.
        -- apply (IH cls_max); assumption.
  - cbn [andb] in H. apply Rleb_false in E0.
    destruct Hin as [<- | Hin].
    + pose proof (suppress_from_marked conf nms box_of cls_max box rest
                    cls_max cls_max' H (marked_refl _) j0) as Hv.
      destruct Hel as [Hel0 _].
      destruct Hv as [Hv | Hv]; rewrite Hv in Hel0; lra.
    + apply (IH cls_max); assumption.
Qed.

Lemma nms_loop_pairwise (order : list nat) (cls_max : list R)
    (kept : list (nat * R)) :
  Forall (fun i => (i < length cls_max)%nat) order ->
  StronglySorted (before score) order ->
  marked scores cls_max ->
  nms_loop conf nms box_of order cls_max = Ok kept ->
  ForallOrdPairs (fun e1 e2 => overlap_le box_of nms (fst e1) (fst e2)) kept.
Proof.
  revert cls_max kept. induction order as [| idx rest IH];
    intros cls_max kept Hr Hs Hm H; cbn [nms_loop] in H.
  - injection H as <-. constructor.
  - inversion Hr as [| i' l' Hidx Hr']; subst.
    inversion Hs as [| i' l' Hs' Hall]; subst.
    destruct (Rltb (nth idx cls_max 0) 0); [eapply IH; eassumption |].
    destruct (Rltb (nth idx cls_max 0) conf).
    { injection H as <-. constructor. }
    destruct (suppress_from conf nms box_of (box_of idx) rest cls_max)
      as [cls_max' | e] eqn:Es; [| discriminate].
    cbn [bind] in H.
    destruct (nms_loop conf nms box_of rest cls_max') as [kept' | e] eqn:En;
      [| discriminate].
    cbn [bind] in H. injection H as <-.
    pose proof (suppress_from_length _ _ _ _ _ _ _ Es) as Hlen.
    pose proof (suppress_from_marked _ _ _ scores _ _ _ _ Es Hm) as Hm'.
    constructor.
    + destruct (nms_loop_emitted conf nms box_of cls_max' rest cls_max' kept'
                  En (marked_refl _)) as [Hsub Hf].
      rewrite Forall_forall in *. intros e He. cbn [fst].
      destruct (Hf e He) as (Hv & Hv0 & Hvc).
      apply (suppress_from_scanned (box_of idx) rest cls_max cls_max');
        try assumption.
      * apply Forall_forall. exact Hr'.
      * eapply subseq_incl; [exact Hsub |]. apply in_map. exact He.
      * unfold eligible. rewrite <- Hv. split; lra.
    + apply (IH cls_max'); try assumption. rewrite Hlen. exact Hr'.
Qed.

(** Every candidate that is eligible when the loop starts is emitted or
    overlaps an emitted candidate by more than the threshold. *)
Lemma nms_loop_complete (order : list nat) (cls_max : list R)
    (kept : list (nat * R)) (j : nat) :
  StronglySorted (before score) order ->
  marked scores cls_max ->
  nms_loop conf nms box_of order cls_max = Ok kept ->
  In j order -> eligible conf cls_max j ->
  In j (map fst kept) \/
  exists e, In e kept /\ overlap_gt box_of nms (fst e) j.
Proof.
  revert cls_max kept. induction order as [| idx rest IH];
    intros cls_max kept Hs Hm H Hin Hel; [contradiction |].
  cbn [nms_loop] in H.
  inversion Hs as [| i' l' Hs' Hall]; subst.
  destruct (Rltb (nth idx cls_max 0) 0) eqn:E0.
  { apply Rltb_true in E0. destruct Hin as [<- | Hin].
    - destruct Hel as [Hel0 _]. lra.
    - eapply IH; eassumption. }
  apply Rltb_false in E0.
  destruct (Rltb (nth idx cls_max 0) conf) eqn:Ec.
  { apply Rltb_true in Ec. exfalso.
    assert (His : nth idx cls_max 0 = score idx).
    { destruct (Hm idx) as [E | E]; [exact E | lra]. }
    destruct Hel as [Hel0 Helc].
    destruct Hin as [<- | Hin]; [lra |].
    rewrite Forall_forall in Hall. specialize (Hall j Hin).
    unfold before in Hall.
    destruct (Hm j) as [E | E]; [| lra].
    fold (score j) in E. lra. }
  destruct (suppress_from conf nms box_of (box_of idx) rest cls_max)
    as [cls_max' | e] eqn:Es; [| discriminate].
  cbn [bind] in H.
  destruct (nms_loop conf nms box_of rest cls_max') as [kept' | e] eqn:En;
    [| discriminate].
  cbn [bind] in H. injection H as <-.
  destruct Hin as [<- | Hin]; [left; left; reflexivity |].
  destruct (Req_dec_T (nth j cls_max' 0) (nth j cls_max 0)) as [E | E].
  - assert (Hel' : eligible conf cls_max' j)
      by (unfold eligible in *; rewrite E; exact Hel).
    pose proof (suppress_from_marked _ _ _ scores _ _ _ _ Es Hm) as Hm'.
    destruct (IH cls_max' kept' Hs' Hm' En Hin Hel') as [Hk | (e & He & Ho)].
    + left. right. exact Hk.
    + right. exists e. split; [right; exact He | exact Ho].
  - right. exists (idx, nth idx cls_max 0). split; [left; reflexivity |].
    cbn [fst]. apply (suppress_from_changes _ _ _ _ _ Es E).
Qed.

End Survival.

Lemma ranked_of_bound (self : BBoxConverter) (g : Grid) (d : list R)
    (b i : nat) :
  In i (ranked_of self g d b) <->
  (i < num_anchors self * (g_h g * g_w g))%nat.
Proof.
  unfold ranked_of. rewrite <- cls_max_of_length with (d := d) (b := b).
  split.
  - apply torch_sort_desc_bound.
  - intros H.
    apply (Permutation_in _ (torch_sort_desc_perm (cls_max_of self g d b))).
    apply in_seq. lia.
Qed.

Lemma ranked_of_in_range (self : BBoxConverter) (g : Grid) (d : list R)
    (b : nat) :
  Forall (fun i => (i < length (cls_max_of self g d b))%nat)
         (ranked_of self g d b).
Proof.
  apply Forall_forall. intros i Hi. apply torch_sort_desc_bound. exact Hi.
Qed.

(** X3.  No two survivors of an image overlap by more than the overlap
    threshold: for every survivor and every survivor emitted after it,
    [bbox_iou] of their boxes is at most [nms_thresh]. *)
Theorem survivors_pairwise_overlap (self : BBoxConverter) (g : Grid)
    (d : list R) (b : nat) (kept : list (nat * R)) :
  survivors self g d b = Ok kept ->
  ForallOrdPairs
    (fun e1 e2 =>
       overlap_le (box_at self g d b) (nms_thresh self) (fst e1) (fst e2))
    kept.
Proof.
  intros H. unfold survivors in H.
  apply (nms_loop_pairwise (conf_thresh self) (nms_thresh self)
           (box_at self g d b) (cls_max_of self g d b)
           (ranked_of self g d b) (cls_max_of self g d b)).
  - apply ranked_of_in_range.
  - apply torch_sort_desc_sorted.
  - apply marked_refl.
  - exact H.
Qed.

Lemma ex_boxes_disjoint :
  bbox_iou (mkBox (1 / 4) (1 / 2) (1 / 2) 1) (mkBox (3 / 4) (1 / 2) (1 / 2) 1)
  = Ok 0.
Proof.
  apply bbox_iou_disjoint. left. unfold inter_w. cbn [xc bw].
  rewrite Rmax_right, Rmin_left by lra. lra.
Qed.

(** With the threshold 1/5 both candidates of the small grid survive. *)
Lemma survivors_low_example :
  survivors ex_low_conv ex_grid ex_data 0
  = Ok [(0%nat, 9 / 10); (1%nat, 3 / 10)].
Proof.
  unfold ex_low_conv, ex_grid, ex_data.
  unfold survivors, ranked_of, cls_max_of, cls_scores, score_at, box_at,
    torch_sort_desc, get4, flat_index.
  cbn [num_anchors num_classes g_h g_w g_k conf_thresh nms_thresh
       Nat.mul Nat.add Nat.ltb Nat.leb seq map fst snd length
       Nat.div Nat.modulo Nat.divmod Nat.sub nth fold_right insert_desc].
  repeat progress
    (cbn [nms_loop suppress_from nth andb bind set_nth
          Nat.mul Nat.add Nat.div Nat.modulo Nat.divmod Nat.sub fst snd];
     unfold Rgeb, Rgtb; rewrite ?ex_boxes_disjoint; decide_cmp).
  reflexivity.
Qed.

Lemma survivors_pairwise_overlap_witness :
  ForallOrdPairs
    (fun e1 e2 =>
       overlap_le (box_at ex_low_conv ex_grid ex_data 0)
                  (nms_thresh ex_low_conv) (fst e1) (fst e2))
    [(0%nat, 9 / 10); (1%nat, 3 / 10)].
Proof.
  exact (survivors_pairwise_overlap ex_low_conv ex_grid ex_data 0%nat _
           survivors_low_example).
Defined.

(** X4.  Suppression is complete: every candidate whose combined score is
    not negative and reaches the confidence threshold is a survivor or
    overlaps a survivor by more than the overlap threshold. *)
Theorem survivors_complete (self : BBoxConverter) (g : Grid) (d : list R)
    (b : nat) (kept : list (nat * R)) (idx : nat) :
  survivors self g d b = Ok kept ->
  (idx < num_anchors self * (g_h g * g_w g))%nat ->
  0 <= nth idx (cls_max_of self g d b) 0 ->
  conf_thresh self <= nth idx (cls_max_of self g d b) 0 ->
  In idx (map fst kept) \/
  exists e, In e kept /\
            overlap_gt (box_at self g d b) (nms_thresh self) (fst e) idx.
Proof.
  intros H Hidx H0 Hc. unfold survivors in H.
  apply (nms_loop_complete (conf_thresh self) (nms_thresh self)
           (box_at self g d b) (cls_max_of self g d b)
           (ranked_of self g d b) (cls_max_of self g d b)).
  - apply torch_sort_desc_sorted.
  - apply marked_refl.
  - exact H.
  - apply ranked_of_bound. exact Hidx.
  - unfold eligible. split; lra.
Qed.

Lemma survivors_complete_witness :
  In 1%nat (map fst [(0%nat, 9 / 10); (1%nat, 3 / 10)]) \/
  exists e, In e [(0%nat, 9 / 10); (1%nat, 3 / 10)] /\
            overlap_gt (box_at ex_low_conv ex_grid ex_data 0)
                       (nms_thresh ex_low_conv) (fst e) 1.
Proof.
  refine (survivors_complete ex_low_conv ex_grid ex_data 0%nat _ 1%nat
            survivors_low_example _ _ _).
  - cbn. lia.
  - unfold cls_max_of, cls_scores. ex_eval. cbn. lra.
  - unfold cls_max_of, cls_scores. ex_eval. cbn. lra.
Defined.

(** X5.  An image has no survivor exactly when none of its candidates has
    a combined score that is not negative and reaches the confidence
    threshold. *)
Theorem survivors_empty_iff (self : BBoxConverter) (g : Grid) (d : list R)
    (b : nat) (kept : list (nat * R)) :
  survivors self g d b = Ok kept ->
  (kept = [] <->
   forall idx, (idx < num_anchors self * (g_h g * g_w g))%nat ->
     nth idx (cls_max_of self g d b) 0 < 0 \/
     nth idx (cls_max_of self g d b) 0 < conf_thresh self).
Proof.
  intros H. split.
  - intros -> idx Hidx.
    destruct (Rlt_dec (nth idx (cls_max_of self g d b) 0) 0) as [H0 | H0];
      [left; exact H0 |].
    destruct (Rlt_dec (nth idx (cls_max_of self g d b) 0) (conf_thresh self))
      as [Hc | Hc]; [right; exact Hc |].
    exfalso. unfold survivors in H.
    destruct (nms_loop_complete (conf_thresh self) (nms_thresh self)
                (box_at self g d b) (cls_max_of self g d b)
                (ranked_of self g d b) (cls_max_of self g d b) [] idx
                (torch_sort_desc_sorted _) (marked_refl _) H
                (proj2 (ranked_of_bound self g d b idx) Hidx))
      as [Hk | (e & He & _)]; try contradiction.
    unfold eligible. split; lra.
  - intros Hall. destruct kept as [| e kept]; [reflexivity |]. exfalso.
    destruct (survivors_emitted self g d b _ H) as [Hsub Hf].
    inversion Hf as [| e' l' (Hs & H0 & Hc) _]; subst.
    assert (Hin : In (fst e) (ranked_of self g d b)).
    { eapply subseq_incl; [exact Hsub |]. left. reflexivity. }
    apply ranked_of_bound in Hin.
    destruct (Hall (fst e) Hin); lra.
Qed.

Lemma survivors_empty_iff_witness :
  [(0%nat, 9 / 10)] = [] <->
  forall idx,
    (idx < num_anchors ex_conv * (g_h ex_grid * g_w ex_grid))%nat ->
    nth idx (cls_max_of ex_conv ex_grid ex_data 0) 0 < 0 \/
    nth idx (cls_max_of ex_conv ex_grid ex_data 0) 0 < conf_thresh ex_conv.
Proof.
  exact (survivors_empty_iff ex_conv ex_grid ex_data 0%nat _
           survivors_example).
Defined.

Lemma nms_loop_first (conf nms : R) (box_of : nat -> Box) (scores : list R)
    (i : nat) (rest : list nat) (e : nat * R) (kept : list (nat * R)) :
  StronglySorted (before (fun i => nth i scores 0)) (i :: rest) ->
  nms_loop conf nms box_of (i :: rest) scores = Ok (e :: kept) ->
  e = (i, nth i scores 0).
Proof.
  intros Hs H. cbn [nms_loop] in H.
  inversion Hs as [| i' l' Hs' Hall]; subst.
  destruct (Rltb (nth i scores 0) 0) eqn:E0.
  - exfalso. apply Rltb_true in E0.
    destruct (nms_loop_emitted conf nms box_of scores rest scores _ H
                (marked_refl _)) as [Hsub Hf].
    inversion Hf as [| e' l' (Hv & Hv0 & _) _]; subst.
    assert (Hin : In (fst e) rest).
    { eapply subseq_incl; [exact Hsub |]. left. reflexivity. }
    rewrite Forall_forall in Hall. specialize (Hall _ Hin).
    unfold before in Hall. lra.
  - destruct (Rltb (nth i scores 0) conf); [discriminate |].
    destruct (suppress_from conf nms box_of (box_of i) rest scores)
      as [cls_max' | err]; [| discriminate].
    cbn [bind] in H.
    destruct (nms_loop conf nms box_of rest cls_max') as [kept' | err];
      [| discriminate].
    cbn [bind] in H. injection H as <- _. reflexivity.
Qed.

(** X6.  When an image has survivors, the first one is the top-ranked
    candidate, and no candidate of the image has a higher combined
    score. *)
Theorem first_survivor_is_best (self : BBoxConverter) (g : Grid)
    (d : list R) (b : nat) (e : nat * R) (kept : list (nat * R)) :
  survivors self g d b = Ok (e :: kept) ->
  (exists rest, ranked_of self g d b = fst e :: rest) /\
  snd e = nth (fst e) (cls_max_of self g d b) 0 /\
  forall idx, (idx < num_anchors self * (g_h g * g_w g))%nat ->
    nth idx (cls_max_of self g d b) 0 <= snd e.
Proof.
  intros H. unfold survivors in H.
  pose proof (torch_sort_desc_sorted (cls_max_of self g d b)) as Hs.
  fold (ranked_of self g d b) in Hs.
  destruct (ranked_of self g d b) as [| i rest] eqn:Er;
    [cbn in H; discriminate |].
  pose proof (nms_loop_first _ _ _ _ _ _ _ _ Hs H) as ->. cbn [fst snd].
  split; [exists rest; reflexivity |]. split; [reflexivity |].
  intros idx Hidx.
  apply (proj2 (ranked_of_bound self g d b idx)) in Hidx. rewrite Er in Hidx.
  inversion Hs as [| i' l' _ Hall]; subst.
  destruct Hidx as [<- | Hin]; [lra |].
  rewrite Forall_forall in Hall. apply (Hall idx Hin).
Qed.

Lemma first_survivor_is_best_witness :
  (exists rest, ranked_of ex_low_conv ex_grid ex_data 0
                = fst (0%nat, 9 / 10) :: rest) /\
  snd (0%nat, 9 / 10)
  = nth (fst (0%nat, 9 / 10)) (cls_max_of ex_low_conv ex_grid ex_data 0) 0 /\
  forall idx,
    (idx < num_anchors ex_low_conv * (g_h ex_grid * g_w ex_grid))%nat ->
    nth idx (cls_max_of ex_low_conv ex_grid ex_data 0) 0
    <= snd (0%nat, 9 / 10).
Proof.
  exact (first_survivor_is_best ex_low_conv ex_grid ex_data 0%nat _ _
           survivors_low_example).
Defined.

(** ** The suppression stage never raises *)

Lemma suppress_from_returns (conf nms : R) (box_of : nat -> Box) (box : Box)
    (rest : list nat) (cls_max : list R) :
  exists cls_max', suppress_from conf nms box_of box rest cls_max = Ok cls_max'.
Proof.
  revert cls_max. induction rest as [| j rest IH]; intros cls_max;
    cbn [suppress_from].
  - eexists. reflexivity.
  - destruct (Rgeb (nth j cls_max 0) 0 && Rltb (nth j cls_max 0) conf);
      [eexists; reflexivity |].
    destruct (Rgeb (nth j cls_max 0) 0); [| apply IH].
    destruct (bbox_iou_range box (box_of j)) as (v & -> & _).
    cbn [bind]. destruct (Rgtb v nms); apply IH.
Qed.

Lemma nms_loop_returns (conf nms : R) (box_of : nat -> Box)
    (order : list nat) (cls_max : list R) :
  exists kept, nms_loop conf nms box_of order cls_max = Ok kept.
Proof.
  revert cls_max. induction order as [| i rest IH]; intros cls_max;
    cbn [nms_loop].
  - eexists. reflexivity.
  - destruct (Rltb (nth i cls_max 0) 0); [apply IH |].
    destruct (Rltb (nth i cls_max 0) conf); [eexists; reflexivity |].
    destruct (suppress_from_returns conf nms box_of (box_of i) rest cls_max)
      as (cls_max' & ->).
    cbn [bind]. destruct (IH cls_max') as (kept & ->).
    cbn [bind]. eexists. reflexivity.
Qed.

(** ** Two candidates with the same geometry *)











(** ** Raising the confidence threshold *)

(** A scan writes only entries of the candidates it walks over. *)
Lemma suppress_from_frame (conf nms : R) (box_of : nat -> Box) (box : Box)
    (rest : list nat) (cls_max cls_max' : list R) (j : nat) :
  suppress_from conf nms box_of box rest cls_max = Ok cls_max' ->
  ~ In j rest -> nth j cls_max' 0 = nth j cls_max 0.
Proof.
  revert cls_max. induction rest as [| j0 rest IH]; intros cls_max H Hn;
    cbn [suppress_from] in H.
  - injection H as <-. reflexivity.
  - assert (Hj : j0 <> j) by (intros ->; apply Hn; left; reflexivity).
    assert (Hr : ~ In j rest) by (intros Hin; apply Hn; right; exact Hin).
    destruct (Rgeb (nth j0 cls_max 0) 0 && Rltb (nth j0 cls_max 0) conf).
    { injection H as <-. reflexivity. }
    destruct (Rgeb (nth j0 cls_max 0) 0); [| apply IH; assumption].
    destruct (bbox_iou box (box_of j0)) as [iou | e]; [| discriminate].
    cbn [bind] in H.
    destruct (Rgtb iou nms); [| apply IH; assumption].
    rewrite (IH _ H Hr). apply set_nth_other. exact Hj.
Qed.

Section Thresholds.
Variables (conf conf' nms : R) (box_of : nat -> Box) (scores : list R).
Hypothesis conf_le : conf <= conf'.

Let score (i : nat) : R := nth i scores 0.

Lemma in_step_set (cls_max cls_max' : list R) (j : nat) :
  in_step scores conf' cls_max cls_max' ->
  in_step scores conf' (set_nth j (-1) cls_max) (set_nth j (-1) cls_max').
Proof.
  intros (Hm & Hm' & Hlen & Hag).
  split; [apply marked_set; exact Hm |].
  split; [apply marked_set; exact Hm' |].
  split; [rewrite !set_nth_length; exact Hlen |].
  intros i Hi. destruct (Nat.eq_dec j i) as [<- | Hne].
  - destruct (Nat.lt_ge_cases j (length cls_max)) as [H1 | H1].
    + rewrite !set_nth_same by (rewrite <- ?Hlen; exact H1). reflexivity.
    + rewrite !set_nth_beyond by (rewrite <- ?Hlen; exact H1).
      apply Hag. exact Hi.
  - rewrite !set_nth_other by exact Hne. apply Hag. exact Hi.
Qed.

(** Below the higher threshold the two scans may part, but neither writes
    an entry of a candidate that reaches it. *)
Lemma scan_in_step (box : Box) (rest : list nat)
    (cls_max cls_max' cls_max1 cls_max1' : list R) :
  StronglySorted (before score) rest ->
  in_step scores conf' cls_max cls_max' ->
  suppress_from conf nms box_of box rest cls_max = Ok cls_max1 ->
  suppress_from conf' nms box_of box rest cls_max' = Ok cls_max1' ->
  in_step scores conf' cls_max1 cls_max1'.
Proof.
  revert cls_max cls_max'. induction rest as [| j0 rest IH];
    intros cls_max cls_max' Hs Hin H H'.
  - cbn in H, H'. injection H as <-. injection H' as <-. exact Hin.
  - inversion Hs as [| j0' l' Hs' Hall]; subst.
    destruct (Rle_dec conf' (score j0)) as [Hge | Hlt].
    + (* the candidate reaches both thresholds: the scans take the
         same step *)
      destruct Hin as (Hm & Hm' & Hlen & Hag).
      pose proof (Hag j0 Hge) as Hj0.
      cbn [suppress_from] in H, H'. rewrite <- Hj0 in H'.
      destruct (Rgeb (nth j0 cls_max 0) 0) eqn:E0.
      * apply Rleb_true in E0.
        assert (Hv : nth j0 cls_max 0 = score j0).
        { destruct (Hm j0) as [E | E]; [exact E | lra]. }
        rewrite (proj2 (Rltb_false (nth j0 cls_max 0) conf)) in H
          by (rewrite Hv; lra).
        rewrite (proj2 (Rltb_false (nth j0 cls_max 0) conf')) in H'
          by (rewrite Hv; lra).
        cbn [andb] in H, H'.
        destruct (bbox_iou box (box_of j0)) as [iou | e]; [| discriminate].
        cbn [bind] in H, H'.
        destruct (Rgtb iou nms).
        -- apply (IH (set_nth j0 (-1) cls_max) (set_nth j0 (-1) cls_max'));
             try assumption.
           apply in_step_set. repeat split; assumption.
        -- apply (IH cls_max cls_max'); try assumption.
           repeat split; assumption.
      * cbn [andb] in H, H'.
        apply (IH cls_max cls_max'); try assumption.
        repeat split; assumption.
    + (* every candidate walked over is below the higher threshold *)
      assert (Hbelow : forall j, conf' <= score j -> ~ In j (j0 :: rest)).
      { intros j Hj [<- | Hr]; [lra |].
        rewrite Forall_forall in Hall. specialize (Hall j Hr).
        unfold before in Hall. lra. }
      destruct Hin as (Hm & Hm' & Hlen & Hag).
      split; [eapply suppress_from_marked; eassumption |].
      split; [eapply suppress_from_marked; eassumption |].
      split.
      * rewrite (suppress_from_length _ _ _ _ _ _ _ H),
          (suppress_from_length _ _ _ _ _ _ _ H'). exact Hlen.
      * intros j Hj.
        rewrite (suppress_from_frame _ _ _ _ _ _ _ j H (Hbelow j Hj)).
        rewrite (suppress_from_frame _ _ _ _ _ _ _ j H' (Hbelow j Hj)).
        apply Hag. exact Hj.
Qed.

Lemma nothing_below (c : R) (order : list nat) (cls_max : list R)
    (kept : list (nat * R)) :
  marked scores cls_max ->
  nms_loop c nms box_of order cls_max = Ok kept ->
  (forall j, In j order -> score j < conf') ->
  filter (fun e => Rleb conf' (snd e)) kept = [].
Proof.
  intros Hm H Hall.
  destruct (nms_loop_emitted c nms box_of scores order cls_max kept H Hm)
    as [Hsub Hf].
  rewrite Forall_forall in Hf.
  assert (Hk : forall e, In e kept -> snd e < conf').
  { intros e He. destruct (Hf e He) as (Hv & _ & _). rewrite Hv.
    apply Hall. eapply subseq_incl; [exact Hsub |]. apply in_map. exact He. }
  clear - Hk. induction kept as [| e kept IH]; [reflexivity |].
  cbn [filter].
  rewrite (proj2 (Rleb_false conf' (snd e))) by (apply Hk; left; reflexivity).
  apply IH. intros e' He'. apply Hk. right. exact He'.
Qed.

Lemma nothing_emitted_below (order : list nat) (cls_max : list R)
    (kept : list (nat * R)) :
  marked scores cls_max ->
  nms_loop conf' nms box_of order cls_max = Ok kept ->
  (forall j, In j order -> score j < conf') ->
  kept = [].
Proof.
  intros Hm H Hall. destruct kept as [| e kept]; [reflexivity |]. exfalso.
  destruct (nms_loop_emitted conf' nms box_of scores order cls_max _ H Hm)
    as [Hsub Hf].
  inversion Hf as [| e' l' (Hv & _ & Hc) _]; subst.
  assert (Hin : In (fst e) order).
  { eapply subseq_incl; [exact Hsub |]. left. reflexivity. }
  specialize (Hall _ Hin). unfold score in Hall. lra.
Qed.

Lemma loop_in_step (order : list nat) (cls_max cls_max' : list R)
    (kept kept' : list (nat * R)) :
  StronglySorted (before score) order ->
  in_step scores conf' cls_max cls_max' ->
  nms_loop conf nms box_of order cls_max = Ok kept ->
  nms_loop conf' nms box_of order cls_max' = Ok kept' ->
  kept' = filter (fun e => Rleb conf' (snd e)) kept.
Proof.
  revert cls_max cls_max' kept kept'. induction order as [| idx rest IH];
    intros cls_max cls_max' kept kept' Hs Hin H H'.
  - cbn in H, H'. injection H as <-. injection H' as <-. reflexivity.
  - inversion Hs as [| i' l' Hs' Hall]; subst.
    destruct (Rle_dec conf' (score idx)) as [Hge | Hlt].
    + pose proof Hin as (Hm & Hm' & Hlen & Hag).
      pose proof (Hag idx Hge) as Hidx.
      cbn [nms_loop] in H, H'. rewrite <- Hidx in H'.
      destruct (Rltb (nth idx cls_max 0) 0) eqn:E0.
      { apply (IH cls_max cls_max'); assumption. }
      apply Rltb_false in E0.
      assert (Hv : nth idx cls_max 0 = score idx).
      { destruct (Hm idx) as [E | E]; [exact E | lra]. }
      rewrite (proj2 (Rltb_false (nth idx cls_max 0) conf)) in H
        by (rewrite Hv; lra).
      rewrite (proj2 (Rltb_false (nth idx cls_max 0) conf')) in H'
        by (rewrite Hv; lra).
      destruct (suppress_from conf nms box_of (box_of idx) rest cls_max)
        as [cm1 | e] eqn:Es; [| discriminate].
      destruct (suppress_from conf' nms box_of (box_of idx) rest cls_max')
        as [cm1' | e] eqn:Es'; [| discriminate].
      cbn [bind] in H, H'.
      destruct (nms_loop conf nms box_of rest cm1) as [k1 | e] eqn:En;
        [| discriminate].
      destruct (nms_loop conf' nms box_of rest cm1') as [k1' | e] eqn:En';
        [| discriminate].
      cbn [bind] in H, H'. injection H as <-. injection H' as <-.
      cbn [filter snd].
      rewrite (proj2 (Rleb_true conf' (nth idx cls_max 0)))
        by (rewrite Hv; exact Hge).
      f_equal.
      apply (IH cm1 cm1'); try assumption.
      apply (scan_in_step (box_of idx) rest cls_max cls_max'); assumption.
    + assert (Hbelow : forall j, In j (idx :: rest) -> score j < conf').
      { intros j [<- | Hr]; [lra |].
        rewrite Forall_forall in Hall. specialize (Hall j Hr).
        unfold before in Hall. lra. }
      destruct Hin as (Hm & Hm' & _).
      rewrite (nothing_below conf (idx :: rest) cls_max kept Hm H Hbelow).
      apply (nothing_emitted_below (idx :: rest) cls_max' kept' Hm' H' Hbelow).
Qed.
End Thresholds.

(** X8.  Raising the confidence threshold only truncates the survivors:
    with a higher threshold the survivors of an image are those of the
    lower threshold whose score reaches the higher one, in the same
    order. *)
Theorem raising_conf_truncates (self : BBoxConverter) (g : Grid)
    (d : list R) (b : nat) (conf' : R) (kept : list (nat * R)) :
  conf_thresh self <= conf' ->
  survivors self g d b = Ok kept ->
  survivors (with_conf self conf') g d b
  = Ok (filter (fun e => Rleb conf' (snd e)) kept).
Proof.
  intros Hle H.
  destruct (nms_loop_returns conf' (nms_thresh self) (box_at self g d b)
              (ranked_of self g d b) (cls_max_of self g d b))
    as (kept' & H').
  change (survivors (with_conf self conf') g d b)
    with (nms_loop conf' (nms_thresh self) (box_at self g d b)
            (ranked_of self g d b) (cls_max_of self g d b)).
  rewrite H'. f_equal. unfold survivors in H.
  apply (loop_in_step (conf_thresh self) conf' (nms_thresh self)
           (box_at self g d b) (cls_max_of self g d b) Hle
           (ranked_of self g d b) (cls_max_of self g d b)
           (cls_max_of self g d b)); try assumption.
  - apply torch_sort_desc_sorted.
  - repeat split; try apply marked_refl; reflexivity.
Qed.

Lemma raising_conf_truncates_witness :
  survivors (with_conf ex_low_conv (1 / 2)) ex_grid ex_data 0
  = Ok (filter (fun e => Rleb (1 / 2) (snd e))
               [(0%nat, 9 / 10); (1%nat, 3 / 10)]).
Proof.
  apply (raising_conf_truncates ex_low_conv ex_grid ex_data 0%nat (1 / 2)).
  - cbn. lra.
  - exact survivors_low_example.
Defined.

(** ** When a call returns *)




(** ** The caller's array after a call *)
























(** ** The range of the decoded boxes *)

(** X10.  The decoded boxes are normalized: every centre coordinate lies
    between 0 and 1, and so does the objectness; the width and the height
    are not negative when the anchor's are not. *)
Theorem decoded_box_normalized (self : BBoxConverter) (t : Tensor) (g : Grid)
    (t' : Tensor) (b a r c : nat) :
  wf_tensor t ->
  decode_stage self t = (Ok g, t') ->
  (b < g_batch g)%nat -> (a < num_anchors self)%nat ->
  (r < g_h g)%nat -> (c < g_w g)%nat ->
  let dec := fun ch =>
    get4 (num_anchors self) (g_k g) (g_h g * g_w g) (data t') b a ch
         (r * g_w g + c) in
  (0 <= dec 0%nat <= 1) /\ (0 <= dec 1%nat <= 1) /\ (0 <= dec 4%nat <= 1) /\
  (0 <= nth a (anchor_w self) 0 -> 0 <= dec 2%nat) /\
  (0 <= nth a (anchor_h self) 0 -> 0 <= dec 3%nat).
Proof.
  intros Hwf Hdec Hb Ha Hr Hc dec.
  pose proof (decoded_channel self t g t' Hwf Hdec b a r c Hb Ha Hr Hc) as Hch.
  assert (HW : 0 < INR (g_w g)) by (apply lt_0_INR; lia).
  assert (HH : 0 < INR (g_h g)) by (apply lt_0_INR; lia).
  assert (Hc0 : 0 <= INR c) by apply pos_INR.
  assert (Hr0 : 0 <= INR r) by apply pos_INR.
  assert (Hc1 : INR c + 1 <= INR (g_w g)).
  { rewrite <- S_INR. apply le_INR. lia. }
  assert (Hr1 : INR r + 1 <= INR (g_h g)).
  { rewrite <- S_INR. apply le_INR. lia. }
  assert (Hdivle : forall x z, 0 < z -> x <= z -> x / z <= 1).
  { intros x z Hz Hxz. apply Rmult_le_reg_r with z; [exact Hz |].
    unfold Rdiv. rewrite Rmult_assoc, Rinv_l by lra. lra. }
  assert (Hdiv0 : forall x z, 0 < z -> 0 <= x -> 0 <= x / z).
  { intros x z Hz Hx. apply Rmult_le_pos; [exact Hx |].
    left. apply Rinv_0_lt_compat. exact Hz. }
  unfold dec.
  rewrite (Hch 0%nat), (Hch 1%nat), (Hch 2%nat), (Hch 3%nat), (Hch 4%nat)
    by lia.
  match goal with
  | |- context [sigmoid ?x + INR c] => pose proof (sigmoid_range x) as Hx
  end.
  match goal with
  | |- context [sigmoid ?x + INR r] => pose proof (sigmoid_range x) as Hy
  end.
  split; [split; [apply Hdiv0 | apply Hdivle]; lra |].
  split; [split; [apply Hdiv0 | apply Hdivle]; lra |].
  split.
  { match goal with
    | |- 0 <= sigmoid ?x <= 1 => pose proof (sigmoid_range x); lra
    end. }
  split; intros Hanch.
  - apply Hdiv0; [exact HW |].
    apply Rmult_le_pos; [left; apply exp_pos | exact Hanch].
  - apply Hdiv0; [exact HH |].
    apply Rmult_le_pos; [left; apply exp_pos | exact Hanch].
Qed.

Lemma decoded_box_normalized_witness :
  let dec := fun ch =>
    get4 (num_anchors unit_conv) (g_k unit_grid)
         (g_h unit_grid * g_w unit_grid) (data unit_decoded) 0 0 ch
         (0 * g_w unit_grid + 0) in
  (0 <= dec 0%nat <= 1) /\ (0 <= dec 1%nat <= 1) /\ (0 <= dec 4%nat <= 1) /\
  (0 <= nth 0 (anchor_w unit_conv) 0 -> 0 <= dec 2%nat) /\
  (0 <= nth 0 (anchor_h unit_conv) 0 -> 0 <= dec 3%nat).
Proof.
  assert (Hwf : wf_tensor unit_raw) by reflexivity.
  assert (H0 : (0 < 1)%nat) by lia.
  exact (decoded_box_normalized unit_conv unit_raw unit_grid unit_decoded
           0%nat 0%nat 0%nat 0%nat Hwf decode_unit_raw H0 H0 H0 H0).
Defined.

(** ** What an error leaves behind *)

Lemma decode_shape_error_state (self : BBoxConverter) (t t' : Tensor) :
  decode_stage self t = (Raise ShapeError, t') -> t' = batched t.
Proof.
  intros H.
  unfold decode_stage, bindM, lift, ret in H.
  assert (Hst :
    (if (length (dims t) =? 3)%nat then modify unsqueeze0 else ret tt) t
    = (Ok tt, batched t)).
  { unfold batched, modify, ret. destruct (_ =? _)%nat; reflexivity. }
  unfold ret in Hst. rewrite Hst in H.
  destruct (size (batched t) 0) as [batch | e] eqn:Hb;
    [| unfold size in Hb; destruct (nth_error _ _); congruence].
  destruct (size (batched t) 2) as [h | e] eqn:Hh;
    [| unfold size in Hh; destruct (nth_error _ _); congruence].
  destruct (size (batched t) 3) as [w | e] eqn:Hw;
    [| unfold size in Hw; destruct (nth_error _ _); congruence].
  unfold view_1n1 in H.
  destruct (length (evens (anchors self)) =? num_anchors self)%nat;
    [| congruence].
  destruct (length (odds (anchors self)) =? num_anchors self)%nat;
    [| congruence].
  destruct (view_infer (batched t) batch (num_anchors self) (h * w))
    as [k | e] eqn:Hv.
  - unfold inplace_channel, modify, raise in H.
    destruct (0 <? k)%nat; [| discriminate].
    destruct (1 <? k)%nat; [| discriminate].
    destruct (2 <? k)%nat; [| discriminate].
    destruct (3 <? k)%nat; [| discriminate].
    destruct (4 <? k)%nat; discriminate.
  - congruence.
Qed.

(** X11.  A shape-mismatch error is raised before anything is written:
    the caller's array then holds its old contents (a rank-3 array has
    been given its batch dimension). *)
Theorem shape_error_writes_nothing (self : BBoxConverter) (t t' : Tensor) :
  decode_stage self t = (Raise ShapeError, t') -> t' = batched t.
Proof. exact (decode_shape_error_state self t t'). Qed.

Lemma shape_error_writes_nothing_witness :
  snd (decode_stage (mkBBoxConverter (1 / 2) (1 / 2) [1; 1; 1; 1] 1 2)
                    five_raw)
  = batched five_raw.
Proof.
  apply (shape_error_writes_nothing
           (mkBBoxConverter (1 / 2) (1 / 2) [1; 1; 1; 1] 1 2) five_raw).
  reflexivity.
Defined.

Lemma mapi_chan_other (k hw c : nat) (f : nat -> R -> R) (l : list R)
    (i : nat) :
  chan_of k hw i <> c ->
  nth i (mapi (fun j v => if (chan_of k hw j =? c)%nat then f j v else v) l) 0
  = nth i l 0.
Proof.
  intros Hne. destruct (Nat.lt_ge_cases i (length l)) as [Hi | Hi].
  - rewrite (mapi_nth _ _ _ 0 0 Hi).
    apply Nat.eqb_neq in Hne. rewrite Hne. reflexivity.
  - apply mapi_id_outside. exact Hi.
Qed.

Lemma mapi_chan_same (k hw c : nat) (f : nat -> R -> R) (l : list R)
    (i : nat) :
  (i < length l)%nat -> chan_of k hw i = c ->
  nth i (mapi (fun j v => if (chan_of k hw j =? c)%nat then f j v else v) l) 0
  = f i (nth i l 0).
Proof.
  intros Hi Hc. rewrite (mapi_nth _ _ _ 0 0 Hi).
  apply Nat.eqb_eq in Hc. rewrite Hc. reflexivity.
Qed.

(** X12.  An index error comes too late to protect the array: when the
    input has one to four channels per anchor the decode stage raises an
    index error, but the x channel of the caller's array has already been
    overwritten with decoded values. *)
Theorem index_error_after_write (self : BBoxConverter) (batch C h w : nat)
    (d : list R) (cuda : bool) :
  (0 < batch)%nat -> (0 < h)%nat -> (0 < w)%nat ->
  length (anchor_w self) = num_anchors self ->
  length (anchor_h self) = num_anchors self ->
  num_anchors self <> 0%nat ->
  (C mod num_anchors self = 0)%nat ->
  (1 <= C / num_anchors self < 5)%nat ->
  exists t',
    decode_stage self (mkTensor [batch; C; h; w] d cuda) = (Raise IndexError, t') /\
    forall i, (i < length d)%nat ->
      chan_of (C / num_anchors self) (h * w) i = 0%nat ->
      nth i (data t') 0
      = (sigmoid (nth i d 0) + nth (cell_of (h * w) i) (make_lin_x h w) 0)
        / INR w.
Proof.
  intros Hb Hh Hw Haw Hah HA Hm [Hk1 Hk5].
  unfold decode_stage, bindM, lift, ret, size.
  cbn [dims length Nat.eqb nth_error].
  unfold view_1n1. fold (anchor_w self) (anchor_h self).
  rewrite Haw, Hah, Nat.eqb_refl.
  rewrite view_infer_4 by assumption.
  apply Nat.eqb_neq in HA. rewrite HA.
  apply Nat.eqb_eq in Hm. rewrite Hm.
  unfold inplace_channel, modify, raise.
  set (k := (C / num_anchors self)%nat) in *.
  replace (0 <? k)%nat with true by (symmetry; apply Nat.ltb_lt; lia).
  cbn [dims data].
  destruct (1 <? k)%nat eqn:E1;
    [destruct (2 <? k)%nat eqn:E2;
       [destruct (3 <? k)%nat eqn:E3;
          [destruct (4 <? k)%nat eqn:E4;
             [apply Nat.ltb_lt in E4; lia |] |] |] |];
    (eexists; split; [reflexivity |]); cbn [data];
    intros i Hi Hc;
    rewrite ?mapi_chan_other by (rewrite Hc; discriminate);
    rewrite mapi_chan_same by assumption; reflexivity.
Qed.

Lemma index_error_after_write_witness :
  exists t',
    decode_stage unit_conv (mkTensor [1; 4; 1; 1]%nat [0; 0; 0; 0] false)
    = (Raise IndexError, t') /\
    forall i, (i < length [0; 0; 0; 0])%nat ->
      chan_of (4 / num_anchors unit_conv) (1 * 1) i = 0%nat ->
      nth i (data t') 0
      = (sigmoid (nth i [0; 0; 0; 0] 0)
         + nth (cell_of (1 * 1) i) (make_lin_x 1 1) 0) / INR 1.
Proof.
  apply (index_error_after_write unit_conv 1 4 1 1);
    try reflexivity; cbn; lia.
Defined.

(** ** Thresholds are not checked, errors are not all raised first *)










(** ** Errors of [BBoxToBrambox] *)

Lemma pydiv_inv (x y v : R) : pydiv x y = Ok v -> y <> 0 /\ v = x / y.
Proof.
  unfold pydiv. destruct (Reqb y 0) eqn:E; [discriminate |].
  intros H. injection H as <-. apply Reqb_false in E. split; [exact E | reflexivity].
Qed.

Lemma letterbox_scale_nonzero (net_size : R * R) (img_size : option (R * R))
    (scale : R) (pad : Z * Z) :
  letterbox net_size img_size = Ok (scale, pad) -> scale <> 0.
Proof.
  destruct net_size as [net_w net_h]. unfold letterbox.
  destruct img_size as [[im_w im_h] |].
  - destruct (Reqb im_w net_w && Reqb im_h net_h).
    + cbn [bind]. intros H. injection H as <- _. lra.
    + destruct (pydiv im_w net_w) as [rw |] eqn:Ew; [| discriminate].
      destruct (pydiv im_h net_h) as [rh |] eqn:Eh; [| discriminate].
      cbn [bind].
      apply pydiv_inv in Ew. apply pydiv_inv in Eh.
      destruct Ew as [Hnw _]. destruct Eh as [Hnh _].
      destruct (Rgeb rw rh).
      * destruct (pydiv net_w im_w) as [s |] eqn:Es; [| discriminate].
        cbn [bind]. intros H. injection H as <- _.
        apply pydiv_inv in Es. destruct Es as [Hiw ->].
        unfold Rdiv. apply Rmult_integral_contrapositive_currified;
          [exact Hnw | apply Rinv_neq_0_compat; exact Hiw].
      * destruct (pydiv net_h im_h) as [s |] eqn:Es; [| discriminate].
        cbn [bind]. intros H. injection H as <- _.
        apply pydiv_inv in Es. destruct Es as [Hih ->].
        unfold Rdiv. apply Rmult_integral_contrapositive_currified;
          [exact Hnh | apply Rinv_neq_0_compat; exact Hih].
  - intros H. injection H as <- _. lra.
Qed.



(** X15.  A class id without an entry in the label table makes
    [BBoxToBrambox] fail with an index error, wherever the box stands in
    the list and whatever the other boxes are, as long as their class ids
    are integers too. *)
Theorem brambox_label_out_of_range (boxes : list Det) (net_size : R * R)
    (img_size : option (R * R)) (labels : list String.string)
    (scale : R) (pad : Z * Z) (box : Det) (n : nat) :
  letterbox net_size img_size = Ok (scale, pad) ->
  Forall (fun b => exists m, d_class b = IntIdx m) boxes ->
  In box boxes -> d_class box = IntIdx n -> (length labels <= n)%nat ->
  BBoxToBrambox boxes net_size img_size (Some labels) = Raise IndexError.
Proof.
  intros H Hint Hin Hcls Hout.
  pose proof (letterbox_scale_nonzero _ _ _ _ H) as Hs.
  unfold BBoxToBrambox. rewrite H. cbn [bind fst snd].
  induction boxes as [| b0 boxes IH]; [contradiction |].
  cbn [mapM].
  inversion Hint as [| b0' l' (m0 & Hm0) Hint']; subst.
  assert (Hb0 :
    (exists det, to_detection (fst net_size) (snd net_size) scale pad
                              (Some labels) b0 = Ok det /\
                 (m0 < length labels)%nat) \/
    to_detection (fst net_size) (snd net_size) scale pad (Some labels) b0
    = Raise IndexError).
  { unfold to_detection. rewrite Hm0.
    destruct (nth_error labels m0) eqn:E.
    - left. cbn [bind]. rewrite pydiv_Ok by exact Hs. cbn [bind].
      eexists. split; [reflexivity |].
      apply nth_error_Some. congruence.
    - right. reflexivity. }
  destruct Hb0 as [(det & -> & Hlt) | ->]; [| reflexivity].
  cbn [bind]. destruct Hin as [-> | Hin].
  - rewrite Hcls in Hm0. injection Hm0 as <-. lia.
  - rewrite (IH Hint' Hin). reflexivity.
Qed.

Lemma brambox_label_out_of_range_witness :
  BBoxToBrambox [mkDet (mkBox (1/2) (1/2) (1/10) (1/10)) (9/10) (IntIdx 0);
                 mkDet (mkBox (1/2) (1/2) (1/10) (1/10)) (8/10) (IntIdx 3)]
                (416, 416) None (Some [String.EmptyString])
  = Raise IndexError.
Proof.
  apply (brambox_label_out_of_range _ (416, 416) None [String.EmptyString]
           1 (0%Z, 0%Z)
           (mkDet (mkBox (1/2) (1/2) (1/10) (1/10)) (8/10) (IntIdx 3)) 3).
  - reflexivity.
  - repeat (apply Forall_cons; [eexists; reflexivity |]). apply Forall_nil.
  - right. left. reflexivity.
  - reflexivity.
  - cbn. lia.
Defined.

(** ** The logger *)

Lemma py_index_nonneg {A : Type} (l : list A) (i : Z) :
  (0 <= i < Z.of_nat (length l))%Z -> exists x, py_index l i = Some x.
Proof.
  intros H. unfold py_index.
  replace (0 <=? i)%Z with true by (symmetry; apply Z.leb_le; lia).
  destruct (nth_error l (Z.to_nat i)) as [x |] eqn:E; [exists x; reflexivity |].
  apply nth_error_None in E. lia.
Qed.

Lemma py_index_last {A : Type} (l : list A) :
  l <> [] -> exists x, py_index l (-1) = Some x.
Proof.
  intros H. unfold py_index. cbn [Z.leb Z.compare].
  assert (Hlen : (0 < length l)%nat) by (destruct l; [congruence | cbn; lia]).
  replace (- Z.of_nat (length l) <=? -1)%Z with true
    by (symmetry; apply Z.leb_le; lia).
  destruct (nth_error l (Z.to_nat (Z.of_nat (length l) + -1))) as [x |] eqn:E;
    [exists x; reflexivity |].
  apply nth_error_None in E. lia.
Qed.

Lemma py_index_level {A : Type} (l : list A) (lvl : Loglvl) :
  l <> [] -> (lvl_value lvl < Z.of_nat (length l))%Z ->
  exists x, py_index l (lvl_value lvl) = Some x.
Proof.
  intros Hne Hlt. destruct lvl; cbn [lvl_value] in *;
    try (apply py_index_nonneg; lia).
  apply py_index_last. exact Hne.
Qed.

(** X17.  The logger prints a message exactly when its level is at least
    the logger's level, one line at most, and it raises the error it is
    given whether or not the message was printed.  (The tables of tags and
    colours are as [__init__] leaves them or longer: not empty, a colour
    for every tag.) *)
Theorem logger_filters_and_raises {E : Type} (self : Logger) (lvl : Loglvl)
    (msg : String.string) (error : option E) :
  lvl_msg self <> [] ->
  (length (lvl_msg self) <= length (lvl_col self))%nat ->
  (fst (Logger_call self lvl msg error) = [] <->
   (lvl_value lvl < lvl_value (level self))%Z) /\
  (length (fst (Logger_call self lvl msg error)) <= 1)%nat /\
  snd (Logger_call self lvl msg error)
  = match error with
    | Some e => LogRaised e
    | None => LogReturned
    end.
Proof.
  intros Hne Hlen. unfold Logger_call.
  destruct (lvl_value lvl >=? lvl_value (level self))%Z eqn:Ege.
  - assert (Hge : (lvl_value (level self) <= lvl_value lvl)%Z)
      by (apply Z.geb_le in Ege; lia).
    assert (Hprint : forall pre : String.string,
      let r := match error with
               | Some e =>
                   ([String.append pre (String.append " "%string msg)],
                    LogRaised e)
               | None =>
                   ([String.append pre (String.append " "%string msg)],
                    LogReturned)
               end in
      (fst r = [] <-> (lvl_value lvl < lvl_value (level self))%Z) /\
      (length (fst r) <= 1)%nat /\
      snd r = match error with
              | Some e => LogRaised e
              | None => LogReturned
              end).
    { intros pre. destruct error; cbn [fst snd length];
        (split; [split; [discriminate | lia] | split; [lia | reflexivity]]). }
    destruct (lvl_value lvl <? Z.of_nat (length (lvl_msg self)))%Z eqn:Elt;
      [| apply Hprint].
    apply Z.ltb_lt in Elt.
    destruct (py_index_level (lvl_msg self) lvl Hne Elt) as (pre & ->).
    destruct (color self); [| apply Hprint].
    assert (Hcne : lvl_col self <> []).
    { destruct (lvl_msg self); [congruence |].
      destruct (lvl_col self); [cbn in Hlen; lia | discriminate]. }
    destruct (py_index_level (lvl_col self) lvl Hcne) as (c & ->); [lia |].
    apply Hprint.
  - assert (Hlt : (lvl_value lvl < lvl_value (level self))%Z).
    { destruct (Z.lt_ge_cases (lvl_value lvl) (lvl_value (level self)))
        as [H | H]; [exact H |].
      assert (Ht : (lvl_value lvl >=? lvl_value (level self))%Z = true)
        by (apply Z.geb_le; lia).
      congruence. }
    destruct error; cbn [fst snd length];
      (split; [split; [intros _; exact Hlt | reflexivity]
              | split; [lia | reflexivity]]).
Qed.

Lemma logger_filters_and_raises_witness :
  (fst (Logger_call Logger_init DEBUG "x"%string (Some IndexError)) = [] <->
   (lvl_value DEBUG < lvl_value (level Logger_init))%Z) /\
  (length (fst (Logger_call Logger_init DEBUG "x"%string (Some IndexError)))
   <= 1)%nat /\
  snd (Logger_call Logger_init DEBUG "x"%string (Some IndexError))
  = LogRaised IndexError.
Proof.
  apply (logger_filters_and_raises Logger_init DEBUG "x"%string
           (Some IndexError)).
  - discriminate.
  - cbn. lia.
Defined.

(** X18.  With the tables of [__init__], a message whose level reaches
    the level of the logger is printed as exactly one line: a tag of seven
    characters, a space and the message, so that messages line up.  The
    tag is the entry of the level ([ALL], being -1, takes the last one,
    [NONE] has none and gets seven spaces).  When colours are on, the tag
    of every level but [NONE] is wrapped between the bold and colour
    codes and the reset code, and the reset comes before the message;
    when colours are off, the tag is plain. *)
Theorem logger_line_format {E : Type} (self : Logger) (lvl : Loglvl)
    (msg : String.string) (error : option E) :
  lvl_msg self = lvl_msg Logger_init ->
  lvl_col self = lvl_col Logger_init ->
  (lvl_value (level self) <= lvl_value lvl)%Z ->
  let tag := match lvl with
             | DEBUG => "[DEBUG]"
             | WARN => "[WARN] "
             | ERROR | ALL => "[ERROR]"
             | NONE => "       "
             end%string in
  let col := match lvl with
             | DEBUG => WHITE
             | WARN => YELLOW
             | _ => RED
             end in
  let wrapped := match lvl with
                 | NONE => false
                 | _ => color self
                 end in
  String.length tag = 7%nat /\
  fst (Logger_call self lvl msg error)
  = [if wrapped
     then String.append (color_value BOLD)
            (String.append (color_value col)
               (String.append tag
                  (String.append (color_value RESET)
                     (String.append " "%string msg))))
     else String.append tag (String.append " "%string msg)].
Proof.
  intros Hm Hc Hlvl tag col wrapped. unfold tag, col, wrapped.
  split; [destruct lvl; reflexivity |].
  unfold Logger_call. rewrite Hm, Hc.
  replace (lvl_value lvl >=? lvl_value (level self))%Z with true
    by (symmetry; apply Z.geb_le; exact Hlvl).
  destruct lvl; destruct (color self); destruct error; reflexivity.
Qed.

Lemma logger_line_format_witness :
  String.length "[ERROR]"%string = 7%nat /\
  fst (Logger_call (E := PyError) Logger_init ERROR "disk full"%string None)
  = [String.append (color_value BOLD)
       (String.append (color_value RED)
          (String.append "[ERROR]"%string
             (String.append (color_value RESET)
                (String.append " "%string "disk full"%string))))].
Proof.
  apply (logger_line_format (E := PyError) Logger_init ERROR
           "disk full"%string None).
  - reflexivity.
  - reflexivity.
  - cbn. lia.
Defined.

(** ** Weight files *)

Section WeightsFacts.
Local Open Scope Z_scope.

Lemma le_encode_length (n : nat) (v : Z) : length (le_encode n v) = n.
Proof.
  revert v. induction n as [| n IH]; intros v; cbn [le_encode length];
    [reflexivity |].
  rewrite IH. reflexivity.
Qed.

Lemma le_decode_encode (n : nat) (v : Z) :
  le_decode (le_encode n v) = v mod 256 ^ Z.of_nat n.
Proof.
  revert v. induction n as [| n IH]; intros v; cbn [le_encode le_decode].
  - cbn. rewrite Z.mod_1_r. reflexivity.
  - rewrite IH, Nat2Z.inj_succ, Z.pow_succ_r by lia.
    rewrite Z.rem_mul_r by (try apply Z.pow_pos_nonneg; lia).
    reflexivity.
Qed.

Lemma decode_encode_item (t : dtype) (v : Z) :
  fits t v -> decode_item t (encode_item t v) = v.
Proof.
  intros H. destruct t; cbn [fits] in H;
    unfold decode_item, encode_item, to_signed, to_unsigned;
    rewrite le_decode_encode.
  - change (256 ^ Z.of_nat 4) with 4294967296.
    change (2 ^ 32) with 4294967296 in *.
    change (2 ^ (32 - 1)) with 2147483648.
    change (2 ^ 31) with 2147483648 in H.
    rewrite Z.mod_mod by lia.
    destruct (v mod 4294967296 <? 2147483648) eqn:E;
      [apply Z.ltb_lt in E | apply Z.ltb_ge in E];
      Z.div_mod_to_equations; lia.
  - change (256 ^ Z.of_nat 8) with 18446744073709551616.
    change (2 ^ 64) with 18446744073709551616 in *.
    change (2 ^ (64 - 1)) with 9223372036854775808.
    change (2 ^ 63) with 9223372036854775808 in H.
    rewrite Z.mod_mod by lia.
    destruct (v mod 18446744073709551616 <? 9223372036854775808) eqn:E;
      [apply Z.ltb_lt in E | apply Z.ltb_ge in E];
      Z.div_mod_to_equations; lia.
  - change (256 ^ Z.of_nat 4) with 4294967296.
    change (2 ^ 32) with 4294967296 in H.
    apply Z.mod_small. exact H.
Qed.

Lemma encode_item_length (t : dtype) (v : Z) :
  length (encode_item t v) = itemsize t.
Proof. destruct t; apply le_encode_length. Qed.

Lemma tofile_length (t : dtype) (arr : list Z) :
  length (tofile t arr) = (itemsize t * length arr)%nat.
Proof.
  unfold tofile. induction arr as [| v arr IH]; cbn [flat_map length];
    [lia |].
  rewrite length_app, encode_item_length, IH. lia.
Qed.

Lemma itemsize_pos (t : dtype) : (0 < itemsize t)%nat.
Proof. destruct t; cbn; lia. Qed.

Lemma skipn_encode_item (t : dtype) (v : Z) (l : list Z) :
  skipn (itemsize t) (encode_item t v ++ l) = l.
Proof.
  rewrite <- (encode_item_length t v).
  rewrite skipn_app, skipn_all, Nat.sub_diag. reflexivity.
Qed.

Lemma firstn_encode_item (t : dtype) (v : Z) (l : list Z) :
  firstn (itemsize t) (encode_item t v ++ l) = encode_item t v.
Proof.
  rewrite <- (encode_item_length t v).
  rewrite firstn_app, firstn_all, Nat.sub_diag. cbn [firstn].
  apply app_nil_r.
Qed.

(** Reading back what [tofile] wrote. *)
Lemma fromfile_tofile (t : dtype) (arr rest : list Z) :
  Forall (fits t) arr ->
  fromfile_count t (length arr) (tofile t arr ++ rest) = (arr, rest).
Proof.
  intros H. induction H as [| v arr Hv _ IH]; [reflexivity |].
  cbn [length fromfile_count tofile flat_map].
  fold (tofile t arr). rewrite <- app_assoc.
  pose proof (encode_item_length t v) as Hlen.
  replace (length (encode_item t v ++ tofile t arr ++ rest) <? itemsize t)%nat
    with false
    by (symmetry; apply Nat.ltb_ge; rewrite length_app; lia).
  rewrite skipn_encode_item, firstn_encode_item, IH.
  rewrite decode_encode_item by exact Hv. reflexivity.
Qed.

Lemma fromfile_tofile_all (t : dtype) (arr : list Z) (count : nat) :
  Forall (fits t) arr -> (length arr <= count)%nat ->
  fromfile_count t count (tofile t arr) = (arr, []).
Proof.
  intros H. revert count. induction H as [| v arr Hv _ IH]; intros count Hc.
  - destruct count; [reflexivity |]. cbn [fromfile_count tofile flat_map length].
    replace (0 <? itemsize t)%nat with true
      by (symmetry; apply Nat.ltb_lt; apply itemsize_pos).
    reflexivity.
  - destruct count as [| count]; [cbn in Hc; lia |].
    cbn [fromfile_count tofile flat_map]. fold (tofile t arr).
    pose proof (encode_item_length t v) as Hlen.
    replace (length (encode_item t v ++ tofile t arr) <? itemsize t)%nat
      with false
      by (symmetry; apply Nat.ltb_ge; rewrite length_app; lia).
    rewrite skipn_encode_item, firstn_encode_item.
    rewrite IH by (cbn in Hc; lia).
    rewrite decode_encode_item by exact Hv. reflexivity.
Qed.

Lemma fromfile_all_tofile (t : dtype) (arr : list Z) :
  Forall (fits t) arr -> fromfile_all t (tofile t arr) = arr.
Proof.
  intros H. unfold fromfile_all.
  rewrite fromfile_tofile_all; [reflexivity | exact H |].
  rewrite tofile_length. pose proof (itemsize_pos t). nia.
Qed.

Lemma tofile_concat (t : dtype) (arrs : list (list Z)) :
  flat_map (tofile t) arrs = tofile t (concat arrs).
Proof.
  unfold tofile. induction arrs as [| a arrs IH]; [reflexivity |].
  cbn [flat_map concat]. rewrite flat_map_app, IH. reflexivity.
Qed.


(** *** Loading a tensor *)

Lemma load_param_cases (self : WeightLoader) (n : nat) (target : Param) :
  (wl_start self <= length (wl_buf self))%nat ->
  length target = n ->
  ((wl_start self + n <= length (wl_buf self))%nat /\
   load_param self n target
   = Done (advance self n, firstn n (skipn (wl_start self) (wl_buf self))))
  \/
  ((length (wl_buf self) < wl_start self + n)%nat /\
   load_param self n target = Failed WSizeMismatch).
Proof.
  intros Hs Hn. unfold load_param.
  rewrite length_firstn, length_skipn, Hn.
  destruct (Nat.le_gt_cases (wl_start self + n) (length (wl_buf self)))
    as [Hle | Hgt].
  - left. split; [exact Hle |].
    replace (Nat.min n (length (wl_buf self) - wl_start self) =? n)%nat
      with true by (symmetry; apply Nat.eqb_eq; lia).
    reflexivity.
  - right. split; [exact Hgt |].
    replace (Nat.min n (length (wl_buf self) - wl_start self) =? n)%nat
      with false by (symmetry; apply Nat.eqb_neq; lia).
    reflexivity.
Qed.

Lemma firstn_then_firstn {A : Type} (a b : nat) (l : list A) :
  firstn a l ++ firstn b (skipn a l) = firstn (a + b) l.
Proof.
  revert l. induction a as [| a IH]; intros l; [reflexivity |].
  destruct l as [| x l]; [cbn; rewrite firstn_nil; reflexivity |].
  cbn [firstn skipn Nat.add app]. rewrite IH. reflexivity.
Qed.

Lemma slice_then_slice (buf : list Z) (s a b : nat) :
  firstn a (skipn s buf) ++ firstn b (skipn (s + a) buf)
  = firstn (a + b) (skipn s buf).
Proof.
  rewrite <- firstn_then_firstn, skipn_skipn.
  rewrite (Nat.add_comm a s). reflexivity.
Qed.

Lemma advance_advance (self : WeightLoader) (a b : nat) :
  advance (advance self a) b = advance self (a + b).
Proof. unfold advance. cbn. rewrite Nat.add_assoc. reflexivity. Qed.


Lemma layer_numel_conv (b w : Param) :
  layer_numel (Conv2d (Some b) w) = (length b + length w)%nat.
Proof.
  unfold layer_numel, layer_params. cbn [concat].
  rewrite !length_app. cbn [length]. lia.
Qed.

Lemma layer_numel_fc (b w : Param) :
  layer_numel (Linear (Some b) w) = (length b + length w)%nat.
Proof.
  unfold layer_numel, layer_params. cbn [concat].
  rewrite !length_app. cbn [length]. lia.
Qed.

Lemma layer_numel_convbatch (c b w m v : Param) :
  layer_numel (Conv2dBatchLeaky c b w m v)
  = (length b + length w + length m + length v + length c)%nat.
Proof.
  unfold layer_numel, layer_params. cbn [concat].
  rewrite !length_app. cbn [length]. lia.
Qed.

(** One tensor after the other: either the next one is there, or the
    buffer is too short for it. *)
Ltac load_next self n target Hs Hn :=
  let Hle := fresh "Hle" in
  let E := fresh "E" in
  destruct (load_param_cases self n target Hs Hn)
    as [[Hle E] | [Hle E]]; rewrite E.

Lemma load_two_ok (self : WeightLoader) (b w : Param) :
  (wl_start self <= length (wl_buf self))%nat ->
  (wl_start self + (length b + length w) <= length (wl_buf self))%nat ->
  exists b' w',
    load_param self (length b) b = Done (advance self (length b), b') /\
    load_param (advance self (length b)) (length w) w
    = Done (advance self (length b + length w), w') /\
    length b' = length b /\ length w' = length w /\
    b' ++ w' = firstn (length b + length w)
                      (skipn (wl_start self) (wl_buf self)).
Proof.
  intros Hs Htot.
  destruct (load_param_cases self (length b) b Hs eq_refl)
    as [[H1 E1] | [H1 _]]; [| lia].
  assert (Hs1 : (wl_start (advance self (length b))
                 <= length (wl_buf (advance self (length b))))%nat)
    by (cbn; lia).
  destruct (load_param_cases (advance self (length b)) (length w) w Hs1
              eq_refl) as [[H2 E2] | [H2 _]]; [| cbn in H2; lia].
  eexists. eexists. split; [exact E1 |].
  rewrite advance_advance in E2. split; [exact E2 |].
  cbn [advance wl_start wl_buf] in *.
  split; [rewrite length_firstn, length_skipn; lia |].
  split; [rewrite length_firstn, length_skipn; lia |].
  apply slice_then_slice.
Qed.

Lemma load_layer_ok (self : WeightLoader) (layer : Layer) :
  supported layer ->
  (wl_start self <= length (wl_buf self))%nat ->
  (wl_start self + layer_numel layer <= length (wl_buf self))%nat ->
  exists layer',
    load_layer self layer = (advance self (layer_numel layer), layer', Done tt)
    /\ same_shape layer layer' /\
    concat (layer_params layer')
    = firstn (layer_numel layer) (skipn (wl_start self) (wl_buf self)).
Proof.
  intros Hsup Hs Htot.
  destruct layer as [[b |] w | c b w m v | [b |] w |]; cbn [supported] in Hsup;
    try contradiction.
  - rewrite layer_numel_conv in *.
    destruct (load_two_ok self b w Hs Htot)
      as (b' & w' & E1 & E2 & Hb & Hw & Hcat).
    exists (Conv2d (Some b') w'). cbn [load_layer _load_conv].
    rewrite E1, E2. split; [reflexivity |].
    split; [cbn; lia |]. cbn [layer_params concat].
    rewrite app_nil_r. exact Hcat.
  - rewrite layer_numel_convbatch in *.
    destruct Hsup as (Hw & Hm & Hv).
    cbn [load_layer]. unfold _load_convbatch. cbv zeta.
    load_next self (length b) b Hs (eq_refl (length b)); [| lia].
    assert (Hs1 : (wl_start (advance self (length b))
                   <= length (wl_buf (advance self (length b))))%nat)
      by (cbn; lia).
    load_next (advance self (length b)) (length b) w Hs1 Hw;
      [| cbn in *; lia].
    rewrite advance_advance in *.
    assert (Hs2 : (wl_start (advance self (length b + length b))
                   <= length (wl_buf (advance self (length b + length b))))%nat)
      by (cbn in *; lia).
    load_next (advance self (length b + length b)) (length b) m Hs2 Hm;
      [| cbn in *; lia].
    rewrite advance_advance in *.
    assert (Hs3 :
      (wl_start (advance self (length b + length b + length b))
       <= length (wl_buf (advance self (length b + length b + length b))))%nat)
      by (cbn in *; lia).
    load_next (advance self (length b + length b + length b)) (length b) v
              Hs3 Hv; [| cbn in *; lia].
    rewrite advance_advance in *.
    assert (Hs4 :
      (wl_start (advance self (length b + length b + length b + length b))
       <= length (wl_buf (advance self (length b + length b + length b
                                        + length b))))%nat)
      by (cbn in *; lia).
    load_next (advance self (length b + length b + length b + length b))
              (length c) c Hs4 (eq_refl (length c)); [| cbn in *; lia].
    rewrite advance_advance.
    eexists. split.
    + rewrite Hw, Hm, Hv. reflexivity.
    + cbn [advance wl_start wl_buf] in *. split.
      * cbn [same_shape].
        rewrite !length_firstn, !length_skipn. lia.
      * cbn [layer_params concat]. rewrite app_nil_r.
        rewrite Hw, Hm, Hv.
        rewrite !app_assoc.
        rewrite !slice_then_slice. reflexivity.
  - rewrite layer_numel_fc in *.
    destruct (load_two_ok self b w Hs Htot)
      as (b' & w' & E1 & E2 & Hb & Hw & Hcat).
    exists (Linear (Some b') w'). cbn [load_layer _load_fc].
    rewrite E1, E2. split; [reflexivity |].
    split; [cbn; lia |]. cbn [layer_params concat].
    rewrite app_nil_r. exact Hcat.
Qed.


Ltac load_fails :=
  eexists; eexists;
  (split; [reflexivity | cbn in *; split; [reflexivity | lia]]).

Lemma load_layer_short (self : WeightLoader) (layer : Layer) :
  supported layer ->
  (wl_start self <= length (wl_buf self))%nat ->
  (length (wl_buf self) < wl_start self + layer_numel layer)%nat ->
  exists self' layer',
    load_layer self layer = (self', layer', Failed WSizeMismatch) /\
    wl_buf self' = wl_buf self /\
    (wl_start self <= wl_start self' <= length (wl_buf self))%nat.
Proof.
  intros Hsup Hs Htot.
  destruct layer as [[b |] w | c b w m v | [b |] w |]; cbn [supported] in Hsup;
    try contradiction.
  - rewrite layer_numel_conv in *. cbn [load_layer _load_conv].
    load_next self (length b) b Hs (eq_refl (length b)); [| load_fails].
    assert (Hs1 : (wl_start (advance self (length b))
                   <= length (wl_buf (advance self (length b))))%nat)
      by (cbn; lia).
    load_next (advance self (length b)) (length w) w Hs1
              (eq_refl (length w)); [cbn in *; lia | load_fails].
  - rewrite layer_numel_convbatch in *.
    destruct Hsup as (Hw & Hm & Hv).
    cbn [load_layer]. unfold _load_convbatch. cbv zeta.
    load_next self (length b) b Hs (eq_refl (length b)); [| load_fails].
    assert (Hs1 : (wl_start (advance self (length b))
                   <= length (wl_buf (advance self (length b))))%nat)
      by (cbn; lia).
    load_next (advance self (length b)) (length b) w Hs1 Hw;
      [| load_fails].
    rewrite advance_advance in *.
    assert (Hs2 : (wl_start (advance self (length b + length b))
                   <= length (wl_buf (advance self (length b + length b))))%nat)
      by (cbn in *; lia).
    load_next (advance self (length b + length b)) (length b) m Hs2 Hm;
      [| load_fails].
    rewrite advance_advance in *.
    assert (Hs3 :
      (wl_start (advance self (length b + length b + length b))
       <= length (wl_buf (advance self (length b + length b + length b))))%nat)
      by (cbn in *; lia).
    load_next (advance self (length b + length b + length b)) (length b) v
              Hs3 Hv; [| load_fails].
    rewrite advance_advance in *.
    assert (Hs4 :
      (wl_start (advance self (length b + length b + length b + length b))
       <= length (wl_buf (advance self (length b + length b + length b
                                        + length b))))%nat)
      by (cbn in *; lia).
    load_next (advance self (length b + length b + length b + length b))
              (length c) c Hs4 (eq_refl (length c));
      [cbn in *; lia | load_fails].
  - rewrite layer_numel_fc in *. cbn [load_layer _load_fc].
    load_next self (length b) b Hs (eq_refl (length b)); [| load_fails].
    assert (Hs1 : (wl_start (advance self (length b))
                   <= length (wl_buf (advance self (length b))))%nat)
      by (cbn; lia).
    load_next (advance self (length b)) (length w) w Hs1
              (eq_refl (length w)); [cbn in *; lia | load_fails].
Qed.


(** *** Shapes *)

Lemma app_inj_length {A : Type} (a a' b b' : list A) :
  length a = length a' -> a ++ b = a' ++ b' -> a = a' /\ b = b'.
Proof.
  revert a'. induction a as [| x a IH]; intros [| x' a'] Hl H;
    cbn in Hl; try discriminate.
  - split; [reflexivity | exact H].
  - cbn in H. injection H as -> H. injection Hl as Hl.
    destruct (IH a' Hl H) as [-> ->]. split; reflexivity.
Qed.

Lemma same_shape_numel (l1 l2 : Layer) :
  same_shape l1 l2 -> layer_numel l1 = layer_numel l2.
Proof.
  destruct l1 as [[b1 |] w1 | c1 b1 w1 m1 v1 | [b1 |] w1 |];
    destruct l2 as [[b2 |] w2 | c2 b2 w2 m2 v2 | [b2 |] w2 |];
    cbn [same_shape]; try contradiction; intros H;
    rewrite ?layer_numel_conv, ?layer_numel_fc, ?layer_numel_convbatch; lia.
Qed.

Lemma same_shape_supported (l1 l2 : Layer) :
  same_shape l1 l2 -> supported l1 -> supported l2.
Proof.
  destruct l1 as [[b1 |] w1 | c1 b1 w1 m1 v1 | [b1 |] w1 |];
    destruct l2 as [[b2 |] w2 | c2 b2 w2 m2 v2 | [b2 |] w2 |];
    cbn [same_shape supported]; try contradiction; intros H Hs;
    try exact I; lia.
Qed.

Lemma same_shape_trans (l1 l2 l3 : Layer) :
  same_shape l1 l2 -> same_shape l2 l3 -> same_shape l1 l3.
Proof.
  destruct l1 as [[b1 |] w1 | c1 b1 w1 m1 v1 | [b1 |] w1 |];
    destruct l2 as [[b2 |] w2 | c2 b2 w2 m2 v2 | [b2 |] w2 |];
    cbn [same_shape]; try contradiction;
    destruct l3 as [[b3 |] w3 | c3 b3 w3 m3 v3 | [b3 |] w3 |];
    cbn [same_shape]; try contradiction; intros H1 H2; lia.
Qed.

Lemma same_shape_params (l1 l2 : Layer) :
  same_shape l1 l2 ->
  concat (layer_params l1) = concat (layer_params l2) -> l1 = l2.
Proof.
  destruct l1 as [[b1 |] w1 | c1 b1 w1 m1 v1 | [b1 |] w1 |];
    destruct l2 as [[b2 |] w2 | c2 b2 w2 m2 v2 | [b2 |] w2 |];
    cbn [same_shape]; try contradiction; intros H E;
    cbn [layer_params concat] in E; rewrite ?app_nil_r in E.
  - destruct H as [Hb Hw].
    destruct (app_inj_length _ _ _ _ Hb E) as [-> ->]. reflexivity.
  - destruct H as (Hc & Hb & Hw & Hm & Hv).
    destruct (app_inj_length _ _ _ _ Hb E) as [-> E1].
    destruct (app_inj_length _ _ _ _ Hw E1) as [-> E2].
    destruct (app_inj_length _ _ _ _ Hm E2) as [-> E3].
    destruct (app_inj_length _ _ _ _ Hv E3) as [-> ->]. reflexivity.
  - destruct H as [Hb Hw].
    destruct (app_inj_length _ _ _ _ Hb E) as [-> ->]. reflexivity.
Qed.

(** *** A whole network *)

Lemma firstn_skipn_middle {A : Type} (pre x post : list A) :
  firstn (length x) (skipn (length pre) (pre ++ x ++ post)) = x.
Proof.
  rewrite skipn_app, skipn_all, Nat.sub_diag. cbn [skipn app].
  rewrite firstn_app, firstn_all, Nat.sub_diag. cbn [firstn].
  apply app_nil_r.
Qed.

Lemma load_layers_exact (self : WeightLoader) (layers targets : list Layer)
    (pre post : list Z) :
  Forall supported layers ->
  Forall2 same_shape layers targets ->
  wl_buf self = pre ++ concat (flat_map layer_params layers) ++ post ->
  wl_start self = length pre ->
  load_layers self targets
  = (advance self (length (concat (flat_map layer_params layers))),
     layers, Done tt).
Proof.
  intros Hsup Hsh. revert self pre.
  induction Hsh as [| layer target layers targets Hst Hsh IH];
    intros self pre Hbuf Hstart.
  - cbn. unfold advance. rewrite Nat.add_0_r. destruct self; reflexivity.
  - inversion Hsup as [| l' ls' Hl Hls]; subst.
    cbn [flat_map] in Hbuf. rewrite concat_app, <- app_assoc in Hbuf.
    assert (Hx : length (concat (layer_params layer)) = layer_numel target).
    { rewrite <- (same_shape_numel _ _ Hst). reflexivity. }
    assert (Hs : (wl_start self <= length (wl_buf self))%nat).
    { rewrite Hbuf, Hstart, length_app. lia. }
    assert (Htot : (wl_start self + layer_numel target
                    <= length (wl_buf self))%nat).
    { rewrite Hbuf, Hstart, !length_app, <- Hx. lia. }
    destruct (load_layer_ok self target (same_shape_supported _ _ Hst Hl)
                Hs Htot) as (layer' & E & Hsh' & Hcat).
    rewrite Hbuf, Hstart, <- Hx, firstn_skipn_middle in Hcat.
    assert (Heq : layer = layer').
    { apply same_shape_params; [| symmetry; exact Hcat].
      eapply same_shape_trans; eassumption. }
    subst layer'.
    cbn [load_layers]. rewrite E.
    rewrite (IH Hls (advance self (layer_numel target))
                (pre ++ concat (layer_params layer))).
    + rewrite advance_advance. cbn [flat_map].
      rewrite concat_app, length_app, Hx. reflexivity.
    + cbn [advance wl_buf]. rewrite Hbuf, <- app_assoc. reflexivity.
    + cbn [advance wl_start]. rewrite Hstart, length_app, Hx. reflexivity.
Qed.

Lemma append_weights_app (self : WeightSaver) (a b : list Param) :
  append_weights (append_weights self a) b = append_weights self (a ++ b).
Proof. unfold append_weights. cbn. rewrite app_assoc. reflexivity. Qed.

Lemma save_layer_supported (self : WeightSaver) (layer : Layer) :
  supported layer ->
  save_layer self layer = (append_weights self (layer_params layer), Done tt).
Proof.
  destruct layer as [[b |] w | c b w m v | [b |] w |]; cbn [supported];
    try contradiction; reflexivity.
Qed.

Lemma save_layers_supported (self : WeightSaver) (layers : list Layer) :
  Forall supported layers ->
  save_layers self layers
  = (append_weights self (flat_map layer_params layers), Done tt).
Proof.
  intros H. revert self. induction H as [| layer layers Hl _ IH]; intros self.
  - cbn. unfold append_weights. rewrite app_nil_r. destruct self; reflexivity.
  - cbn [save_layers flat_map]. rewrite save_layer_supported by exact Hl.
    rewrite IH, append_weights_app. reflexivity.
Qed.

Lemma loader_reads_written (h0 h1 h2 seen : Z) (words : list Z) :
  fits int32 h0 -> fits int32 h1 -> fits int32 h2 ->
  fits (seen_type_of (h0 * 100 + h1 * 10 + h2)) seen ->
  Forall is_word32 words ->
  snd (WeightLoader_init
         (tofile int32 [h0; h1; h2]
          ++ tofile (seen_type_of (h0 * 100 + h1 * 10 + h2)) [seen]
          ++ tofile float32 words))
  = Done (mkWeightLoader [h0; h1; h2] seen words 0 (length words)).
Proof.
  intros H0 H1 H2 Hseen Hw. unfold WeightLoader_init.
  rewrite (fromfile_tofile int32 [h0; h1; h2])
    by (repeat (apply Forall_cons; [assumption |]); apply Forall_nil).
  cbn [ver_num_of]. unfold seen_type_of in *.
  set (ver := h0 * 100 + h1 * 10 + h2) in *.
  destruct (ver <=? 19) eqn:E19.
  - rewrite (fromfile_tofile int32 [seen])
      by (repeat (apply Forall_cons; [assumption |]); apply Forall_nil).
    cbn [snd]. rewrite fromfile_all_tofile by exact Hw. reflexivity.
  - destruct (ver <=? 29);
      rewrite (fromfile_tofile int64 [seen])
        by (repeat (apply Forall_cons; [assumption |]); apply Forall_nil);
      cbn [snd]; rewrite fromfile_all_tofile by exact Hw; reflexivity.
Qed.


Lemma float32_layers_words (layers : list Layer) :
  Forall float32_layer layers ->
  Forall is_word32 (concat (flat_map layer_params layers)).
Proof.
  intros H. induction H as [| layer layers Hl _ IH]; [constructor |].
  cbn [flat_map]. rewrite concat_app. apply Forall_app. split; [| exact IH].
  unfold float32_layer in Hl. clear IH.
  induction Hl as [| p ps Hp _ IHp]; [constructor |].
  cbn [concat]. apply Forall_app. split; assumption.
Qed.

(** Wrapping keeps the residue modulo 2^32, so the wraps inside a sum can
    be dropped, and a number that fits is left alone. *)
Lemma wrap32_mod (a : Z) : wrap32 a mod 2 ^ 32 = a mod 2 ^ 32.
Proof.
  unfold wrap32, to_signed, to_unsigned.
  destruct (a mod 2 ^ 32 <? 2 ^ (32 - 1)).
  - apply Z.mod_mod. lia.
  - rewrite Zminus_mod, Z_mod_same_full, Z.sub_0_r, !Z.mod_mod by lia.
    reflexivity.
Qed.

Lemma wrap32_add (a b : Z) : wrap32 (wrap32 a + wrap32 b) = wrap32 (a + b).
Proof.
  unfold wrap32 at 1. unfold to_unsigned.
  rewrite Z.add_mod, !wrap32_mod, <- Z.add_mod by lia. reflexivity.
Qed.

Lemma wrap32_add_l (a b : Z) : wrap32 (wrap32 a + b) = wrap32 (a + b).
Proof.
  unfold wrap32 at 1. unfold to_unsigned.
  rewrite Z.add_mod, wrap32_mod, <- Z.add_mod by lia. reflexivity.
Qed.

Lemma wrap32_fits (v : Z) : fits int32 v -> wrap32 v = v.
Proof.
  unfold fits, wrap32, to_signed, to_unsigned. intros H.
  destruct (Z.ltb_spec (v mod 2 ^ 32) (2 ^ (32 - 1))) as [Hlt | Hge];
    change (2 ^ (32 - 1)) with 2147483648 in *;
    change (2 ^ 32) with 4294967296 in *;
    change (2 ^ 31) with 2147483648 in *;
    Z.div_mod_to_equations; lia.
Qed.

Lemma ver_num_int32_three (h0 h1 h2 : Z) :
  ver_num_int32 [h0; h1; h2] = Some (wrap32 (h0 * 100 + h1 * 10 + h2)).
Proof.
  cbn [ver_num_int32]. rewrite wrap32_add, wrap32_add_l. reflexivity.
Qed.

Lemma WeightSaver_init_three (h0 h1 h2 seen : Z) :
  fits int32 (h0 * 100 + h1 * 10 + h2) ->
  snd (WeightSaver_init [h0; h1; h2] seen)
  = Done (mkWeightSaver [] [h0; h1; h2] seen
                        (seen_type_of (h0 * 100 + h1 * 10 + h2))).
Proof.
  intros Hv. unfold WeightSaver_init, seen_type_of.
  rewrite ver_num_int32_three, (wrap32_fits _ Hv).
  destruct (h0 * 100 + h1 * 10 + h2 <=? 19); [reflexivity |].
  destruct (h0 * 100 + h1 * 10 + h2 <=? 29); reflexivity.
Qed.

(** X19.  Saving and loading are inverse to each other.  A network of
    supported [float32] layers saved under a three-number header and a
    [seen] count that fit their types, with a version number
    [100 * major + 10 * minor + revision] that fits 32 bits as well (the
    saver computes it on [int32] scalars, the loader on Python integers),
    gives a file from which the loader recovers the header and [seen],
    and from which loading layers of the same shapes, in the same order,
    restores every tensor and consumes the buffer exactly. *)
Theorem save_load_round_trip (h0 h1 h2 seen : Z)
    (layers targets : list Layer) :
  fits int32 h0 -> fits int32 h1 -> fits int32 h2 ->
  fits int32 (h0 * 100 + h1 * 10 + h2) ->
  fits (seen_type_of (h0 * 100 + h1 * 10 + h2)) seen ->
  Forall supported layers ->
  Forall float32_layer layers ->
  Forall2 same_shape layers targets ->
  exists sv0 sv loader loader',
    snd (WeightSaver_init [h0; h1; h2] seen) = Done sv0 /\
    save_layers sv0 layers = (sv, Done tt) /\
    snd (WeightLoader_init (snd (write_file sv))) = Done loader /\
    wl_header loader = [h0; h1; h2] /\
    wl_seen loader = seen /\
    load_layers loader targets = (loader', layers, Done tt) /\
    wl_start loader' = wl_size loader'.
Proof.
  intros H0 H1 H2 Hver Hseen Hsup Hfl Hsh.
  set (words := concat (flat_map layer_params layers)).
  set (sv0 := mkWeightSaver [] [h0; h1; h2] seen
                (seen_type_of (h0 * 100 + h1 * 10 + h2))).
  set (loader := mkWeightLoader [h0; h1; h2] seen words 0 (length words)).
  exists sv0, (append_weights sv0 (flat_map layer_params layers)),
    loader, (advance loader (length words)).
  split; [apply WeightSaver_init_three; exact Hver |].
  split; [apply save_layers_supported; exact Hsup |].
  split.
  { unfold write_file, append_weights, sv0.
    cbn [snd ws_header ws_seen ws_seen_type ws_weights app].
    rewrite tofile_concat. fold words.
    apply loader_reads_written; try assumption.
    apply float32_layers_words. exact Hfl. }
  split; [reflexivity |]. split; [reflexivity |].
  split; [| reflexivity].
  apply (load_layers_exact loader layers targets [] []); try assumption.
  - cbn [app]. rewrite app_nil_r. reflexivity.
  - reflexivity.
Qed.

Lemma save_load_round_trip_witness :
  exists sv0 sv loader loader',
    snd (WeightSaver_init [0; 1; 0] 7) = Done sv0 /\
    save_layers sv0 [Conv2d (Some [1; 2]) [3; 4; 5];
                     Conv2dBatchLeaky [9] [1] [2] [3] [4]]
    = (sv, Done tt) /\
    snd (WeightLoader_init (snd (write_file sv))) = Done loader /\
    wl_header loader = [0; 1; 0] /\
    wl_seen loader = 7 /\
    load_layers loader [Conv2d (Some [0; 0]) [0; 0; 0];
                        Conv2dBatchLeaky [0] [0] [0] [0] [0]]
    = (loader', [Conv2d (Some [1; 2]) [3; 4; 5];
                 Conv2dBatchLeaky [9] [1] [2] [3] [4]], Done tt) /\
    wl_start loader' = wl_size loader'.
Proof.
  apply (save_load_round_trip 0 1 0 7).
  - unfold fits. simpl. lia.
  - unfold fits. simpl. lia.
  - unfold fits. simpl. lia.
  - unfold fits. simpl. lia.
  - unfold fits. simpl. lia.
  - repeat constructor.
  - unfold float32_layer, is_word32. simpl. repeat constructor; lia.
  - repeat constructor.
Defined.

(** X20.  Loading a supported layer consumes exactly its number of
    elements: when the buffer holds that many from the current position
    the position advances by that number, the layer keeps its shape and
    its tensors are, in file order, that slice of the buffer; otherwise
    the call fails with a size mismatch, the position staying within the
    buffer.  The buffer itself is never changed. *)
Theorem load_layer_consumes (self : WeightLoader) (layer : Layer) :
  supported layer ->
  (wl_start self <= length (wl_buf self))%nat ->
  ((wl_start self + layer_numel layer <= length (wl_buf self))%nat ->
   exists layer',
     load_layer self layer
     = (advance self (layer_numel layer), layer', Done tt) /\
     same_shape layer layer' /\
     concat (layer_params layer')
     = firstn (layer_numel layer) (skipn (wl_start self) (wl_buf self))) /\
  ((length (wl_buf self) < wl_start self + layer_numel layer)%nat ->
   exists self' layer',
     load_layer self layer = (self', layer', Failed WSizeMismatch) /\
     wl_buf self' = wl_buf self /\
     (wl_start self <= wl_start self' <= length (wl_buf self))%nat).
Proof.
  intros Hsup Hs. split; intros H.
  - apply load_layer_ok; assumption.
  - apply load_layer_short; assumption.
Qed.

Lemma load_layer_consumes_witness :
  let self := mkWeightLoader [0; 1; 0] 7 [1; 2; 3; 4] 0 4 in
  let layer := Linear (Some [0]) [0; 0] in
  ((wl_start self + layer_numel layer <= length (wl_buf self))%nat ->
   exists layer',
     load_layer self layer
     = (advance self (layer_numel layer), layer', Done tt) /\
     same_shape layer layer' /\
     concat (layer_params layer')
     = firstn (layer_numel layer) (skipn (wl_start self) (wl_buf self))) /\
  ((length (wl_buf self) < wl_start self + layer_numel layer)%nat ->
   exists self' layer',
     load_layer self layer = (self', layer', Failed WSizeMismatch) /\
     wl_buf self' = wl_buf self /\
     (wl_start self <= wl_start self' <= length (wl_buf self))%nat).
Proof.
  apply (load_layer_consumes (mkWeightLoader [0; 1; 0] 7 [1; 2; 3; 4] 0 4)
           (Linear (Some [0]) [0; 0])).
  - exact I.
  - cbn. lia.
Defined.



(** *** Files of any content *)

Lemma fromfile_count_enough (t : dtype) (n : nat) (fp : list Z) :
  (n * itemsize t <= length fp)%nat ->
  exists items,
    fromfile_count t n fp = (items, skipn (n * itemsize t) fp) /\
    length items = n.
Proof.
  revert fp. induction n as [| n IH]; intros fp H.
  - exists []. split; reflexivity.
  - cbn [fromfile_count].
    replace (length fp <? itemsize t)%nat with false
      by (symmetry; apply Nat.ltb_ge; lia).
    destruct (IH (skipn (itemsize t) fp)) as (items & E & Hlen).
    { rewrite length_skipn. lia. }
    rewrite E. eexists. split.
    + rewrite skipn_skipn.
      replace (n * itemsize t + itemsize t)%nat with (S n * itemsize t)%nat
        by lia.
      reflexivity.
    + cbn [length]. rewrite Hlen. reflexivity.
Qed.

Lemma fromfile_count_items (t : dtype) (n : nat) (fp : list Z) :
  length (fst (fromfile_count t n fp))
  = Nat.min n (length fp / itemsize t).
Proof.
  pose proof (itemsize_pos t) as Hp.
  revert fp. induction n as [| n IH]; intros fp; [reflexivity |].
  cbn [fromfile_count].
  destruct (length fp <? itemsize t)%nat eqn:E.
  - apply Nat.ltb_lt in E. rewrite Nat.div_small by exact E.
    rewrite Nat.min_0_r. reflexivity.
  - apply Nat.ltb_ge in E.
    specialize (IH (skipn (itemsize t) fp)).
    destruct (fromfile_count t n (skipn (itemsize t) fp)) as [items rest].
    cbn [fst length] in *. rewrite IH, length_skipn.
    assert (Hd : (length fp / itemsize t
                  = S ((length fp - itemsize t) / itemsize t))%nat).
    { replace (length fp) with ((length fp - itemsize t) + 1 * itemsize t)%nat
        at 1 by lia.
      rewrite Nat.div_add by lia. lia. }
    rewrite Hd. reflexivity.
Qed.

Lemma fromfile_all_length (t : dtype) (fp : list Z) :
  length (fromfile_all t fp) = (length fp / itemsize t)%nat.
Proof.
  unfold fromfile_all. rewrite fromfile_count_items.
  apply Nat.min_r. apply Nat.Div0.div_le_upper_bound.
  pose proof (itemsize_pos t). nia.
Qed.

Lemma ver_num_of_short (header : list Z) :
  (length header < 3)%nat -> ver_num_of header = None.
Proof.
  destruct header as [| h0 [| h1 [| h2 header]]]; cbn; intros H;
    try reflexivity; lia.
Qed.

Lemma seen_read (t : dtype) (fp : list Z) :
  ((length fp < itemsize t)%nat /\ fromfile_count t 1 fp = ([], [])) \/
  ((itemsize t <= length fp)%nat /\
   exists s, fromfile_count t 1 fp = ([s], skipn (itemsize t) fp)).
Proof.
  destruct (Nat.lt_ge_cases (length fp) (itemsize t)) as [H | H].
  - left. split; [exact H |]. cbn [fromfile_count].
    apply Nat.ltb_lt in H. rewrite H. reflexivity.
  - right. split; [exact H |].
    destruct (fromfile_count_enough t 1 fp) as (items & E & Hlen); [lia |].
    destruct items as [| s [| s' items]]; cbn in Hlen; try discriminate.
    exists s. rewrite E. rewrite Nat.mul_1_l. reflexivity.
Qed.

(** X22.  What the loader needs of a file.  With fewer than twelve bytes
    it fails with an index error before logging anything.  Otherwise the
    first twelve bytes are the header, and with the type of [seen] chosen
    from the version (four bytes up to version 19, eight above) the loader
    fails with an index error when [seen] is not complete, and else starts
    at position 0 with a buffer of one element for every four bytes that
    are left, a trailing remainder being dropped. *)
Theorem loader_init_needs (file : list Z) :
  ((length file < 12)%nat ->
   WeightLoader_init file = ([], Failed WIndexError)) /\
  ((12 <= length file)%nat ->
   exists h0 h1 h2,
     fst (fromfile_count int32 3 file) = [h0; h1; h2] /\
     let st := seen_type_of (h0 * 100 + h1 * 10 + h2) in
     ((length file < 12 + itemsize st)%nat ->
      snd (WeightLoader_init file) = Failed WIndexError) /\
     ((12 + itemsize st <= length file)%nat ->
      exists loader,
        snd (WeightLoader_init file) = Done loader /\
        wl_header loader = [h0; h1; h2] /\
        wl_start loader = 0%nat /\
        wl_size loader = length (wl_buf loader) /\
        wl_size loader = ((length file - 12 - itemsize st) / 4)%nat)).
Proof.
  split.
  - intros H. unfold WeightLoader_init.
    pose proof (fromfile_count_items int32 3 file) as Hn.
    destruct (fromfile_count int32 3 file) as [header fp1].
    cbn [fst itemsize] in Hn.
    rewrite ver_num_of_short; [reflexivity |].
    rewrite Hn.
    assert ((length file / 4 < 3)%nat)
      by (apply Nat.Div0.div_lt_upper_bound; lia).
    lia.
  - intros H.
    destruct (fromfile_count_enough int32 3 file) as (items & E & Hlen);
      [cbn; lia |].
    destruct items as [| h0 [| h1 [| h2 [| h3 items]]]]; cbn in Hlen;
      try discriminate.
    exists h0, h1, h2. rewrite E. split; [reflexivity |].
    cbv zeta. unfold WeightLoader_init. rewrite E. cbn [ver_num_of].
    unfold seen_type_of.
    set (ver := h0 * 100 + h1 * 10 + h2).
    set (fp1 := skipn (3 * itemsize int32) file).
    assert (Hfp1 : length fp1 = (length file - 12)%nat)
      by (unfold fp1; rewrite length_skipn; reflexivity).
    assert (Hcase : forall lvl t,
      ((length file < 12 + itemsize t)%nat ->
       snd (let (seen, fp2) := fromfile_count t 1 fp1 in
            match seen with
            | [] => ([DEBUG; lvl], Failed WIndexError)
            | s :: _ =>
                ([DEBUG; lvl],
                 Done (mkWeightLoader [h0; h1; h2] s
                         (fromfile_all float32 fp2) 0
                         (length (fromfile_all float32 fp2))))
            end) = Failed WIndexError) /\
      ((12 + itemsize t <= length file)%nat ->
       exists loader,
         snd (let (seen, fp2) := fromfile_count t 1 fp1 in
              match seen with
              | [] => ([DEBUG; lvl], Failed WIndexError)
              | s :: _ =>
                  ([DEBUG; lvl],
                   Done (mkWeightLoader [h0; h1; h2] s
                           (fromfile_all float32 fp2) 0
                           (length (fromfile_all float32 fp2))))
              end) = Done loader /\
         wl_header loader = [h0; h1; h2] /\
         wl_start loader = 0%nat /\
         wl_size loader = length (wl_buf loader) /\
         wl_size loader = ((length file - 12 - itemsize t) / 4)%nat)).
    { intros lvl t.
      destruct (seen_read t fp1) as [[Hlt Er] | [Hge (s & Er)]]; rewrite Er.
      - split; [reflexivity | intros; lia].
      - split; [intros; lia |]. intros _. eexists.
        split; [reflexivity |]. cbn [wl_header wl_start wl_size wl_buf].
        split; [reflexivity |]. split; [reflexivity |].
        split; [reflexivity |].
        rewrite fromfile_all_length, length_skipn, Hfp1. reflexivity. }
    destruct (ver <=? 19); [apply Hcase |].
    destruct (ver <=? 29); apply Hcase.
Qed.


Lemma loader_init_needs_witness :
  WeightLoader_init [0; 0; 0; 0; 1; 0; 0; 0] = ([], Failed WIndexError).
Proof.
  apply (proj1 (loader_init_needs [0; 0; 0; 0; 1; 0; 0; 0])).
  cbn. lia.
Defined.

End WeightsFacts.

(** ** Images of a batch *)

Lemma suppress_from_ext (conf nms : R) (box_of box_of' : nat -> Box)
    (box : Box) (rest : list nat) (cls_max : list R) :
  (forall i, In i rest -> box_of i = box_of' i) ->
  suppress_from conf nms box_of box rest cls_max
  = suppress_from conf nms box_of' box rest cls_max.
Proof.
  revert cls_max. induction rest as [| j rest IH]; intros cls_max H;
    [reflexivity |].
  cbn [suppress_from].
  rewrite <- (H j (or_introl eq_refl)).
  assert (Hr : forall i, In i rest -> box_of i = box_of' i)
    by (intros i Hi; apply H; right; exact Hi).
  destruct (Rgeb (nth j cls_max 0) 0 && Rltb (nth j cls_max 0) conf);
    [reflexivity |].
  destruct (Rgeb (nth j cls_max 0) 0); [| apply IH; exact Hr].
  destruct (bbox_iou box (box_of j)); [| reflexivity].
  cbn [bind]. destruct (Rgtb a nms); apply IH; exact Hr.
Qed.

Lemma nms_loop_ext (conf nms : R) (box_of box_of' : nat -> Box)
    (order : list nat) (cls_max : list R) :
  (forall i, In i order -> box_of i = box_of' i) ->
  nms_loop conf nms box_of order cls_max
  = nms_loop conf nms box_of' order cls_max.
Proof.
  revert cls_max. induction order as [| i rest IH]; intros cls_max H;
    [reflexivity |].
  cbn [nms_loop].
  rewrite <- (H i (or_introl eq_refl)).
  assert (Hr : forall j, In j rest -> box_of j = box_of' j)
    by (intros j Hj; apply H; right; exact Hj).
  destruct (Rltb (nth i cls_max 0) 0); [apply IH; exact Hr |].
  destruct (Rltb (nth i cls_max 0) conf); [reflexivity |].
  rewrite (suppress_from_ext conf nms box_of box_of' _ rest cls_max Hr).
  destruct (suppress_from conf nms box_of' (box_of i) rest cls_max)
    as [cls_max' |]; [| reflexivity].
  cbn [bind]. rewrite (IH cls_max' Hr). reflexivity.
Qed.

Section SameImage.
Variables (self : BBoxConverter) (g : Grid) (d d' : list R) (b : nat).

Let A := num_anchors self.
Let hw := (g_h g * g_w g)%nat.
Let k := g_k g.

Hypothesis five_channels : (5 <= k)%nat.
Hypothesis same_image :
  forall a ch cell, (a < A)%nat -> (ch < k)%nat -> (cell < hw)%nat ->
    get4 A k hw d b a ch cell = get4 A k hw d' b a ch cell.

Lemma index_parts (idx : nat) :
  (idx < A * hw)%nat -> (idx / hw < A)%nat /\ (idx mod hw < hw)%nat.
Proof.
  intros H. assert (Hhw : (0 < hw)%nat) by nia. split.
  - apply Nat.Div0.div_lt_upper_bound. nia.
  - apply Nat.mod_upper_bound. lia.
Qed.

Lemma score_at_same (idx : nat) :
  (idx < A * hw)%nat -> score_at self g d b idx = score_at self g d' b idx.
Proof.
  intros H. destruct (index_parts idx H) as [Ha Hc].
  unfold score_at. fold A hw k.
  rewrite (same_image (idx / hw) 4 (idx mod hw)) by (assumption || lia).
  assert (Hl : class_logits self g d b (idx / hw) (idx mod hw)
               = class_logits self g d' b (idx / hw) (idx mod hw)).
  { unfold class_logits. fold A hw k. apply map_ext_in. intros c Hin.
    apply in_seq in Hin. apply same_image; assumption || lia. }
  rewrite Hl. reflexivity.
Qed.

Lemma box_at_same (idx : nat) :
  (idx < A * hw)%nat -> box_at self g d b idx = box_at self g d' b idx.
Proof.
  intros H. destruct (index_parts idx H) as [Ha Hc].
  unfold box_at. fold A hw k.
  rewrite !(same_image (idx / hw) _ (idx mod hw)) by (assumption || lia).
  reflexivity.
Qed.

Lemma cls_max_of_same : cls_max_of self g d b = cls_max_of self g d' b.
Proof.
  unfold cls_max_of, cls_scores. fold A hw. rewrite !map_map.
  apply map_ext_in. intros idx Hin. apply in_seq in Hin.
  rewrite score_at_same by lia. reflexivity.
Qed.

Lemma survivors_same : survivors self g d b = survivors self g d' b.
Proof.
  unfold survivors, ranked_of. rewrite cls_max_of_same.
  apply nms_loop_ext. intros i Hi.
  apply torch_sort_desc_bound in Hi. rewrite cls_max_of_length in Hi.
  apply box_at_same. exact Hi.
Qed.

Lemma image_boxes_same : image_boxes self g d b = image_boxes self g d' b.
Proof.
  unfold image_boxes. rewrite <- survivors_same.
  destruct (survivors self g d b) as [kept |] eqn:E; [| reflexivity].
  cbn [bind]. f_equal. apply map_ext_in. intros e He.
  destruct (survivors_emitted self g d b kept E) as [Hsub _].
  assert (Hin : In (fst e) (ranked_of self g d b)).
  { eapply subseq_incl; [exact Hsub |]. apply in_map. exact He. }
  apply ranked_of_bound in Hin.
  rewrite box_at_same, score_at_same by exact Hin. reflexivity.
Qed.
End SameImage.

(** X23.  The images of a batch are independent: the survivors and the
    boxes returned for image [b] depend only on the values the array holds
    for image [b].  Two arrays that agree on every anchor, channel and cell
    of image [b] give the same result for it, whatever they hold for the
    other images. *)
Theorem images_independent (self : BBoxConverter) (g : Grid)
    (d d' : list R) (b : nat) :
  (5 <= g_k g)%nat ->
  (forall a ch cell,
      (a < num_anchors self)%nat -> (ch < g_k g)%nat ->
      (cell < g_h g * g_w g)%nat ->
      get4 (num_anchors self) (g_k g) (g_h g * g_w g) d b a ch cell
      = get4 (num_anchors self) (g_k g) (g_h g * g_w g) d' b a ch cell) ->
  survivors self g d b = survivors self g d' b /\
  image_boxes self g d b = image_boxes self g d' b.
Proof.
  intros Hk Hsame. split.
  - apply survivors_same; assumption.
  - apply image_boxes_same; assumption.
Qed.

Lemma images_independent_witness :
  survivors ex_conv ex_batch_grid ex_batch_a 0
  = survivors ex_conv ex_batch_grid ex_batch_b 0 /\
  image_boxes ex_conv ex_batch_grid ex_batch_a 0
  = image_boxes ex_conv ex_batch_grid ex_batch_b 0.
Proof.
  apply (images_independent ex_conv ex_batch_grid ex_batch_a ex_batch_b 0%nat).
  - cbn. lia.
  - cbn [ex_conv ex_batch_grid num_anchors g_k g_h g_w Nat.mul].
    intros a ch cell Ha Hch Hcell.
    assert (a = 0%nat) by lia. subst a.
    do 5 (destruct ch as [| ch];
          [destruct cell as [| [| cell]]; [reflexivity | reflexivity | lia] |]).
    lia.
Defined.
